(** * Encryption-detection pipeline: a shallow embedding of the Go sources

    The development follows the Go package file by file:
    - [common.go]      : [CountTrueBools], [countBytes], [mergeCounterLists],
                         [meanBytes], [meanFloats], [CreateFileCounter],
                         [CreateFileCounterGoro];
    - the statistics   : [ChiSqTest], [EntropyEstimation], [KsTest];
    - [autocorr.go]    : [AutoCorrelation];
    - [compression.go] : [checkCompressionToolAvailability], [CompressionTest];
    - [signatures.go]  : [FindBytesPattern], [EncToolDetection],
                         [SignatureAnalysis];
    - the probe        : [PartedCheck];
    - the GUI handler  : the decision tree of the start button in [main],
                         and the handler with the tests it calls.

    Go's [float64] is IEEE-754 binary64, which is the kernel's primitive
    [float].  Go's [int] is a 64-bit integer and is written [Z]: counts of
    bytes and lengths of files stay far below 2^63, and where the program
    shifts or multiplies an [int] the wrap-around is written out
    ([wrap_int]).  A function that can end without returning (a fatal log
    call, a run-time panic) has a result in [outcome]. *)

From Stdlib Require Import ZArith Floats Reals Lra Lia.
From Stdlib Require Import Strings.Byte Strings.Ascii.
From stdpp Require Import gmap strings list fin_maps.

Local Open Scope Z_scope.

(** ** float64 *)

Definition float64 := PrimFloat.float.

(** [float64(n)] for an integer [n]: round to nearest, ties to even. *)
Definition float64_of_Z (n : Z) : float64 :=
  SF2Prim (binary_normalize prec emax n 0 false).

Definition fle (x y : float64) : bool := PrimFloat.leb x y.
Definition fge (x y : float64) : bool := PrimFloat.leb y x.
Definition flt (x y : float64) : bool := PrimFloat.ltb x y.
Definition fgt (x y : float64) : bool := PrimFloat.ltb y x.

Definition is_nan (x : float64) : bool := negb (PrimFloat.eqb x x).

(** [math.Floor]: the largest integral value not above [x]; zeros,
    infinities and NaN are returned unchanged. *)
Definition floor_of_SF (s : bool) (m : positive) (e : Z) : Z :=
  let v := if s then Z.neg m else Z.pos m in
  if 0 <=? e then v * 2 ^ e else v / 2 ^ (- e).

Definition math_Floor (x : float64) : float64 :=
  match Prim2SF x with
  | S754_finite s m e => float64_of_Z (floor_of_SF s m e)
  | _ => x
  end.

(** ** Ways a Go function can fail to return *)

Inductive abort : Set :=
  | Fatal_Seek              (* log.Fatalln("Seek error: ", seekErr) *)
  | Panic_NegativeShift     (* runtime error: negative shift amount *)
  | Panic_MakeSlice         (* runtime error: makeslice: len out of range *)
  | Unspecified_Conversion  (* float-to-int conversion of a value that int
                               cannot represent: implementation-specific *)
  | Loop_Unfinished.        (* the iteration bound of a modelled loop was
                               reached; [loops_end_within_bounds] shows that
                               this never happens *)

Inductive outcome (A : Type) : Type :=
  | Returns (a : A)
  | Aborts (why : abort).
Arguments Returns {A} a.
Arguments Aborts {A} why.

Definition obind {A B : Type} (x : outcome A) (f : A -> outcome B) : outcome B :=
  match x with
  | Returns a => f a
  | Aborts why => Aborts why
  end.

Global Instance outcome_ret : MRet outcome := @Returns.
Global Instance outcome_bind : MBind outcome :=
  fun A B f x => obind x f.

(** ** Go's [int] *)

Definition int_min : Z := - 2 ^ 63.
Definition int_max : Z := 2 ^ 63 - 1.

(** Two's-complement wrap-around of a 64-bit signed integer. *)
Definition wrap_int (z : Z) : Z := (z + 2 ^ 63) mod 2 ^ 64 - 2 ^ 63.

(** [int(x)] for a float: truncation towards zero when the result fits. *)
Definition int_of_float64 (x : float64) : outcome Z :=
  match Prim2SF x with
  | S754_zero _ => Returns 0
  | S754_finite s m e =>
      let a := if 0 <=? e then Z.pos m * 2 ^ e else Z.pos m / 2 ^ (- e) in
      let z := if s then - a else a in
      if (int_min <=? z) && (z <=? int_max) then Returns z
      else Aborts Unspecified_Conversion
  | _ => Aborts Unspecified_Conversion
  end.

(** [x << k] on [int]: a negative count panics, bits shifted out are lost. *)
Definition int_shl (x k : Z) : outcome Z :=
  if k <? 0 then Aborts Panic_NegativeShift
  else Returns (wrap_int (Z.shiftl x k)).

(** [x ^ y] on [int] is bitwise exclusive or. *)
Definition int_xor (x y : Z) : Z := Z.lxor x y.

(** ** common.go *)

Abbreviation byte := Byte.byte.

Global Instance byte_eq_decision : EqDecision byte := Byte.byte_eq_dec.
Global Instance byte_countable : Countable byte :=
  inj_countable Byte.to_N Byte.of_N Byte.of_to_N.

Definition byte_to_Z (b : byte) : Z := Z.of_N (Byte.to_N b).

(** [byte(i)] for an [int] in 0..255. *)
Definition byte_of_Z (i : Z) : byte :=
  default Byte.x00 (Byte.of_N (Z.to_N (i mod 256))).

(** Reading a [map[byte]int] at a key: an absent key reads as 0. *)
Definition counter_get (counter : gmap byte Z) (b : byte) : Z :=
  default 0 (counter !! b).

(** [func CountTrueBools(bools ...bool) int] *)
Fixpoint CountTrueBools (bools : list bool) : Z :=
  match bools with
  | [] => 0
  | b :: rest => (if b then 1 else 0) + CountTrueBools rest
  end.

(** [func countBytes(data []byte) map[byte]int]: [counter[b]++] per byte. *)
Definition countBytes (data : list byte) : gmap byte Z :=
  foldl (fun counter b => <[b := counter_get counter b + 1]> counter) ∅ data.

(** [result[k] += v] *)
Definition counter_add (k : byte) (v : Z) (result : gmap byte Z) : gmap byte Z :=
  <[k := counter_get result k + v]> result.

(** [func mergeCounterLists(counter1, counter2 map[byte]int) map[byte]int]:
    two [range] loops adding into a fresh map. *)
Definition mergeCounterLists (counter1 counter2 : gmap byte Z) : gmap byte Z :=
  map_fold counter_add (map_fold counter_add ∅ counter1) counter2.

(** The sum of all per-byte counts of a histogram. *)
Definition counter_sum (counter : gmap byte Z) : Z :=
  map_fold (fun _ v total => total + v) 0 counter.

(** *** Files and readers

    A regular file is its content; a handle is what is left to read.
    [os.File.Read] fills the buffer as far as the content reaches and
    returns 0 at the end (and for a buffer of length 0). *)
Definition file_Read (len_p : nat) (rest : list byte) : list byte * list byte :=
  (take len_p rest, drop len_p rest).

(** [bufio.Reader]: an internal buffer of [len_buf] bytes (at least 16) in
    front of the file; [buffered] are the bytes read ahead and not yet
    handed out. *)
Record bufio_Reader : Type := {
  len_buf : nat;
  buffered : list byte;
  underlying : list byte
}.

Definition minReadBufferSize : nat := 16.

Definition bufio_NewReaderSize (rd : list byte) (size : Z) : bufio_Reader :=
  {| len_buf := Nat.max (Z.to_nat size) minReadBufferSize;
     buffered := [];
     underlying := rd |}.

(** [Read(p)] of a [bufio.Reader]: at most one read of the file per call; a
    request at least as large as the internal buffer goes to the file
    directly, a smaller one is served from the read-ahead. *)
Definition bufio_Read (len_p : nat) (r : bufio_Reader) : list byte * bufio_Reader :=
  match len_p with
  | O => ([], r)
  | _ =>
    match buffered r with
    | [] =>
        if (len_buf r <=? len_p)%nat then
          let '(p, rest) := file_Read len_p (underlying r) in
          (p, {| len_buf := len_buf r; buffered := []; underlying := rest |})
        else
          let '(ahead, rest) := file_Read (len_buf r) (underlying r) in
          (take len_p ahead,
           {| len_buf := len_buf r; buffered := drop len_p ahead; underlying := rest |})
    | ahead =>
        (take len_p ahead,
         {| len_buf := len_buf r; buffered := drop len_p ahead;
            underlying := underlying r |})
    end
  end.

(** The [for] loop of [CreateFileCounter]; each turn that does not leave
    the loop consumes at least one byte, so [fuel] above the file length is
    never used up. *)
Fixpoint CreateFileCounter_loop (fuel : nat) (blockSize : nat) (reader : bufio_Reader)
    (readBytesCount : Z) (totalCounter : gmap byte Z) : outcome (gmap byte Z * Z) :=
  match fuel with
  | O => Aborts Loop_Unfinished
  | S fuel' =>
      let '(block, reader') := bufio_Read blockSize reader in
      let bytesRead := length block in
      if (bytesRead =? 0)%nat then Returns (totalCounter, readBytesCount)
      else
        let readBytesCount' := readBytesCount + Z.of_nat bytesRead in
        let blockBytesCounter := countBytes block in
        CreateFileCounter_loop fuel' blockSize reader' readBytesCount'
          (mergeCounterLists totalCounter blockBytesCounter)
  end.

(** The [for] loop of [CreateFileCounterGoro]: the count of bytes read is
    advanced first, then a short block leaves the loop untallied. *)
Fixpoint CreateFileCounterGoro_loop (fuel : nat) (blockSize : nat) (rest : list byte)
    (readBytesCount : Z) (totalCounter : gmap byte Z) : outcome (gmap byte Z * Z) :=
  match fuel with
  | O => Aborts Loop_Unfinished
  | S fuel' =>
      let '(block, rest') := file_Read blockSize rest in
      let bytesRead := length block in
      if (bytesRead =? 0)%nat then Returns (totalCounter, readBytesCount)
      else
        let readBytesCount' := readBytesCount + Z.of_nat bytesRead in
        if (bytesRead <? blockSize)%nat then Returns (totalCounter, readBytesCount')
        else
          let blockBytesCounter := countBytes block in
          CreateFileCounterGoro_loop fuel' blockSize rest' readBytesCount'
            (mergeCounterLists totalCounter blockBytesCounter)
  end.

(** [type ByteCounter struct], without the file name. *)
Record ByteCounter : Type := {
  Counter : gmap byte Z;
  BytesRead : Z
}.

Section WithLog2.

(** [math.Log2] of the Go standard library.  Its results on ordinary
    arguments depend on the platform's implementation of [math.Log]; what
    the theorems below need of it is stated where it is needed. *)
Variable Log2 : float64 -> float64.

(** [int(math.Floor(math.Log2(float64(fsize))))] *)
Definition floorLog2 (fsize : Z) : outcome Z :=
  int_of_float64 (math_Floor (Log2 (float64_of_Z fsize))).

(** The block size [CreateFileCounter] reads with:
    [if fsize < blockSize { blockSize = 1 << int(...) }]. *)
Definition effectiveBlockSize (fsize blockSize : Z) : outcome Z :=
  if fsize <? blockSize then
    (k ← floorLog2 fsize; int_shl 1 k)
  else Returns blockSize.

(** The block size [CreateFileCounterGoro] reads with:
    [if fsize < blockSize { blockSize = 2 ^ (int(...)) }]. *)
Definition effectiveBlockSizeGoro (fsize blockSize : Z) : outcome Z :=
  if fsize <? blockSize then
    (k ← floorLog2 fsize; Returns (int_xor 2 k))
  else Returns blockSize.

(** [func CreateFileCounter(filename string, blockSize int) (map[byte]int, int)],
    on the content of the file named. *)
Definition CreateFileCounter (content : list byte) (blockSize : Z)
    : outcome (gmap byte Z * Z) :=
  let fsize := Z.of_nat (length content) in
  blockSize' ← effectiveBlockSize fsize blockSize;
  let reader := bufio_NewReaderSize content blockSize' in
  if blockSize' <? 0 then Aborts Panic_MakeSlice
  else
    CreateFileCounter_loop (S (length content)) (Z.to_nat blockSize') reader 0 ∅.

(** [func CreateFileCounterGoro(filename string, blockSize int, resultChannel
    chan ByteCounter, wg *sync.WaitGroup)]: the value sent on the channel. *)
Definition CreateFileCounterGoro (content : list byte) (blockSize : Z)
    : outcome ByteCounter :=
  let fsize := Z.of_nat (length content) in
  blockSize' ← effectiveBlockSizeGoro fsize blockSize;
  if blockSize' <? 0 then Aborts Panic_MakeSlice
  else
    (r ← CreateFileCounterGoro_loop (S (length content)) (Z.to_nat blockSize')
           content 0 ∅;
     Returns {| Counter := r.1; BytesRead := r.2 |}).

End WithLog2.

(** [func meanBytes(array []byte) float64] *)
Definition meanBytes (array : list byte) : float64 :=
  let sum := foldl (fun sum value => sum + float64_of_Z (byte_to_Z value))%float
                   0%float array in
  (sum / float64_of_Z (Z.of_nat (length array)))%float.

(** [func meanFloats(array []float64) float64] *)
Definition meanFloats (array : list float64) : float64 :=
  let sum := foldl (fun sum value => sum + value)%float 0%float array in
  (sum / float64_of_Z (Z.of_nat (length array)))%float.

(** ** The histogram tests

    The chi-squared and Kolmogorov tests use the four operations, absolute
    value, square root and comparison only.  They are written once over
    the arithmetic they run on: [float64_arith] is what the program
    executes; [real_arith] is the same text read in exact real arithmetic,
    the value the float computation approximates as long as no NaN or
    infinity arises. *)
Class Arith (F : Type) : Type := {
  of_int : Z -> F;          (* float64(n) *)
  add : F -> F -> F;
  sub : F -> F -> F;
  mul : F -> F -> F;
  div : F -> F -> F;
  absF : F -> F;            (* math.Abs *)
  sqrtF : F -> F;           (* math.Sqrt *)
  gtb : F -> F -> bool;     (* x > y *)
  const_1_63 : F;           (* the literal 1.63 *)
  const_1_36 : F            (* the literal 1.36 *)
}.

Global Instance float64_arith : Arith float64 := {|
  of_int := float64_of_Z;
  add := PrimFloat.add;
  sub := PrimFloat.sub;
  mul := PrimFloat.mul;
  div := PrimFloat.div;
  absF := PrimFloat.abs;
  sqrtF := PrimFloat.sqrt;
  gtb := fgt;
  const_1_63 := 0x1.a147ae147ae14p+0%float;
  const_1_36 := 0x1.5c28f5c28f5c3p+0%float
|}.

Definition Rgtb (x y : R) : bool := if Rlt_dec y x then true else false.

Global Instance real_arith : Arith R := {|
  of_int := IZR;
  add := Rplus;
  sub := Rminus;
  mul := Rmult;
  div := Rdiv;
  absF := Rabs;
  sqrtF := sqrt;
  gtb := Rgtb;
  const_1_63 := (163 / 100)%R;
  const_1_36 := (136 / 100)%R
|}.

Section Histogram.

Context {F : Type} `{Arith F}.

(** [math.Pow(x, 2)]: the square of [x], NaN for NaN. *)
Definition pow2 (x : F) : F := mul x x.

(** [func ChiSqTest(totalCounter map[byte]int, readBytesCount int) float64].
    Every entry of [theoreticalDistribution] is
    [float64(readBytesCount) / 256]. *)
Definition ChiSqTest (totalCounter : gmap byte Z) (readBytesCount : Z) : F :=
  let theoreticalDistribution (b : byte) := div (of_int readBytesCount) (of_int 256) in
  foldl (fun chiSquare i =>
           let observed := of_int (counter_get totalCounter (byte_of_Z i)) in
           let expected := theoreticalDistribution (byte_of_Z i) in
           add chiSquare (div (pow2 (sub observed expected)) expected))
        (of_int 0) (seqZ 0 256).

(** The first loop of [KsTest]: the running sums and the two lists they
    are appended to, for [i] from 0 to 255 in this order. *)
Definition ks_cdf_step (totalCounter : gmap byte Z) (readBytesCount : Z)
    (st : F * F * list F * list F) (i : Z) : F * F * list F * list F :=
  let '(empiricalCumSum, theoreticalCumSum, empiricalCDF, theoreticalCDF) := st in
  let empiricalCumSum' :=
    add empiricalCumSum
        (div (of_int (counter_get totalCounter (byte_of_Z i))) (of_int readBytesCount)) in
  let theoreticalCumSum' :=
    add theoreticalCumSum
        (div (div (of_int readBytesCount) (of_int 256)) (of_int readBytesCount)) in
  (empiricalCumSum', theoreticalCumSum',
   empiricalCDF ++ [empiricalCumSum'], theoreticalCDF ++ [theoreticalCumSum']).

Definition ks_cdfs (totalCounter : gmap byte Z) (readBytesCount : Z)
    : list F * list F :=
  let '(_, _, empiricalCDF, theoreticalCDF) :=
    foldl (ks_cdf_step totalCounter readBytesCount)
          (of_int 0, of_int 0, [], []) (seqZ 0 256) in
  (empiricalCDF, theoreticalCDF).

(** The second loop: [ksDifferences[idx] = |empiricalCDF[idx] -
    theoreticalCDF[idx]|]. *)
Definition ksDifferences (totalCounter : gmap byte Z) (readBytesCount : Z) : list F :=
  let '(empiricalCDF, theoreticalCDF) := ks_cdfs totalCounter readBytesCount in
  zip_with (fun e t => absF (sub e t)) empiricalCDF theoreticalCDF.

(** The third loop: starting from [ksDifferences[0]] at position 0, a
    strictly larger value replaces the statistic and its position. *)
Definition ks_max_step (st : F * Z) (entry : Z * F) : F * Z :=
  let '(ksStatistic, maxDiffPosition) := st in
  let '(idx, value) := entry in
  if gtb value ksStatistic then (value, idx) else (ksStatistic, maxDiffPosition).

Definition ks_max (differences : list F) : F * Z :=
  foldl ks_max_step (nth 0%nat differences (of_int 0), 0)
        (imap (fun idx value => (Z.of_nat idx, value)) differences).

(** [func KsTest(totalCounter map[byte]int, readBytesCount int)
    (float64, int, int, float64, float64)] *)
Definition KsTest (totalCounter : gmap byte Z) (readBytesCount : Z)
    : F * Z * Z * F * F :=
  let '(ksStatistic, maxDiffPosition) :=
    ks_max (ksDifferences totalCounter readBytesCount) in
  let criticalValue001 := div const_1_63 (sqrtF (of_int readBytesCount)) in
  let criticalValue005 := div const_1_36 (sqrtF (of_int readBytesCount)) in
  (ksStatistic, maxDiffPosition, readBytesCount, criticalValue001, criticalValue005).

End Histogram.

Section Entropy.

Variable Log2 : float64 -> float64.     (* math.Log2 *)

(** [func EntropyEstimation(totalCounter map[byte]int, readBytesCount int) float64] *)
Definition EntropyEstimation (totalCounter : gmap byte Z) (readBytesCount : Z) : float64 :=
  let entropy :=
    foldl (fun entropy i =>
             let p := (float64_of_Z (counter_get totalCounter (byte_of_Z i))
                       / float64_of_Z readBytesCount)%float in
             (entropy + p * Log2 p)%float)
          0%float (seqZ 0 256) in
  (- entropy)%float.

End Entropy.

(** ** autocorr.go *)

Section AutoCorrelation.

(** The two functions of [github.com/montanaflynn/stats] the test calls.
    Each returns a value and an error; [true] stands for [err != nil]. *)
Variable stats_Correlation : list float64 -> list float64 -> float64 * bool.
Variable stats_StandardDeviation : list float64 -> float64 * bool.

(** The score of one full block: the mean of the absolute correlations
    between the centred block and itself shifted by [lag], for
    [lag = 1 .. maxLag - 1]. *)
Definition blockScore (buffer : list byte) : float64 :=
  let inputMean := meanBytes buffer in
  let floatBuffer :=
    map (fun val => (float64_of_Z (byte_to_Z val) - inputMean)%float) buffer in
  let maxLag := if (length floatBuffer <? 50)%nat then length floatBuffer else 50%nat in
  let results :=
    map (fun lag =>
           let '(correlation, _) :=
             stats_Correlation (drop lag floatBuffer)
                               (take (length floatBuffer - lag) floatBuffer) in
           PrimFloat.abs correlation)
        (seq 1 (maxLag - 1)) in
  meanFloats results.

(** The [for] loop: a read of nothing and a read shorter than the buffer
    both leave the loop before the block is scored. *)
Fixpoint AutoCorrelation_loop (fuel : nat) (blockSize : nat) (rest : list byte)
    (totalAutocorr : list float64) : outcome (list float64) :=
  match fuel with
  | O => Aborts Loop_Unfinished
  | S fuel' =>
      let '(block, rest') := file_Read blockSize rest in
      let bytesRead := length block in
      if (bytesRead =? 0)%nat then Returns totalAutocorr
      else if (bytesRead <? blockSize)%nat then Returns totalAutocorr
      else
        AutoCorrelation_loop fuel' blockSize rest'
          (totalAutocorr ++ [blockScore block])
  end.

(** [func AutoCorrelation(filename string, blockSize int) float64] *)
Definition AutoCorrelation (content : list byte) (blockSize : Z) : outcome float64 :=
  if blockSize <? 0 then Aborts Panic_MakeSlice
  else
    (totalAutocorr ← AutoCorrelation_loop (S (length content)) (Z.to_nat blockSize)
                       content [];
     let '(std, err) := stats_StandardDeviation totalAutocorr in
     if err then Returns 0%float else Returns std).

End AutoCorrelation.

(** ** compression.go *)

(** What the compression test sees of the machine it runs on. *)
Record compressionEnv : Type := {
  LookPath : string -> bool;            (* exec.LookPath(tool) succeeds *)
  fileSize : string -> option Z;        (* os.Stat(fileName).Size() *)
  performCompression : string -> string -> float64
    (* performCompression of the command [tool < fileName | wc -c] *)
}.

Definition compressionTools : list string :=
  ["pigz"; "lz4"; "lbzip2"; "zstd"; "pixz"].

(** [func checkCompressionToolAvailability() error]: the name of the first
    tool that is not found, if any. *)
Fixpoint firstMissing (look : string -> bool) (tools : list string) : option string :=
  match tools with
  | [] => None
  | tool :: rest => if look tool then firstMissing look rest else Some tool
  end.

Definition checkCompressionToolAvailability (env : compressionEnv) : option string :=
  firstMissing (LookPath env) compressionTools.

(** [func CompressionTest(fileName string) float64] *)
Definition CompressionTest (env : compressionEnv) (fileName : string) : float64 :=
  match checkCompressionToolAvailability env with
  | Some _ => 0%float
  | None =>
      match fileSize env fileName with
      | None => 0%float
      | Some size =>
          let fileSize := float64_of_Z size in
          let gzipCompression := (fileSize / performCompression env "pigz" fileName)%float in
          let lz4Compression := (fileSize / performCompression env "lz4" fileName)%float in
          let bz2Compression := (fileSize / performCompression env "lbzip2" fileName)%float in
          let zstdCompression := (fileSize / performCompression env "zstd" fileName)%float in
          let xzCompression := (fileSize / performCompression env "pixz" fileName)%float in
          ((gzipCompression + lz4Compression + bz2Compression + zstdCompression
            + xzCompression) / 5)%float
      end
  end.

(** ** signatures.go *)

(** [hex.EncodeToString]: two lower-case digits per byte. *)
Definition hexDigit (n : N) : ascii :=
  nth (N.to_nat n)
      ["0"; "1"; "2"; "3"; "4"; "5"; "6"; "7"; "8"; "9"; "a"; "b"; "c"; "d"; "e"; "f"]%char
      "0"%char.

Definition hex_EncodeToString (data : list byte) : list ascii :=
  flat_map (fun b => [hexDigit (Byte.to_N b / 16); hexDigit (Byte.to_N b mod 16)]) data.

(** The compiled patterns.  Every pattern of the encryption-tool table is
    a sequence of literal characters and of [.] wildcards, compiled with the
    flag [(?i)]; a group in parentheses does not change what the whole
    pattern matches. *)
Inductive atom : Set :=
  | Lit (c : ascii)     (* a literal character, letters in either case *)
  | AnyChar.            (* [.]: any character but a line feed *)

Definition regex := list atom.

Definition literal (s : string) : regex := map Lit (String.list_ascii_of_string s).

Definition foldCase (c : ascii) : ascii :=
  let n := N_of_ascii c in
  if ((65 <=? n) && (n <=? 90))%N then ascii_of_N (n + 32) else c.

Definition atom_matches (a : atom) (c : ascii) : bool :=
  match a with
  | Lit l => bool_decide (foldCase l = foldCase c)
  | AnyChar => negb (bool_decide (c = "010"%char))
  end.

(** Does the pattern match at the start of [data]? *)
Fixpoint matches_at (re : regex) (data : list ascii) : bool :=
  match re, data with
  | [], _ => true
  | _ :: _, [] => false
  | a :: re', c :: data' => atom_matches a c && matches_at re' data'
  end.

(** [regex.FindAll(data)]: the start and end positions of the successive
    non-overlapping matches, leftmost first, in one flat slice.  [skip]
    counts the characters still covered by the last match. *)
Fixpoint FindAll_from (re : regex) (skip : nat) (pos : Z) (data : list ascii) : list Z :=
  match data with
  | [] => []
  | _ :: data' =>
      match skip with
      | S skip' => FindAll_from re skip' (pos + 1) data'
      | O =>
          if matches_at re data then
            pos :: (pos + Z.of_nat (length re))
                :: FindAll_from re (length re - 1) (pos + 1) data'
          else FindAll_from re 0 (pos + 1) data'
      end
  end.

Definition FindAll (re : regex) (data : list ascii) : list Z :=
  FindAll_from re 0 0 data.

(** [func FindBytesPattern(data string, regex *rure.Regex) int] *)
Definition FindBytesPattern (data : list ascii) (re : regex) : Z :=
  Z.of_nat (length (FindAll re data)) / 2.

(** [type AdvancedSignatureMap struct { regex *rure.Regex; sector int64 }] *)
Record AdvancedSignatureMap : Type := {
  sig_regex : regex;
  sector : Z
}.

(** The table [patterns] of [EncToolDetection], compiled. *)
Definition signatures : gmap string AdvancedSignatureMap :=
  <["FreeBSD GELI" := {| sig_regex := literal "47454f4d3a3a454c49"; sector := -1 |}]> (
  <["BitLocker" := {| sig_regex := literal "eb58902d4656452d46532d0002080000"; sector := 1 |}]> (
  <["LUKSv1" := {| sig_regex := literal "4c554b53babe0001"; sector := 1 |}]> (
  <["LUKSv2" := {| sig_regex := literal "4c554b53babe0002"; sector := 1 |}]> (
  <["FileVault v2" :=
      {| sig_regex := literal "41505342" ++ replicate 456 AnyChar
                      ++ literal "0800000000000000";
         sector := 0 |}]> (
  <["PGP WDE" := {| sig_regex := literal "eb489050475047554152440000000000"; sector := 1 |}]>
  ∅))))).

Definition toolNames : list string :=
  ["FreeBSD GELI"; "BitLocker"; "LUKSv1"; "LUKSv2"; "FileVault v2"; "PGP WDE"].

(** [foundSignaturesTotal] after the first loop: every name at 0. *)
Definition foundSignaturesTotal_init : gmap string Z :=
  (fun _ => 0) <$> signatures.

Definition found_get (found : gmap string Z) (name : string) : Z :=
  default 0 (found !! name).

(** [foundSignaturesTotal[sigType] += n] *)
Definition found_add (name : string) (n : Z) (found : gmap string Z) : gmap string Z :=
  <[name := found_get found name + n]> found.

(** An open file: its content and the offset of the next read. *)
Definition file_ReadAt (content : list byte) (len_p : nat) (offset : Z) : list byte :=
  take len_p (drop (Z.to_nat offset) content).

(** [file.Seek(offset, whence)] for [whence] 0 (from the start) and 2 (from
    the end): the new offset, or an error when it would be negative. *)
Definition file_Seek (content : list byte) (offset : Z) (whence : Z) : option Z :=
  let base := if whence =? 2 then Z.of_nat (length content) else 0 in
  let target := base + offset in
  if target <? 0 then None else Some target.

(** The block-by-block scan of one pattern from the current offset to the
    end of the file: the matches counted and the offset reached. *)
Fixpoint scan_loop (fuel : nat) (content : list byte) (blockSize : nat) (re : regex)
    (offset : Z) (count : Z) : outcome (Z * Z) :=
  match fuel with
  | O => Aborts Loop_Unfinished
  | S fuel' =>
      let block := file_ReadAt content blockSize offset in
      let bytesRead := length block in
      if (bytesRead =? 0)%nat then Returns (count, offset)
      else
        let hexData := hex_EncodeToString block in
        scan_loop fuel' content blockSize re (offset + Z.of_nat bytesRead)
                  (count + FindBytesPattern hexData re)
  end.

(** The offset a rule with a non-zero [sector] is probed at. *)
Definition probeSeek (content : list byte) (blockSize : Z) (skip : Z) : outcome (option Z) :=
  if skip <? 0 then
    (* file.Seek(int64(blockSize*int(math.Abs(float64(skip))-2)), 2) *)
    (k ← int_of_float64 (PrimFloat.abs (float64_of_Z skip) - 2)%float;
     Returns (file_Seek content (wrap_int (blockSize * k)) 2))
  else
    (* skip = skip - 1; file.Seek(int64(blockSize-1)*skip, 0) *)
    let skip' := wrap_int (skip - 1) in
    Returns (file_Seek content (wrap_int ((blockSize - 1) * skip')) 0).

(** The loop [for sigType := range signatures] of the targeted mode.
    [order] is the order in which [range] hands out the keys; [offset] is
    the position of the file handle the rules share. *)
Fixpoint detect_loop (content : list byte) (blockSize : Z) (order : list string)
    (offset : Z) (found : gmap string Z) : outcome (gmap string Z) :=
  match order with
  | [] => Returns found
  | sigType :: rest =>
      match signatures !! sigType with
      | None => detect_loop content blockSize rest offset found
      | Some entry =>
          let skip := sector entry in
          if skip =? 0 then
            r ← scan_loop (S (length content)) content (Z.to_nat blockSize)
                  (sig_regex entry) offset 0;
            detect_loop content blockSize rest r.2 (found_add sigType r.1 found)
          else
            target ← probeSeek content blockSize skip;
            match target with
            | None => Aborts Fatal_Seek
            | Some offset' =>
                let block := file_ReadAt content (Z.to_nat blockSize) offset' in
                if (length block =? 0)%nat then Returns found   (* break *)
                else
                  let hexData := hex_EncodeToString block in
                  detect_loop content blockSize rest 0
                    (found_add sigType (FindBytesPattern hexData (sig_regex entry)) found)
            end
      end
  end.

(** The loop of the mode that scans every block against every rule. *)
Fixpoint hailMary_loop (fuel : nat) (content : list byte) (blockSize : nat)
    (order : list string) (offset : Z) (found : gmap string Z) : outcome (gmap string Z) :=
  match fuel with
  | O => Aborts Loop_Unfinished
  | S fuel' =>
      let block := file_ReadAt content blockSize offset in
      if (length block =? 0)%nat then Returns found
      else
        let hexData := hex_EncodeToString block in
        let found' :=
          foldl (fun found sigType =>
                   match signatures !! sigType with
                   | Some entry =>
                       found_add sigType (FindBytesPattern hexData (sig_regex entry)) found
                   | None => found
                   end) found order in
        hailMary_loop fuel' content blockSize order
                      (offset + Z.of_nat (length block)) found'
  end.

(** [func EncToolDetection(fileName string, blockSize int, hailMaryMode bool)
    map[string]int], on the content of the file named. *)
Definition EncToolDetection (content : list byte) (blockSize : Z) (hailMaryMode : bool)
    (order : list string) : outcome (gmap string Z) :=
  if blockSize <? 0 then Aborts Panic_MakeSlice
  else if hailMaryMode then
    hailMary_loop (S (length content)) content (Z.to_nat blockSize) order 0
                  foundSignaturesTotal_init
  else
    detect_loop content blockSize order 0 foundSignaturesTotal_init.

(** *** The file-signature test

    [getSignatures] compiles a table of 549 patterns, most of them with
    alternatives.  [SignatureAnalysis] uses of a compiled pattern only the
    matches that [FindAll] reports, so the test is written over the table
    and the matcher it is given. *)
Section SignatureAnalysis.

Variable Regex : Type.                                  (* *rure.Regex *)
Variable rure_FindAll : Regex -> list ascii -> list Z.  (* regex.FindAll(data) *)
Variable fileSignatures : gmap string Regex.            (* signatures, _ := getSignatures() *)

(** [FindBytesPattern] on a pattern of the table. *)
Definition FindBytesPattern_rure (data : list ascii) (re : Regex) : Z :=
  Z.of_nat (length (rure_FindAll re data)) / 2.

(** [func sum(m map[string]int) int] *)
Definition sum (m : gmap string Z) : Z :=
  map_fold (fun _ v total => total + v) 0 m.

(** The [for] loop over the blocks of the file.  [order turn] is the order
    in which [range signatures] hands out the keys in the turn numbered
    [turn]. *)
Fixpoint SignatureAnalysis_loop (fuel : nat) (blockSize : nat) (rest : list byte)
    (order : nat -> list string) (turn : nat) (found : gmap string Z)
    : outcome (gmap string Z) :=
  match fuel with
  | O => Aborts Loop_Unfinished
  | S fuel' =>
      let '(block, rest') := file_Read blockSize rest in
      let bytesRead := length block in
      if (bytesRead =? 0)%nat then Returns found
      else
        let hexData := hex_EncodeToString block in
        let found' :=
          foldl (fun found sigType =>
                   match fileSignatures !! sigType with
                   | Some re => found_add sigType (FindBytesPattern_rure hexData re) found
                   | None => found
                   end) found (order turn) in
        SignatureAnalysis_loop fuel' blockSize rest' order (S turn) found'
  end.

(** [func SignatureAnalysis(fileName string, blockSize int) float64], on the
    content of the file named: the value returned.  The text file that the
    function writes next to its result is left out. *)
Definition SignatureAnalysis (content : list byte) (blockSize : Z)
    (order : nat -> list string) : outcome float64 :=
  if blockSize <? 0 then Aborts Panic_MakeSlice
  else
    (foundSignaturesTotal ←
       SignatureAnalysis_loop (S (length content)) (Z.to_nat blockSize) content order 0
                              ((fun _ => 0) <$> fileSignatures);
     let fileSize := (float64_of_Z (Z.of_nat (length content)) / 1048576)%float in
     Returns (float64_of_Z (sum foundSignaturesTotal) / fileSize)%float).

End SignatureAnalysis.

Arguments FindBytesPattern_rure {Regex} rure_FindAll data re.
Arguments SignatureAnalysis_loop {Regex} rure_FindAll fileSignatures fuel blockSize rest
  order turn found.
Arguments SignatureAnalysis {Regex} rure_FindAll fileSignatures content blockSize order.

(** ** The file-system probe

    [strings.Contains(s, substr)] *)
Fixpoint strings_Contains (s substr : string) : bool :=
  String.prefix substr s ||
  match s with
  | EmptyString => false
  | String _ rest => strings_Contains rest substr
  end.

(** [strings.Split(s, sep)] for a separator of one character, which is how
    [PartedCheck] calls it: the pieces between the separators, one more than
    there are separators. *)
Fixpoint strings_Split (s : string) (sep : ascii) : list string :=
  match s with
  | EmptyString => [EmptyString]
  | String c rest =>
      if bool_decide (c = sep) then EmptyString :: strings_Split rest sep
      else
        match strings_Split rest sep with
        | piece :: pieces => String c piece :: pieces
        | [] => [String c EmptyString]
        end
  end.

(** [l[i]] for an [int] index; [None] stands for the run-time panic
    "index out of range". *)
Definition slice_index {A : Type} (l : list A) (i : Z) : option A :=
  if i <? 0 then None else l !! Z.to_nat i.

(** [func PartedCheck(fileName string) string], on the combined output of
    the command [./parted -m fileName print]; [None] as the argument is the
    nil slice, [None] as the result the panic of an index expression. *)
Definition PartedCheck (result : option string) : option string :=
  let resultText := default EmptyString result in
  if strings_Contains resultText "Error" then Some EmptyString
  else
    match result with
    | Some _ =>
        let lines := strings_Split resultText "010"%char in
        line ← slice_index lines (Z.of_nat (length lines) - 2);
        let fsType := strings_Split line ":"%char in
        slice_index fsType (Z.of_nat (length fsType) - 3)
    | None => Some EmptyString
    end.

(** ** The decision tree of the start-button handler in [main] *)

(** [const ( NoEncryption int = iota; FullDiskEncryption; FileBasedEncryption )] *)
Inductive classification : Set :=
  | NoEncryption
  | FullDiskEncryption
  | FileBasedEncryption.

Definition classification_code (c : classification) : Z :=
  match c with
  | NoEncryption => 0
  | FullDiskEncryption => 1
  | FileBasedEncryption => 2
  end.

Global Instance classification_eq_dec : EqDecision classification.
Proof. solve_decision. Defined.

(** The protocol lines the handler builds in [part1Result] and
    [part2Result]; the Ukrainian texts are kept as constructor names. *)
Inductive message : Set :=
  | MsgEmpty
      (* the zero value of a Go string *)
  | MsgStage1ToolSignatureFound
      (* Stage 1: signature of a known encryption tool detected *)
  | MsgStage1NoEncryptionGoToStage2
      (* Stage 1: no encryption detected, moving to Stage 2 *)
  | MsgStage1FileBased
      (* Stage 1: the file system very likely holds per-file encryption or
         compressed data *)
  | MsgStage1Unencrypted
      (* Stage 1: no encryption detected, the file system very likely holds
         unencrypted files *)
  | MsgStage2NoEncryption (finalResult : Z)
      (* Stage 2: number of positive results %d <= 2, no encryption *)
  | MsgStage2Encryption (finalResult : Z)
      (* Stage 2: number of positive results %d is in [3,5], encryption *)
  | MsgStage2CountError.
      (* Stage 2: a counting error occurred *)

(** The reference values declared at the top of the handler. *)
Definition autocorrThreshold : float64 := 0.125%float.
Definition ksTestThreshold : float64 := 0x1.999999999999ap-4%float.   (* 0.1 *)
Definition compressionThreshold : float64 := 0x1.199999999999ap+0%float. (* 1.1 *)
Definition signatureThreshold : float64 := 150%float.
Definition entropyThreshold : float64 := 0x1.fcccccccccccdp+2%float.  (* 7.95 *)

(** The map [noEncToolResults] the detection result is compared with. *)
Definition noEncToolResults : gmap string Z :=
  <["FreeBSD GELI" := 0]> (<["BitLocker" := 0]> (<["LUKSv1" := 0]>
  (<["LUKSv2" := 0]> (<["FileVault v2" := 0]> (<["PGP WDE" := 0]> ∅))))).

(** [maps.Equal]: same keys with equal values. *)
Definition maps_Equal (m1 m2 : gmap string Z) : bool := bool_decide (m1 = m2).

(** What the handler obtains from the tests it calls.  The calls are reads
    of the file under analysis, so their results are fixed per input; the
    handler only decides which of them it asks for. *)
Record testOutcomes : Type := {
  encToolResult : gmap string Z;   (* EncToolDetection(fileName, blockSize, false) *)
  autocorrResult : float64;        (* AutoCorrelation(optimizedfname, blockSize) *)
  partedResult : string;           (* PartedCheck(fileName) *)
  ksStatistic : float64;           (* KsTest(counter, total), first component *)
  compressionStat : float64;       (* CompressionTest(optimizedfname) *)
  signatureStat : float64;         (* SignatureAnalysis(optimizedfname, blockSize) *)
  entropyStat : float64            (* EntropyEstimation(counter, total) *)
}.

(** The five flags of Stage 2, in the order they are passed to
    [CountTrueBools]. *)
Definition autocorrTrue (t : testOutcomes) : bool :=
  fle (autocorrResult t) autocorrThreshold.
Definition ksTrue (t : testOutcomes) : bool :=
  fle (ksStatistic t) ksTestThreshold.
Definition compressionTrue (t : testOutcomes) : bool :=
  fle (compressionStat t) compressionThreshold.
Definition signatureTrue (t : testOutcomes) : bool :=
  fle (signatureStat t) signatureThreshold.
Definition entropyTrue (t : testOutcomes) : bool :=
  fge (entropyStat t) entropyThreshold.

Definition stage2Flags (t : testOutcomes) : list bool :=
  [autocorrTrue t; ksTrue t; compressionTrue t; signatureTrue t; entropyTrue t].

(** The [if finalResult <= 2 ... else if finalResult > 3 && finalResult <= 5
    ... else ...] chain: the label and the protocol line it produces. *)
Definition stage2Vote (finalResult : Z) : classification * message :=
  if finalResult <=? 2 then
    (NoEncryption, MsgStage2NoEncryption finalResult)
  else if (3 <? finalResult) && (finalResult <=? 5) then
    (FullDiskEncryption, MsgStage2Encryption finalResult)
  else
    (NoEncryption, MsgStage2CountError).

(** The state of the handler's variables when the decision tree is left.
    [encryptionResult] is declared inside the [else] branch only, hence the
    option. *)
Record verdict : Type := {
  encToolFound : bool;
  encryptionResult : option classification;
  part1Result : message;
  part2Result : message
}.

Definition noFSResults : list string := ["" ; "unknown"].

(** [slices.Contains] *)
Definition slices_Contains (l : list string) (s : string) : bool :=
  bool_decide (s ∈ l).

Definition decide_encryption (t : testOutcomes) : verdict :=
  if negb (maps_Equal (encToolResult t) noEncToolResults) then
    {| encToolFound := true;
       encryptionResult := None;
       part1Result := MsgStage1ToolSignatureFound;
       part2Result := MsgEmpty |}
  else
    let contains := slices_Contains noFSResults (partedResult t) in
    if contains then
      let finalResult := CountTrueBools (stage2Flags t) in
      let '(label, line) := stage2Vote finalResult in
      {| encToolFound := false;
         encryptionResult := Some label;
         part1Result := MsgStage1NoEncryptionGoToStage2;
         part2Result := line |}
    else if fle (autocorrResult t) autocorrThreshold then
      {| encToolFound := false;
         encryptionResult := Some FileBasedEncryption;
         part1Result := MsgStage1FileBased;
         part2Result := MsgEmpty |}
    else
      {| encToolFound := false;
         encryptionResult := Some NoEncryption;
         part1Result := MsgStage1Unencrypted;
         part2Result := MsgEmpty |}.

(** ** The start-button handler with the tests it calls

    [decide_encryption] is the decision tree of the handler on given test
    results.  [handler] is the same part of [main] with the calls that
    produce these results, in the order of the source; a test that is not
    called leaves its variable at the zero value of its declaration.  The
    tools are detected in the file [fileName]; the other tests read the file
    [optimizedfname], which the script [prepare.py] derives from it (the
    script is not part of the repository).  The contents of the two files
    and the output of [parted] are parameters. *)
Inductive handler_end : Type :=
  | Classified (v : verdict)   (* the handler gets to its report *)
  | Stopped (why : abort)      (* a test did not return *)
  | Panic_IndexOutOfRange.     (* [PartedCheck] indexed outside a slice *)

Section Handler.

Variable Log2 : float64 -> float64.                     (* math.Log2 *)
Variable stats_Correlation : list float64 -> list float64 -> float64 * bool.
Variable stats_StandardDeviation : list float64 -> float64 * bool.
Variable env : compressionEnv.
Variable Regex : Type.                                  (* *rure.Regex *)
Variable rure_FindAll : Regex -> list ascii -> list Z.  (* regex.FindAll(data) *)
Variable fileSignatures : gmap string Regex.            (* getSignatures() *)

Definition handler (fileContent optimizedContent : list byte) (optimizedfname : string)
    (partedOutput : option string) (order : list string) (sigOrder : nat -> list string)
    : handler_end :=
  let blockSize := 1048576 in
  match EncToolDetection fileContent blockSize false order with
  | Aborts why => Stopped why
  | Returns encToolResult =>
      let report autocorrResult partedResult ksStatistic compressionStat signatureStat
                 entropyStat :=
        Classified (decide_encryption
                      {| encToolResult := encToolResult;
                         autocorrResult := autocorrResult;
                         partedResult := partedResult;
                         ksStatistic := ksStatistic;
                         compressionStat := compressionStat;
                         signatureStat := signatureStat;
                         entropyStat := entropyStat |}) in
      if negb (maps_Equal encToolResult noEncToolResults) then
        report 0%float EmptyString 0%float 0%float 0%float 0%float
      else
        match AutoCorrelation stats_Correlation stats_StandardDeviation
                optimizedContent blockSize with
        | Aborts why => Stopped why
        | Returns autocorrResult =>
            match PartedCheck partedOutput with
            | None => Panic_IndexOutOfRange
            | Some partedResult =>
                if slices_Contains noFSResults partedResult then
                  match CreateFileCounter Log2 optimizedContent blockSize with
                  | Aborts why => Stopped why
                  | Returns (counter, total) =>
                      let '(ksStatistic, _, _, _, _) :=
                        KsTest (F := float64) counter total in
                      let compressionStat := CompressionTest env optimizedfname in
                      match SignatureAnalysis rure_FindAll fileSignatures
                              optimizedContent blockSize sigOrder with
                      | Aborts why => Stopped why
                      | Returns signatureStat =>
                          let entropyStat := EntropyEstimation Log2 counter total in
                          report autocorrResult partedResult ksStatistic compressionStat
                                 signatureStat entropyStat
                      end
                  end
                else
                  report autocorrResult partedResult 0%float 0%float 0%float 0%float
            end
        end
  end.

End Handler.

Arguments handler Log2 stats_Correlation stats_StandardDeviation env {Regex} rure_FindAll
  fileSignatures fileContent optimizedContent optimizedfname partedOutput order sigOrder.

(** * Vocabulary of the properties, and sample inputs *)

(** A recognised file system with a low autocorrelation value, and an
    unrecognised one with all five flags true. *)
Definition outcomes_ext4 : testOutcomes :=
  {| encToolResult := noEncToolResults;
     autocorrResult := 0%float;
     partedResult := "ext4";
     ksStatistic := 0%float;
     compressionStat := 1%float;
     signatureStat := 0%float;
     entropyStat := 8%float |}.

Definition outcomes_no_fs : testOutcomes :=
  {| encToolResult := noEncToolResults;
     autocorrResult := 0%float;
     partedResult := "";
     ksStatistic := 0%float;
     compressionStat := 1%float;
     signatureStat := 0%float;
     entropyStat := 8%float |}.

(** A machine on which none of the compressors is installed. *)
Definition env_no_tools : compressionEnv :=
  {| LookPath := fun _ => false;
     fileSize := fun _ => Some 4096;
     performCompression := fun _ _ => 4096%float |}.

Definition outcomes_no_tools : testOutcomes :=
  {| encToolResult := noEncToolResults;
     autocorrResult := 0%float;
     partedResult := "";
     ksStatistic := 0%float;
     compressionStat := CompressionTest env_no_tools "image_opt.dd";
     signatureStat := 0%float;
     entropyStat := 0%float |}.

(** How often [b] occurs in [data]. *)
Definition occurrences (b : byte) (data : list byte) : Z :=
  Z.of_nat (length (filter (fun x => x = b) data)).

Definition remaining (r : bufio_Reader) : list byte := buffered r ++ underlying r.

(** A stand-in for [math.Log2] that has its documented special values
    (Log2(0) = -Inf, Log2(x < 0) = NaN, Log2(+Inf) = +Inf, Log2(NaN) = NaN) and
    its exact values on the powers of two, and elsewhere rounds down to
    the exponent.  It serves to run the functions that take [Log2]. *)
Definition Log2_floor (x : float64) : float64 :=
  match Prim2SF x with
  | S754_zero _ => neg_infinity
  | S754_infinity false => infinity
  | S754_finite false m e => float64_of_Z (Z.log2 (Z.pos m) + e)
  | _ => nan
  end.

(** A model of the functions of [github.com/montanaflynn/stats] that
    [AutoCorrelation] calls, after the library: the population standard
    deviation and Pearson's correlation coefficient, each with an error for
    empty input. *)
Definition stats_Mean (input : list float64) : float64 * bool :=
  match input with
  | [] => (nan, true)
  | _ => (meanFloats input, false)
  end.

Definition stats_PopulationVariance (input : list float64) : float64 * bool :=
  match input with
  | [] => (nan, true)
  | _ =>
      let m := (stats_Mean input).1 in
      let variance := foldl (fun v n => v + (n - m) * (n - m))%float 0%float input in
      ((variance / float64_of_Z (Z.of_nat (length input)))%float, false)
  end.

Definition stats_StandardDeviation_model (input : list float64) : float64 * bool :=
  match input with
  | [] => (nan, true)
  | _ => (PrimFloat.sqrt (stats_PopulationVariance input).1, false)
  end.

Definition stats_CovariancePopulation (data1 data2 : list float64) : float64 * bool :=
  if bool_decide (length data1 = 0%nat \/ length data2 = 0%nat) then (nan, true)
  else if bool_decide (length data1 <> length data2) then (nan, true)
  else
    let m1 := (stats_Mean data1).1 in
    let m2 := (stats_Mean data2).1 in
    let s := foldl (fun s '(x1, x2) => s + (x1 - m1) * (x2 - m2))%float 0%float
                   (zip data1 data2) in
    ((s / float64_of_Z (Z.of_nat (length data1)))%float, false).

Definition stats_Correlation_model (data1 data2 : list float64) : float64 * bool :=
  if bool_decide (length data1 = 0%nat \/ length data2 = 0%nat) then (nan, true)
  else if bool_decide (length data1 <> length data2) then (nan, true)
  else
    let sdev1 := (stats_StandardDeviation_model data1).1 in
    let sdev2 := (stats_StandardDeviation_model data2).1 in
    if PrimFloat.eqb sdev1 0%float || PrimFloat.eqb sdev2 0%float then (0%float, false)
    else
      let covp := (stats_CovariancePopulation data1 data2).1 in
      ((covp / (sdev1 * sdev2))%float, false).

(** The sum of [f] over the byte values 0, 1, ..., [n-1]. *)
Fixpoint sum_below (f : byte -> Z) (n : nat) : Z :=
  match n with
  | O => 0
  | S k => sum_below f k + f (byte_of_Z (Z.of_nat k))
  end.

(** The cumulative distribution functions the test compares, as numbers:
    the share of the bytes with value at most [i], and [(i+1)/256]. *)
Definition empirical_cdf (totalCounter : gmap byte Z) (readBytesCount : Z) (i : Z) : R :=
  (IZR (sum_below (counter_get totalCounter) (S (Z.to_nat i))) / IZR readBytesCount)%R.

Definition uniform_cdf (i : Z) : R := (IZR (i + 1) / 256)%R.

Definition cdf_gap (totalCounter : gmap byte Z) (readBytesCount : Z) (i : Z) : R :=
  Rabs (empirical_cdf totalCounter readBytesCount i - uniform_cdf i).

Definition LUKSv1_magic : list byte :=
  [Byte.x4c; Byte.x55; Byte.x4b; Byte.x53; Byte.xba; Byte.xbe; Byte.x00; Byte.x01].

(** How often the rule of LUKSv1 is visited. *)
Definition visits_LUKSv1 (order : list string) : Z :=
  Z.of_nat (length (filter (fun name => name = "LUKSv1") order)).

Definition image_magic_first : list byte := LUKSv1_magic ++ replicate 24 Byte.x00.

(** A file of two blocks with the LUKSv1 magic at the start of the second
    one, that is, one block from the start of the file. *)
Definition image_magic_second (blockSize : Z) : list byte :=
  replicate (Z.to_nat blockSize) Byte.x00
  ++ LUKSv1_magic
  ++ replicate (Z.to_nat blockSize - 8) Byte.x00.

(** Checks on the outcome of a run. *)
Global Instance abort_eq_dec : EqDecision abort.
Proof. solve_decision. Defined.

Definition returns_map (r : outcome (gmap string Z)) (m : gmap string Z) : bool :=
  match r with
  | Returns found => bool_decide (found = m)
  | Aborts _ => false
  end.

Definition aborts_with (r : outcome (gmap string Z)) (why : abort) : bool :=
  match r with
  | Returns _ => false
  | Aborts why' => bool_decide (why' = why)
  end.

(** Real numbers for the accuracy of [float64] arithmetic.  [bpow e] is
    2 to the power [e]; [u] is the relative size of one rounding step of a
    normal number, 2 to the power -52. *)
Definition bpow (e : Z) : R := powerRZ 2 e.

Definition u : R := (/ 4503599627370496)%R.

(** [v] is [x] up to one rounding. *)
Definition close (x v : R) : Prop := (x <= v * (1 + u) /\ v <= x * (1 + u))%R.

(** [v] is [x] up to [n] roundings. *)
Definition closeN (n : nat) (x v : R) : Prop :=
  (x <= v * (1 + u) ^ n /\ v <= x * (1 + u) ^ n)%R.

(** A bound for up to 1000 roundings, and for the error of a difference
    of two such values. *)
Definition eps : R := (/ 1000000000)%R.

Definition delta : R := (/ 100000000)%R.

(** The real number a float stands for (0 for infinities and NaN). *)
Definition SF2R (x : spec_float) : R :=
  match x with
  | S754_finite s m e =>
      if s then (- (IZR (Z.pos m) * bpow e))%R else (IZR (Z.pos m) * bpow e)%R
  | _ => 0%R
  end.

Definition fval (f : float64) : R := SF2R (Prim2SF f).

(** Normal numbers of moderate size: 53 significant bits. *)
Definition pnormal (m : positive) (e : Z) : Prop :=
  Z.pos (digits2_pos m) = 53 /\ -500 <= e <= 500.

(** [f] is +0 or a positive finite number. *)
Definition nonneg_finite (f : float64) : Prop :=
  Prim2SF f = S754_zero false \/ exists m e, Prim2SF f = S754_finite false m e.

(** [approx n x f]: the float [f] stands for the real number [x] after at
    most [n] roundings; it is +0 exactly when [x] is 0, and a normal
    positive number otherwise. *)
Definition approx (n : nat) (x : R) (f : float64) : Prop :=
  (x = 0%R /\ Prim2SF f = S754_zero false) \/
  ((bpow (-100) <= x <= bpow 100)%R /\
   exists m e, Prim2SF f = S754_finite false m e /\
               closeN n x (IZR (Z.pos m) * bpow e)).

(** The empirical distribution function before byte value [n], in exact
    arithmetic: the share of the bytes with a value below [n]. *)
Definition running_sum (totalCounter : gmap byte Z) (readBytesCount : Z) (n : nat) : R :=
  (IZR (sum_below (counter_get totalCounter) n) / IZR readBytesCount)%R.

(** The successive blocks that a loop of [file.Read] calls with a buffer
    of [blockSize] bytes hands out: all of them full but possibly the last.
    [fuel] bounds the number of blocks. *)
Fixpoint chunks (fuel blockSize : nat) (l : list byte) : list (list byte) :=
  match fuel with
  | O => []
  | S fuel' =>
      match l with
      | [] => []
      | _ => take blockSize l :: chunks fuel' blockSize (drop blockSize l)
      end
  end.

Definition blocksOf (blockSize : nat) (content : list byte) : list (list byte) :=
  chunks (length content) blockSize content.

Definition sumZ (l : list Z) : Z := foldr Z.add 0 l.

(** The number of matches of a pattern within one block. *)
Definition matchesIn (re : regex) (block : list byte) : Z :=
  FindBytesPattern (hex_EncodeToString block) re.

(** What the targeted mode counts for one rule of the table: all blocks
    for the sector directive 0, the last [blockSize] bytes of the file for a
    negative directive, the first block for a positive one. *)
Definition ruleCount (content : list byte) (blockSize : Z)
    (entry : AdvancedSignatureMap) : Z :=
  let bs := Z.to_nat blockSize in
  if sector entry =? 0 then
    sumZ (matchesIn (sig_regex entry) <$> blocksOf bs content)
  else if sector entry <? 0 then
    matchesIn (sig_regex entry) (drop (length content - bs) content)
  else
    matchesIn (sig_regex entry) (take bs content).

(** What the exhaustive mode counts for one rule: all blocks. *)
Definition ruleCountAll (content : list byte) (blockSize : Z)
    (entry : AdvancedSignatureMap) : Z :=
  sumZ (matchesIn (sig_regex entry) <$> blocksOf (Z.to_nat blockSize) content).

(** What the file-signature test counts for one pattern: its matches
    within all the blocks of the file. *)
Definition signatureCount {Regex : Type} (rure_FindAll : Regex -> list ascii -> list Z)
    (content : list byte) (blockSize : Z) (re : Regex) : Z :=
  sumZ ((fun block => FindBytesPattern_rure rure_FindAll (hex_EncodeToString block) re)
          <$> blocksOf (Z.to_nat blockSize) content).

(** [strings.Join(parts, sep)] for a separator of one character. *)
Definition strings_Join (parts : list string) (sep : ascii) : string :=
  String.concat (String sep EmptyString) parts.

(** The separator does not occur in the string. *)
Fixpoint free_of (sep : ascii) (s : string) : Prop :=
  match s with
  | EmptyString => True
  | String c rest => c <> sep /\ free_of sep rest
  end.

(** A partial sum of [k + 1] ratios: infinite, or close to a real number
    of moderate size. *)
Definition partial_sum (k : nat) (s : float64) : Prop :=
  Prim2SF s = S754_infinity false \/
  exists x, approx (3 + k) x s /\ (x <= INR (S k) * bpow 64)%R.

(** A histogram in which two gaps nearly tie: nothing below byte value 117,
    so that the gap at 116 is 117/256; then counts up to byte value 233
    that add up to a share just above 117/256, so that the gap at 233 is
    117/256 less 1/(256 * total); the rest at byte value 234. *)
Definition total_near_tie : Z := 1861137467171.

Definition histogram_near_tie : gmap byte Z :=
  foldr (fun i counter => <[byte_of_Z i := 299447657]> counter)
        (<[byte_of_Z 117 := 815862054831]> (<[byte_of_Z 234 := 1010539484128]> ∅))
        (seqZ 118 116).

(** Positions of occurrences that do not overlap: in ascending order, each
    at least [n] characters after the one before it. *)
Fixpoint spaced (n : nat) (positions : list nat) : Prop :=
  match positions with
  | p :: (q :: _) as rest => (p + n <= q)%nat /\ spaced n rest
  | _ => True
  end.

(** * Properties *)

(** ** float64 *)

(** NaN is absorbing for the arithmetic operations, whatever the other
    operand is. *)
Lemma nan_mul_l (y : float64) : (nan * y)%float = nan.
Proof. apply Prim2SF_inj. rewrite mul_spec. reflexivity. Qed.

Lemma nan_add_l (y : float64) : (nan + y)%float = nan.
Proof. apply Prim2SF_inj. rewrite add_spec. reflexivity. Qed.

Lemma nan_add_r (x : float64) : (x + nan)%float = nan.
Proof.
  apply Prim2SF_inj. rewrite add_spec.
  change (Prim2SF nan) with S754_nan.
  destruct (Prim2SF x); reflexivity.
Qed.

(** *** Rounding to [float64]

    The lemmas below follow the rounding of [SpecFloat] through its steps:
    a mantissa of more than 53 bits is shifted right and rounded to one of
    its two neighbours among the 53-bit numbers, so that one operation on
    normal numbers of moderate size loses at most the relative amount [u]. *)

Lemma bpow_pos (e : Z) : (0 < bpow e)%R.
Proof. apply powerRZ_lt. lra. Qed.

Lemma bpow_add (a b : Z) : bpow (a + b) = (bpow a * bpow b)%R.
Proof. apply powerRZ_add. lra. Qed.

Lemma bpow_IZR (k : Z) : 0 <= k -> bpow k = IZR (2 ^ k).
Proof.
  intros Hk. destruct k as [|p|p]; [reflexivity| |lia].
  symmetry. apply Zpower_pos_powerRZ.
Qed.

Lemma bpow_le (a b : Z) : a <= b -> (bpow a <= bpow b)%R.
Proof.
  intros Hab. replace b with (a + (b - a)) by lia. rewrite bpow_add.
  rewrite (bpow_IZR (b - a)) by lia.
  assert (H1 : (1 <= IZR (2 ^ (b - a)))%R).
  { apply IZR_le. pose proof (Z.pow_pos_nonneg 2 (b - a)). lia. }
  pose proof (bpow_pos a). nra.
Qed.

Lemma bpow_lt (a b : Z) : a < b -> (bpow a < bpow b)%R.
Proof.
  intros Hab. replace b with (a + (b - a)) by lia. rewrite bpow_add.
  rewrite (bpow_IZR (b - a)) by lia.
  assert (H1 : (2 <= IZR (2 ^ (b - a)))%R).
  { apply IZR_le. replace (b - a) with (Z.succ (b - a - 1)) by lia.
    rewrite Z.pow_succ_r by lia. pose proof (Z.pow_pos_nonneg 2 (b - a - 1)). lia. }
  pose proof (bpow_pos a). nra.
Qed.

Lemma bpow_shift (m k e : Z) :
  0 <= k -> (IZR (m * 2 ^ k) * bpow e = IZR m * bpow (e + k))%R.
Proof.
  intros Hk. rewrite mult_IZR, bpow_add, (bpow_IZR k) by lia. ring.
Qed.

(** Digits and shifts of [SpecFloat] *)
Lemma digits2_pos_bounds (p : positive) :
  2 ^ (Z.pos (digits2_pos p) - 1) <= Z.pos p < 2 ^ Z.pos (digits2_pos p).
Proof.
  induction p as [p IH|p IH|]; cbn [digits2_pos].
  - rewrite Pos2Z.inj_succ.
    replace (Z.succ (Z.pos (digits2_pos p)) - 1) with (Z.succ (Z.pos (digits2_pos p) - 1)) by lia.
    rewrite !Z.pow_succ_r by lia. lia.
  - rewrite Pos2Z.inj_succ.
    replace (Z.succ (Z.pos (digits2_pos p)) - 1) with (Z.succ (Z.pos (digits2_pos p) - 1)) by lia.
    rewrite !Z.pow_succ_r by lia. lia.
  - simpl. lia.
Qed.

Lemma digits2_pos_log2 (p : positive) :
  Z.pos (digits2_pos p) = Z.log2 (Z.pos p) + 1.
Proof.
  pose proof (digits2_pos_bounds p) as H.
  rewrite (Z.log2_unique (Z.pos p) (Z.pos (digits2_pos p) - 1)); [lia|lia|].
  replace (Z.succ (Z.pos (digits2_pos p) - 1)) with (Z.pos (digits2_pos p)) by lia.
  exact H.
Qed.

Lemma digits2_pos_unique (p : positive) (d : Z) :
  2 ^ (d - 1) <= Z.pos p < 2 ^ d -> Z.pos (digits2_pos p) = d.
Proof.
  intros H. assert (0 < d).
  { destruct (Z.lt_trichotomy d 0) as [Hd|[->|Hd]]; [|simpl in H; lia|lia].
    rewrite (Z.pow_neg_r 2 d) in H by lia. lia. }
  rewrite digits2_pos_log2, (Z.log2_unique (Z.pos p) (d - 1)); [lia|lia|].
  replace (Z.succ (d - 1)) with d by lia. exact H.
Qed.

Lemma iter_pos_nat {A} (f : A -> A) (k : positive) (x : A) :
  SpecFloat.iter_pos f k x = Nat.iter (Pos.to_nat k) f x.
Proof.
  revert x. induction k as [k IH|k IH|]; intros x; cbn [SpecFloat.iter_pos].
  - rewrite !IH, Pos2Nat.inj_xI.
    replace (S (2 * Pos.to_nat k))%nat with (Pos.to_nat k + S (Pos.to_nat k))%nat by lia.
    rewrite Nat.iter_add, Nat.iter_succ_r. reflexivity.
  - rewrite !IH, Pos2Nat.inj_xO.
    replace (2 * Pos.to_nat k)%nat with (Pos.to_nat k + Pos.to_nat k)%nat by lia.
    rewrite Nat.iter_add. reflexivity.
  - reflexivity.
Qed.

Lemma shr_1_m (mrs : shr_record) :
  0 <= shr_m mrs -> shr_m (shr_1 mrs) = shr_m mrs / 2.
Proof.
  destruct mrs as [m r s]. cbn [shr_m]. intros Hm.
  destruct m as [|[q|q|]|q]; cbn [shr_1 shr_m]; try lia.
  - reflexivity.
  - apply Z.div_unique with 1; lia.
  - apply Z.div_unique with 0; lia.
  - reflexivity.
Qed.

Lemma shr_iter_m (k : nat) (mrs : shr_record) :
  0 <= shr_m mrs -> shr_m (Nat.iter k shr_1 mrs) = shr_m mrs / 2 ^ Z.of_nat k.
Proof.
  intros Hm. induction k as [|k IH].
  - simpl. rewrite Z.div_1_r. reflexivity.
  - rewrite Nat.iter_succ, shr_1_m.
    + rewrite IH, Nat2Z.inj_succ, Z.pow_succ_r by lia.
      rewrite Z.div_div by lia. f_equal. lia.
    + rewrite IH. apply Z.div_pos; lia.
Qed.

Lemma iter_xO_mul (p k : positive) :
  Z.pos (Pos.iter xO p k) = Z.pos p * 2 ^ Z.pos k.
Proof.
  induction k as [|k IH] using Pos.peano_ind.
  - simpl. lia.
  - rewrite Pos.iter_succ, Pos2Z.inj_xO, IH, Pos2Z.inj_succ, Z.pow_succ_r by lia. lia.
Qed.

Lemma digits2_pos_iter_xO (p k : positive) :
  digits2_pos (Pos.iter xO p k) = (digits2_pos p + k)%positive.
Proof.
  induction k as [|k IH] using Pos.peano_ind.
  - simpl. lia.
  - rewrite Pos.iter_succ. cbn [digits2_pos]. rewrite IH. lia.
Qed.

Lemma fexp_normal (e : Z) : -1021 <= e -> fexp prec emax e = e - 53.
Proof. intros He. unfold fexp, SpecFloat.emin, prec, emax. lia. Qed.

Lemma shr_record_of_loc_m (m : Z) (l : location) : shr_m (shr_record_of_loc m l) = m.
Proof. destruct l as [|[| |]]; reflexivity. Qed.

Lemma loc_of_shr_record_of_loc (m : Z) (l : location) :
  loc_of_shr_record (shr_record_of_loc m l) = l.
Proof. destruct l as [|[| |]]; reflexivity. Qed.

Lemma shr_fexp_canonical (m : positive) (e : Z) :
  Z.pos (digits2_pos m) = 53 -> -1074 <= e ->
  shr_fexp prec emax (Z.pos m) e loc_Exact
  = ({| shr_m := Z.pos m; shr_r := false; shr_s := false |}, e).
Proof.
  intros Hd He. unfold shr_fexp. cbn [Zdigits2 shr_record_of_loc].
  rewrite Hd, fexp_normal by lia.
  replace (53 + e - 53 - e) with 0 by lia. reflexivity.
Qed.

Lemma bounded_canonical (m : positive) (e : Z) :
  Z.pos (digits2_pos m) = 53 -> -1074 <= e <= 971 ->
  SpecFloat.bounded prec emax m e = true.
Proof.
  intros Hd He. unfold SpecFloat.bounded, canonical_mantissa.
  rewrite Hd, fexp_normal by lia.
  apply andb_true_intro. split.
  - apply Z.eqb_eq. lia.
  - apply Z.leb_le. unfold emax, prec. lia.
Qed.

Lemma round_nearest_even_range (m : Z) (l : location) :
  round_nearest_even m l = m \/ round_nearest_even m l = m + 1.
Proof.
  destruct l as [|[| |]]; cbn [round_nearest_even]; auto.
  destruct (Z.even m); auto.
Qed.

(** The first shift of [binary_round_aux] leaves 53 digits. *)
Lemma shr_fexp_wide (p : positive) (e : Z) (l : location) :
  53 <= Z.pos (digits2_pos p) -> -1074 <= e ->
  exists mrs, shr_fexp prec emax (Z.pos p) e l = (mrs, e + (Z.pos (digits2_pos p) - 53)) /\
              shr_m mrs = Z.pos p / 2 ^ (Z.pos (digits2_pos p) - 53) /\
              (Z.pos (digits2_pos p) = 53 -> loc_of_shr_record mrs = l).
Proof.
  intros Hd He. unfold shr_fexp. cbn [Zdigits2].
  rewrite fexp_normal by lia.
  destruct (Z.pos (digits2_pos p) + e - 53 - e) as [|k|k] eqn:Hk; try lia.
  - exists (shr_record_of_loc (Z.pos p) l). cbn [shr].
    replace (Z.pos (digits2_pos p) - 53) with 0 by lia.
    rewrite Z.add_0_r, shr_record_of_loc_m, Z.div_1_r.
    split; [reflexivity|]. split; [reflexivity|]. intros _. apply loc_of_shr_record_of_loc.
  - exists (SpecFloat.iter_pos shr_1 k (shr_record_of_loc (Z.pos p) l)). cbn [shr].
    replace (Z.pos (digits2_pos p) - 53) with (Z.pos k) by lia.
    split; [reflexivity|]. split; [|lia].
    rewrite iter_pos_nat, shr_iter_m by (rewrite shr_record_of_loc_m; lia).
    rewrite shr_record_of_loc_m, positive_nat_Z. reflexivity.
Qed.

(** Rounding a mantissa of at least 53 digits: the result lies between the
    two neighbours of the value on the grid of 53-digit numbers. *)
Lemma binary_round_aux_bounds (s : bool) (p : positive) (e : Z) (l : location) :
  53 <= Z.pos (digits2_pos p) -> -1074 <= e -> Z.pos (digits2_pos p) + e <= 1023 ->
  exists m' e',
    binary_round_aux prec emax s (Z.pos p) e l = S754_finite s m' e' /\
    SpecFloat.bounded prec emax m' e' = true /\
    exists m1 E,
      2 ^ 52 <= m1 /\
      (IZR m1 * bpow E <= IZR (Z.pos p) * bpow e)%R /\
      (IZR (Z.pos p + 1) * bpow e <= IZR (m1 + 1) * bpow E)%R /\
      (IZR m1 * bpow E <= IZR (Z.pos m') * bpow e' <= IZR (m1 + 1) * bpow E)%R /\
      (Z.pos (digits2_pos p) = 53 -> l = loc_Exact -> m' = p /\ e' = e).
Proof.
  intros Hd He Hmax. pose proof (digits2_pos_bounds p) as Hp.
  set (d := Z.pos (digits2_pos p)) in *.
  set (k := d - 53).
  destruct (shr_fexp_wide p e l Hd He) as (mrs & Hshr & Hm & Hloc).
  fold d in Hshr, Hm, Hloc. fold k in Hshr, Hm.
  assert (Hk2 : 0 < 2 ^ k) by (apply Z.pow_pos_nonneg; lia).
  assert (H2d : 2 ^ d = 2 ^ 53 * 2 ^ k).
  { rewrite <- Z.pow_add_r by lia. f_equal. lia. }
  assert (H2d1 : 2 ^ (d - 1) = 2 ^ 52 * 2 ^ k).
  { rewrite <- Z.pow_add_r by lia. f_equal. lia. }
  set (m1 := Z.pos p / 2 ^ k) in *.
  assert (Hm1 : 2 ^ 52 <= m1 < 2 ^ 53).
  { unfold m1. split.
    - apply Z.div_le_lower_bound; lia.
    - apply Z.div_lt_upper_bound; lia. }
  assert (Hdiv1 : m1 * 2 ^ k <= Z.pos p).
  { unfold m1. rewrite Z.mul_comm. apply Z.mul_div_le. lia. }
  assert (Hdiv2 : Z.pos p + 1 <= (m1 + 1) * 2 ^ k).
  { unfold m1. pose proof (Z.mul_succ_div_gt (Z.pos p) (2 ^ k) Hk2). lia. }
  unfold binary_round_aux. rewrite Hshr, Hm.
  pose proof (round_nearest_even_range m1 (loc_of_shr_record mrs)) as Hm2.
  remember (round_nearest_even m1 (loc_of_shr_record mrs)) as m2 eqn:Hq.
  assert (HR1 : (IZR m1 * bpow (e + k) <= IZR (Z.pos p) * bpow e)%R).
  { rewrite <- bpow_shift by lia. apply Rmult_le_compat_r; [pose proof (bpow_pos e); lra|].
    apply IZR_le. lia. }
  assert (HR2 : (IZR (Z.pos p + 1) * bpow e <= IZR (m1 + 1) * bpow (e + k))%R).
  { rewrite <- bpow_shift by lia. apply Rmult_le_compat_r; [pose proof (bpow_pos e); lra|].
    apply IZR_le. lia. }
  destruct m2 as [|q|q]; try lia.
  destruct (Z.eq_dec (Z.pos q) (2 ^ 53)) as [Htop|Htop].
  - assert (q = 9007199254740992%positive) as -> by (apply Pos2Z.inj; rewrite Htop; reflexivity).
    exists 4503599627370496%positive, (e + k + 1).
    unfold shr_fexp. cbn [Zdigits2 shr_record_of_loc].
    change (Z.pos (digits2_pos 9007199254740992)) with 54.
    rewrite fexp_normal by lia.
    replace (54 + (e + k) - 53 - (e + k)) with 1 by lia.
    cbn [shr SpecFloat.iter_pos shr_1 shr_m].
    replace (e + k + 1 <=? emax - prec) with true
      by (symmetry; apply Z.leb_le; unfold emax, prec; lia).
    split; [reflexivity|].
    split; [apply bounded_canonical; [reflexivity|lia]|].
    exists m1, (e + k). split; [lia|]. split; [exact HR1|]. split; [exact HR2|].
    assert (Hm1' : m1 + 1 = 2 ^ 53) by lia.
    assert (Hval : (IZR (Z.pos 4503599627370496) * bpow (e + k + 1)
                    = IZR (m1 + 1) * bpow (e + k))%R).
    { rewrite Hm1'. rewrite (bpow_add (e + k) 1).
      replace (bpow 1) with 2%R by (unfold bpow; simpl; lra).
      change (2 ^ 53) with (4503599627370496 * 2). rewrite mult_IZR. ring. }
    split.
    + rewrite Hval. split; [|lra].
      apply Rmult_le_compat_r; [pose proof (bpow_pos (e + k)); lra|]. apply IZR_le. lia.
    + intros Hd53 Hl. exfalso. rewrite (Hloc Hd53), Hl in Hq.
      cbn [round_nearest_even] in Hq. lia.
  - assert (Hdq : Z.pos (digits2_pos q) = 53).
    { apply digits2_pos_unique. change (53 - 1) with 52. lia. }
    exists q, (e + k).
    rewrite shr_fexp_canonical by lia. cbn [shr_m].
    replace (e + k <=? emax - prec) with true
      by (symmetry; apply Z.leb_le; unfold emax, prec; lia).
    split; [reflexivity|].
    split; [apply bounded_canonical; [exact Hdq|lia]|].
    exists m1, (e + k). split; [lia|]. split; [exact HR1|]. split; [exact HR2|].
    split.
    + pose proof (bpow_pos (e + k)) as Hb.
      destruct Hm2 as [Hm2|Hm2]; rewrite Hm2; rewrite ?plus_IZR; split; nra.
    + intros Hd53 Hl. rewrite (Hloc Hd53), Hl in Hq.
      cbn [round_nearest_even] in Hq.
      assert (k = 0) by lia. subst m1. 
      replace k with 0 in * by lia. rewrite Z.div_1_r in Hq.
      split; [congruence|lia].
Qed.


Lemma u_pos : (0 < u)%R.
Proof. unfold u. lra. Qed.

Lemma close_refl (x : R) : (0 <= x)%R -> close x x.
Proof. intros Hx. pose proof u_pos. unfold close. split; nra. Qed.

Lemma grid_close (m1 : Z) (B x v : R) :
  2 ^ 52 <= m1 -> (0 < B)%R ->
  (IZR m1 * B <= x <= IZR (m1 + 1) * B)%R ->
  (IZR m1 * B <= v <= IZR (m1 + 1) * B)%R ->
  close x v.
Proof.
  intros Hm HB Hx Hv. rewrite plus_IZR in Hx, Hv.
  assert (Hm' : (4503599627370496 <= IZR m1)%R) by (apply IZR_le; exact Hm).
  assert (Hu : (B <= IZR m1 * B * u)%R).
  { unfold u. 
    assert (B = 4503599627370496 * B * / 4503599627370496)%R as Heq by (field).
    rewrite Heq at 1. apply Rmult_le_compat_r; [lra|]. nra. }
  assert (Hx' : (IZR m1 * B <= x <= IZR m1 * B + B)%R) by nra.
  assert (Hv' : (IZR m1 * B <= v <= IZR m1 * B + B)%R) by nra.
  clear Hx Hv. generalize dependent (IZR m1 * B)%R. intros a Hu Hx Hv.
  pose proof u_pos as Hupos.
  unfold close. split.
  - assert ((v - a) * (1 + u) >= 0)%R by nra. nra.
  - assert ((x - a) * (1 + u) >= 0)%R by nra. nra.
Qed.

Lemma digits2_pos_le (p : positive) (D : Z) :
  0 <= D -> Z.pos p < 2 ^ D -> Z.pos (digits2_pos p) <= D.
Proof.
  intros HD Hp. pose proof (digits2_pos_bounds p) as [Hlo _].
  assert (H : 2 ^ (Z.pos (digits2_pos p) - 1) < 2 ^ D) by lia.
  apply Z.pow_lt_mono_r_iff in H; lia.
Qed.

Lemma digits2_pos_ge (p : positive) (D : Z) :
  0 <= D -> 2 ^ D <= Z.pos p -> D + 1 <= Z.pos (digits2_pos p).
Proof.
  intros HD Hp. pose proof (digits2_pos_bounds p) as [_ Hhi].
  assert (H : 2 ^ D < 2 ^ Z.pos (digits2_pos p)) by lia.
  apply Z.pow_lt_mono_r_iff in H; lia.
Qed.

(** [binary_round]: an integer mantissa with an exponent, rounded to
    [float64]. *)
Lemma binary_round_close (s : bool) (p : positive) (e : Z) :
  -1000 <= e -> Z.pos (digits2_pos p) + e <= 1000 ->
  exists m' e',
    binary_round prec emax s p e = S754_finite s m' e' /\
    SpecFloat.bounded prec emax m' e' = true /\
    close (IZR (Z.pos p) * bpow e) (IZR (Z.pos m') * bpow e').
Proof.
  intros He Hmax. unfold binary_round. rewrite fexp_normal by lia.
  unfold shl_align.
  destruct (Z.pos (digits2_pos p) + e - 53 - e) as [|k|k] eqn:Hk.
  - destruct (binary_round_aux_bounds s p e loc_Exact) as
      (m' & e' & Hr & Hb & m1 & E & Hm1 & _ & _ & _ & Hexact); try lia.
    exists m', e'. split; [exact Hr|]. split; [exact Hb|].
    destruct Hexact as [-> ->]; [lia|reflexivity|].
    apply close_refl. pose proof (bpow_pos e). 
    assert (0 < IZR (Z.pos p))%R by (apply IZR_lt; lia). nra.
  - destruct (binary_round_aux_bounds s p e loc_Exact) as
      (m' & e' & Hr & Hb & m1 & E & Hm1 & Hlo & Hhi & Hv & _); try lia.
    exists m', e'. split; [exact Hr|]. split; [exact Hb|].
    apply (grid_close m1 (bpow E)); [exact Hm1|apply bpow_pos| |exact Hv].
    split; [exact Hlo|]. rewrite plus_IZR in Hhi. pose proof (bpow_pos e). nra.
  - assert (Hd : Z.pos (digits2_pos (Pos.iter xO p k)) = 53).
    { rewrite digits2_pos_iter_xO. lia. }
    destruct (binary_round_aux_bounds s (Pos.iter xO p k)
                (Z.pos (digits2_pos p) + e - 53) loc_Exact) as
      (m' & e' & Hr & Hb & m1 & E & Hm1 & _ & _ & _ & Hexact); try lia.
    exists m', e'. split; [exact Hr|]. split; [exact Hb|].
    destruct Hexact as [-> ->]; [exact Hd|reflexivity|].
    rewrite iter_xO_mul, bpow_shift by lia.
    replace (Z.pos (digits2_pos p) + e - 53 + Z.pos k) with e by lia.
    apply close_refl. pose proof (bpow_pos e).
    assert (0 < IZR (Z.pos p))%R by (apply IZR_lt; lia). nra.
Qed.



Lemma pnormal_bounds (m : positive) (e : Z) :
  pnormal m e -> 2 ^ 52 <= Z.pos m < 2 ^ 53.
Proof.
  intros [Hd _]. pose proof (digits2_pos_bounds m) as H. rewrite Hd in H. exact H.
Qed.

Lemma shl_align_value (m : positive) (e e' : Z) :
  e' <= e ->
  Z.pos (fst (shl_align m e e')) = Z.pos m * 2 ^ (e - e').
Proof.
  intros He. unfold shl_align.
  destruct (e' - e) as [|k|k] eqn:Hk; cbn [fst]; try lia.
  - replace (e - e') with 0 by lia. lia.
  - rewrite iter_xO_mul. f_equal. f_equal. lia.
Qed.

Lemma SFadd_close (m1 : positive) (e1 : Z) (m2 : positive) (e2 : Z) :
  pnormal m1 e1 -> pnormal m2 e2 ->
  exists m e,
    SFadd prec emax (S754_finite false m1 e1) (S754_finite false m2 e2)
    = S754_finite false m e /\
    close (IZR (Z.pos m1) * bpow e1 + IZR (Z.pos m2) * bpow e2) (IZR (Z.pos m) * bpow e).
Proof.
  intros H1 H2. pose proof (pnormal_bounds _ _ H1) as Hb1.
  pose proof (pnormal_bounds _ _ H2) as Hb2.
  destruct H1 as [Hd1 He1], H2 as [Hd2 He2].
  cbn [SFadd cond_Zopp].
  set (ez := Z.min e1 e2).
  pose proof (shl_align_value m1 e1 ez ltac:(lia)) as Ha.
  pose proof (shl_align_value m2 e2 ez ltac:(lia)) as Hb.
  set (a := fst (shl_align m1 e1 ez)) in *.
  set (b := fst (shl_align m2 e2 ez)) in *.
  change (Z.pos a + Z.pos b) with (Z.pos (a + b)). cbn [binary_normalize].
  assert (Hpa : 0 < 2 ^ (e1 - ez)) by (apply Z.pow_pos_nonneg; lia).
  assert (Hpb : 0 < 2 ^ (e2 - ez)) by (apply Z.pow_pos_nonneg; lia).
  set (M := Z.max e1 e2).
  assert (Hqa : Z.pos a < 2 ^ (53 + M - ez)).
  { rewrite Ha. replace (53 + M - ez) with (53 + (M - e1) + (e1 - ez)) by lia.
    rewrite (Z.pow_add_r 2 (53 + (M - e1))) by lia.
    apply Z.mul_lt_mono_pos_r; [lia|].
    assert (2 ^ 53 <= 2 ^ (53 + (M - e1))) by (apply Z.pow_le_mono_r; lia). lia. }
  assert (Hqb : Z.pos b < 2 ^ (53 + M - ez)).
  { rewrite Hb. replace (53 + M - ez) with (53 + (M - e2) + (e2 - ez)) by lia.
    rewrite (Z.pow_add_r 2 (53 + (M - e2))) by lia.
    apply Z.mul_lt_mono_pos_r; [lia|].
    assert (2 ^ 53 <= 2 ^ (53 + (M - e2))) by (apply Z.pow_le_mono_r; lia). lia. }
  assert (Hq : Z.pos (a + b) < 2 ^ (54 + M - ez)).
  { replace (54 + M - ez) with (Z.succ (53 + M - ez)) by lia.
    rewrite Z.pow_succ_r by lia. lia. }
  apply digits2_pos_le in Hq; [|lia].
  destruct (binary_round_close false (a + b) ez) as (m & e & Hr & _ & Hc); try lia.
  exists m, e. split; [exact Hr|].
  replace (IZR (Z.pos m1) * bpow e1 + IZR (Z.pos m2) * bpow e2)%R
    with (IZR (Z.pos (a + b)) * bpow ez)%R; [exact Hc|].
  rewrite Pos2Z.inj_add, plus_IZR, Ha, Hb, Rmult_plus_distr_r, !bpow_shift by lia.
  do 2 f_equal; f_equal; lia.
Qed.


Lemma SFsub_close (m1 : positive) (e1 : Z) (m2 : positive) (e2 : Z) :
  pnormal m1 e1 -> pnormal m2 e2 ->
  let r := SFsub prec emax (S754_finite false m1 e1) (S754_finite false m2 e2) in
  (r = S754_zero false /\
   (IZR (Z.pos m1) * bpow e1 = IZR (Z.pos m2) * bpow e2)%R) \/
  (exists s m e,
     r = S754_finite s m e /\
     close (Rabs (IZR (Z.pos m1) * bpow e1 - IZR (Z.pos m2) * bpow e2))
           (IZR (Z.pos m) * bpow e)).
Proof.
  intros H1 H2. pose proof (pnormal_bounds _ _ H1) as Hb1.
  pose proof (pnormal_bounds _ _ H2) as Hb2.
  destruct H1 as [Hd1 He1], H2 as [Hd2 He2].
  cbn [SFsub cond_Zopp].
  set (ez := Z.min e1 e2).
  pose proof (shl_align_value m1 e1 ez ltac:(lia)) as Ha.
  pose proof (shl_align_value m2 e2 ez ltac:(lia)) as Hb.
  set (a := fst (shl_align m1 e1 ez)) in *.
  set (b := fst (shl_align m2 e2 ez)) in *.
  assert (Hpa : 0 < 2 ^ (e1 - ez)) by (apply Z.pow_pos_nonneg; lia).
  assert (Hpb : 0 < 2 ^ (e2 - ez)) by (apply Z.pow_pos_nonneg; lia).
  set (M := Z.max e1 e2).
  assert (Hqa : Z.pos a < 2 ^ (53 + M - ez)).
  { rewrite Ha. replace (53 + M - ez) with (53 + (M - e1) + (e1 - ez)) by lia.
    rewrite (Z.pow_add_r 2 (53 + (M - e1))) by lia.
    apply Z.mul_lt_mono_pos_r; [lia|].
    assert (2 ^ 53 <= 2 ^ (53 + (M - e1))) by (apply Z.pow_le_mono_r; lia). lia. }
  assert (Hqb : Z.pos b < 2 ^ (53 + M - ez)).
  { rewrite Hb. replace (53 + M - ez) with (53 + (M - e2) + (e2 - ez)) by lia.
    rewrite (Z.pow_add_r 2 (53 + (M - e2))) by lia.
    apply Z.mul_lt_mono_pos_r; [lia|].
    assert (2 ^ 53 <= 2 ^ (53 + (M - e2))) by (apply Z.pow_le_mono_r; lia). lia. }
  assert (Hval : (IZR (Z.pos m1) * bpow e1 - IZR (Z.pos m2) * bpow e2
                  = IZR (Z.pos a - Z.pos b) * bpow ez)%R).
  { rewrite minus_IZR, Ha, Hb, Rmult_minus_distr_r, !bpow_shift by lia.
    f_equal; f_equal; f_equal; lia. }
  pose proof (bpow_pos ez) as Hez.
  destruct (Z.pos a - Z.pos b) as [|q|q] eqn:Hq; cbn [binary_normalize].
  - left. split; [reflexivity|]. rewrite Rmult_0_l in Hval. lra.
  - right.
    assert (Hdq : Z.pos q < 2 ^ (53 + M - ez)) by lia.
    apply digits2_pos_le in Hdq; [|lia].
    destruct (binary_round_close false q ez) as (m & e & Hr & _ & Hc); try lia.
    exists false, m, e. split; [exact Hr|].
    rewrite Hval, Rabs_pos_eq; [exact Hc|].
    assert (0 < IZR (Z.pos q))%R by (apply IZR_lt; lia). nra.
  - right.
    assert (Hdq : Z.pos q < 2 ^ (53 + M - ez)) by lia.
    apply digits2_pos_le in Hdq; [|lia].
    destruct (binary_round_close true q ez) as (m & e & Hr & _ & Hc); try lia.
    exists true, m, e. split; [exact Hr|].
    rewrite Hval. change (Z.neg q) with (- Z.pos q). rewrite opp_IZR.
    replace (- IZR (Z.pos q) * bpow ez)%R with (- (IZR (Z.pos q) * bpow ez))%R by ring.
    rewrite Rabs_Ropp, Rabs_pos_eq; [exact Hc|].
    assert (0 < IZR (Z.pos q))%R by (apply IZR_lt; lia). nra.
Qed.

Lemma SFdiv_close (m1 : positive) (e1 : Z) (m2 : positive) (e2 : Z) :
  pnormal m1 e1 -> pnormal m2 e2 ->
  exists m e,
    SFdiv prec emax (S754_finite false m1 e1) (S754_finite false m2 e2)
    = S754_finite false m e /\
    close ((IZR (Z.pos m1) * bpow e1) / (IZR (Z.pos m2) * bpow e2)) (IZR (Z.pos m) * bpow e).
Proof.
  intros H1 H2. pose proof (pnormal_bounds _ _ H1) as Hb1.
  pose proof (pnormal_bounds _ _ H2) as Hb2.
  destruct H1 as [Hd1 He1], H2 as [Hd2 He2].
  cbn [SFdiv xorb]. unfold SFdiv_core_binary. cbn [Zdigits2].
  rewrite Hd1, Hd2, fexp_normal by lia.
  replace (Z.min (53 + e1 - (53 + e2) - 53) (e1 - e2)) with (e1 - e2 - 53) by lia.
  replace (e1 - e2 - (e1 - e2 - 53)) with 53 by lia.
  cbv beta iota. rewrite Z.shiftl_mul_pow2 by lia.
  pose proof (Z_div_mod (Z.pos m1 * 2 ^ 53) (Z.pos m2) ltac:(lia)) as Hdiv.
  destruct (Z.div_eucl (Z.pos m1 * 2 ^ 53) (Z.pos m2)) as [q r].
  destruct Hdiv as [Heq Hr].
  assert (Hq : 2 ^ 52 <= q < 2 ^ 54).
  { change (2 ^ 53) with 9007199254740992 in *.
    change (2 ^ 52) with 4503599627370496 in *.
    change (2 ^ 54) with 18014398509481984. split; nia. }
  destruct q as [|q|q]; try lia.
  assert (Hdq : 53 <= Z.pos (digits2_pos q) <= 54).
  { split.
    - apply (digits2_pos_ge q 52); lia.
    - apply digits2_pos_le; lia. }
  destruct (binary_round_aux_bounds false q (e1 - e2 - 53)
              (new_location (Z.pos m2) r)) as
    (m & e & Hres & _ & g & E & Hg & Hlo & Hhi & Hv & _); try lia.
  exists m, e. split; [exact Hres|].
  pose proof (bpow_pos e1) as Hp1. pose proof (bpow_pos e2) as Hp2.
  pose proof (bpow_pos (e1 - e2 - 53)) as Hp3.
  assert (Hm2 : (0 < IZR (Z.pos m2))%R) by (apply IZR_lt; lia).
  assert (Hm1 : (0 < IZR (Z.pos m1))%R) by (apply IZR_lt; lia).
  set (V2 := (IZR (Z.pos m2) * bpow e2)%R).
  assert (HV2 : (0 < V2)%R) by (unfold V2; nra).
  set (x := (IZR (Z.pos m1) * bpow e1 / V2)%R).
  assert (Hx : (x * V2 = IZR (Z.pos m1) * bpow e1)%R) by (unfold x; field; lra).
  assert (Hscale : (bpow (e1 - e2 - 53) * V2 * IZR (2 ^ 53) = IZR (Z.pos m2) * bpow e1)%R).
  { unfold V2. replace e1 with ((e1 - e2 - 53) + e2 + 53) at 2 by lia.
    rewrite !bpow_add, (bpow_IZR 53) by lia. ring. }
  assert (HqR : (IZR (Z.pos q) * IZR (Z.pos m2) <= IZR (Z.pos m1) * IZR (2 ^ 53))%R).
  { rewrite <- !mult_IZR. apply IZR_le. lia. }
  assert (HqR' : (IZR (Z.pos m1) * IZR (2 ^ 53) <= IZR (Z.pos q + 1) * IZR (Z.pos m2))%R).
  { rewrite <- !mult_IZR. apply IZR_le. lia. }
  assert (H53 : (0 < IZR (2 ^ 53))%R) by (apply IZR_lt; lia).
  assert (Hxlo : (IZR (Z.pos q) * bpow (e1 - e2 - 53) <= x)%R).
  { apply (Rmult_le_reg_r (V2 * IZR (2 ^ 53))); [nra|].
    replace (x * (V2 * IZR (2 ^ 53)))%R with (IZR (Z.pos m1) * IZR (2 ^ 53) * bpow e1)%R
      by (rewrite <- Rmult_assoc, Hx; ring).
    replace (IZR (Z.pos q) * bpow (e1 - e2 - 53) * (V2 * IZR (2 ^ 53)))%R
      with (IZR (Z.pos q) * (bpow (e1 - e2 - 53) * V2 * IZR (2 ^ 53)))%R by ring.
    rewrite Hscale, <- !Rmult_assoc.
    apply Rmult_le_compat_r; lra. }
  assert (Hxhi : (x <= IZR (Z.pos q + 1) * bpow (e1 - e2 - 53))%R).
  { apply (Rmult_le_reg_r (V2 * IZR (2 ^ 53))); [nra|].
    replace (x * (V2 * IZR (2 ^ 53)))%R with (IZR (Z.pos m1) * IZR (2 ^ 53) * bpow e1)%R
      by (rewrite <- Rmult_assoc, Hx; ring).
    replace (IZR (Z.pos q + 1) * bpow (e1 - e2 - 53) * (V2 * IZR (2 ^ 53)))%R
      with (IZR (Z.pos q + 1) * (bpow (e1 - e2 - 53) * V2 * IZR (2 ^ 53)))%R by ring.
    rewrite Hscale, <- !Rmult_assoc.
    apply Rmult_le_compat_r; lra. }
  apply (grid_close g (bpow E)); [exact Hg|apply bpow_pos| |exact Hv].
  lra.
Qed.



Lemma pow_1u_ge_1 (n : nat) : (1 <= (1 + u) ^ n)%R.
Proof. apply pow_R1_Rle. pose proof u_pos. lra. Qed.

Lemma pow_1u_bound (n : nat) :
  (n <= 1000)%nat -> ((1 + u) ^ n <= 1 + 2 * INR n * u)%R.
Proof.
  induction n as [|n IH]; intros Hn.
  - simpl. lra.
  - specialize (IH ltac:(lia)). rewrite S_INR. cbn [pow].
    assert (Hn' : (0 <= INR n <= 1000)%R).
    { split; [apply pos_INR|]. replace 1000%R with (INR 1000) by (simpl; lra).
      apply le_INR. lia. }
    pose proof u_pos as Hu.
    assert (Hu2 : (u <= / 4000)%R) by (unfold u; lra).
    assert (H1 : ((1 + u) * (1 + u) ^ n <= (1 + u) * (1 + 2 * INR n * u))%R)
      by (apply Rmult_le_compat_l; lra).
    assert (H2 : (2 * INR n * u * u <= u)%R) by nra.
    nra.
Qed.

Lemma pow_1u_eps (n : nat) : (n <= 1000)%nat -> ((1 + u) ^ n <= 1 + eps)%R.
Proof.
  intros Hn. pose proof (pow_1u_bound n Hn) as H.
  assert (Hn' : (0 <= INR n <= 1000)%R).
  { split; [apply pos_INR|]. replace 1000%R with (INR 1000) by (simpl; lra).
    apply le_INR. lia. }
  unfold u, eps in *. nra.
Qed.

Lemma closeN_mono (n n' : nat) (x v : R) :
  (n <= n')%nat -> (0 <= x)%R -> (0 <= v)%R -> closeN n x v -> closeN n' x v.
Proof.
  intros Hn Hx Hv [H1 H2].
  assert (Hp : ((1 + u) ^ n <= (1 + u) ^ n')%R).
  { apply Rle_pow; [pose proof u_pos; lra|lia]. }
  pose proof (pow_1u_ge_1 n). split; nra.
Qed.

Lemma closeN_eps (n : nat) (x v : R) :
  (n <= 1000)%nat -> (0 <= x)%R -> (0 <= v)%R -> closeN n x v ->
  (x <= v * (1 + eps) /\ v <= x * (1 + eps))%R.
Proof.
  intros Hn Hx Hv [H1 H2]. pose proof (pow_1u_eps n Hn). pose proof (pow_1u_ge_1 n).
  split; nra.
Qed.

Lemma close_closeN (n : nat) (x y v : R) :
  (0 <= x)%R -> (0 <= y)%R -> (0 <= v)%R ->
  closeN n x y -> close y v -> closeN (S n) x v.
Proof.
  intros Hx Hy Hv [H1 H2] [H3 H4]. pose proof (pow_1u_ge_1 n). pose proof u_pos.
  unfold closeN. cbn [pow]. split.
  - assert (y * (1 + u) ^ n <= v * (1 + u) * (1 + u) ^ n)%R
      by (apply Rmult_le_compat_r; lra). nra.
  - assert (y * (1 + u) <= x * (1 + u) ^ n * (1 + u))%R
      by (apply Rmult_le_compat_r; lra). nra.
Qed.

(** A valid float of moderate size is normal. *)
Lemma bpow_lt_inv (a b : Z) : (bpow a < bpow b)%R -> a < b.
Proof.
  intros H. destruct (Z_lt_le_dec a b) as [|Hle]; [assumption|].
  apply bpow_le in Hle. lra.
Qed.

Lemma valid_pnormal (m : positive) (e : Z) :
  SpecFloat.bounded prec emax m e = true ->
  (bpow (-200) <= IZR (Z.pos m) * bpow e <= bpow 200)%R ->
  pnormal m e.
Proof.
  intros Hb [Hlo Hhi]. unfold SpecFloat.bounded, canonical_mantissa in Hb.
  apply andb_prop in Hb as [Hc _]. apply Z.eqb_eq in Hc.
  pose proof (digits2_pos_bounds m) as [Hm1 Hm2].
  set (d := Z.pos (digits2_pos m)) in *.
  pose proof (bpow_pos e) as He.
  assert (Hd : -200 < d + e).
  { apply bpow_lt_inv. eapply Rle_lt_trans; [exact Hlo|].
    rewrite Z.add_comm, bpow_add, (bpow_IZR d) by lia.
    rewrite (Rmult_comm (bpow e)). apply Rmult_lt_compat_r; [exact He|].
    apply IZR_lt. exact Hm2. }
  rewrite fexp_normal in Hc by lia.
  assert (Hd53 : d = 53) by lia.
  split; [exact Hd53|]. split; [lia|].
  assert (52 + e < 201); [|lia].
  apply bpow_lt_inv. eapply Rle_lt_trans; [|apply (bpow_lt 200 201); lia].
  eapply Rle_trans; [|exact Hhi].
  rewrite Z.add_comm, bpow_add, (bpow_IZR 52) by lia.
  rewrite (Rmult_comm (bpow e)). apply Rmult_le_compat_r; [lra|].
  apply IZR_le. rewrite Hd53 in Hm1. exact Hm1.
Qed.

(** [float64(n)] of a positive [int] is a positive finite number, so that
    [0 / float64(n)] is [0]. *)
Lemma binary_round_aux_canonical (m : positive) (e : Z) :
  Z.pos (digits2_pos m) = 53 -> -1074 <= e <= 971 ->
  binary_round_aux prec emax false (Z.pos m) e loc_Exact = S754_finite false m e /\
  SpecFloat.bounded prec emax m e = true.
Proof.
  intros Hd He. split.
  - unfold binary_round_aux. rewrite shr_fexp_canonical by lia.
    cbn [shr_m loc_of_shr_record round_nearest_even].
    rewrite shr_fexp_canonical by lia. cbn [shr_m].
    replace (e <=? emax - prec) with true; [reflexivity|].
    symmetry. apply Z.leb_le. unfold emax, prec. lia.
  - unfold SpecFloat.bounded, canonical_mantissa. rewrite Hd, fexp_normal by lia.
    apply andb_true_intro. split.
    + apply Z.eqb_eq. lia.
    + apply Z.leb_le. unfold emax, prec. lia.
Qed.

Lemma binary_round_aux_wide (p : positive) :
  53 < Z.pos (digits2_pos p) <= 1023 ->
  exists m e, binary_round_aux prec emax false (Z.pos p) 0 loc_Exact = S754_finite false m e /\
              SpecFloat.bounded prec emax m e = true.
Proof.
  intros Hd. pose proof (digits2_pos_bounds p) as Hp.
  set (d := Z.pos (digits2_pos p)) in *.
  unfold binary_round_aux.
  assert (Hshr : exists k mrs, Z.pos k = d - 53 /\
            shr_fexp prec emax (Z.pos p) 0 loc_Exact = (mrs, Z.pos k) /\
            shr_m mrs = Z.pos p / 2 ^ Z.pos k).
  { unfold shr_fexp. cbn [Zdigits2 shr_record_of_loc]. fold d.
    rewrite fexp_normal by lia.
    destruct (d + 0 - 53 - 0) as [|k|k] eqn:Hk; try lia.
    exists k, (SpecFloat.iter_pos shr_1 k {| shr_m := Z.pos p; shr_r := false; shr_s := false |}).
    split; [lia|]. split; [reflexivity|].
    rewrite iter_pos_nat, shr_iter_m by (cbn [shr_m]; lia).
    cbn [shr_m]. rewrite positive_nat_Z. reflexivity. }
  destruct Hshr as (k & mrs & Hk & -> & Hm).
  assert (Hm1 : 2 ^ 52 <= shr_m mrs < 2 ^ 53).
  { rewrite Hm. 
    assert (H2 : 2 ^ d = 2 ^ 53 * 2 ^ Z.pos k) by (rewrite <- Z.pow_add_r by lia; f_equal; lia).
    assert (H3 : 2 ^ (d - 1) = 2 ^ 52 * 2 ^ Z.pos k) by (rewrite <- Z.pow_add_r by lia; f_equal; lia).
    assert (H4 : 0 < 2 ^ Z.pos k) by (apply Z.pow_pos_nonneg; lia).
    split.
    - apply Z.div_le_lower_bound; lia.
    - apply Z.div_lt_upper_bound; lia. }
  set (m2 := round_nearest_even (shr_m mrs) (loc_of_shr_record mrs)).
  assert (Hm2 : 2 ^ 52 <= m2 <= 2 ^ 53).
  { destruct (round_nearest_even_range (shr_m mrs) (loc_of_shr_record mrs)) as [H|H];
      fold m2 in H; lia. }
  destruct m2 as [|q|q] eqn:Hq; try lia.
  destruct (Z.eq_dec (Z.pos q) (2 ^ 53)) as [Htop|Htop].
  - assert (q = 9007199254740992%positive) as -> by (apply Pos2Z.inj; rewrite Htop; reflexivity).
    exists 4503599627370496%positive, (Z.pos k + 1).
    unfold shr_fexp. cbn [Zdigits2 shr_record_of_loc].
    change (Z.pos (digits2_pos 9007199254740992)) with 54.
    rewrite fexp_normal by lia.
    replace (54 + Z.pos k - 53 - Z.pos k) with 1 by lia.
    cbn [shr SpecFloat.iter_pos shr_1 shr_m].
    replace (Z.pos k + 1 <=? emax - prec) with true
      by (symmetry; apply Z.leb_le; unfold emax, prec; lia).
    split; [reflexivity|].
    unfold SpecFloat.bounded, canonical_mantissa.
    change (Z.pos (digits2_pos 4503599627370496)) with 53.
    rewrite fexp_normal by lia.
    apply andb_true_intro. split.
    + apply Z.eqb_eq. lia.
    + apply Z.leb_le. unfold emax, prec. lia.
  - assert (Hdq : Z.pos (digits2_pos q) = 53).
    { rewrite digits2_pos_log2, (Z.log2_unique (Z.pos q) 52); [lia|lia|].
      change (Z.succ 52) with 53. lia. }
    exists q, (Z.pos k).
    rewrite shr_fexp_canonical by lia. cbn [shr_m].
    replace (Z.pos k <=? emax - prec) with true
      by (symmetry; apply Z.leb_le; unfold emax, prec; lia).
    split; [reflexivity|].
    unfold SpecFloat.bounded, canonical_mantissa. rewrite Hdq, fexp_normal by lia.
    apply andb_true_intro. split.
    + apply Z.eqb_eq. lia.
    + apply Z.leb_le. unfold emax, prec. lia.
Qed.

Lemma binary_round_pos_int (p : positive) :
  Z.pos (digits2_pos p) <= 1023 ->
  exists m e, binary_round prec emax false p 0 = S754_finite false m e /\
              SpecFloat.bounded prec emax m e = true.
Proof.
  intros Hd. unfold binary_round. rewrite fexp_normal by lia.
  unfold shl_align.
  destruct (Z.pos (digits2_pos p) + 0 - 53 - 0) as [|k|k] eqn:Hk.
  - exists p, 0. apply binary_round_aux_canonical; lia.
  - apply binary_round_aux_wide. lia.
  - exists (Pos.iter xO p k), (Z.pos (digits2_pos p) + 0 - 53).
    apply binary_round_aux_canonical.
    + rewrite digits2_pos_iter_xO. lia.
    + lia.
Qed.

Lemma float64_of_Z_pos (n : Z) :
  0 < n <= int_max ->
  exists m e, Prim2SF (float64_of_Z n) = S754_finite false m e.
Proof.
  intros Hn. destruct n as [|p|p]; try lia.
  destruct (binary_round_pos_int p) as (m & e & Hround & Hbounded).
  { rewrite digits2_pos_log2.
    assert (Z.log2 (Z.pos p) < 63) by (apply Z.log2_lt_pow2; unfold int_max in Hn; lia).
    lia. }
  exists m, e. unfold float64_of_Z. cbn [binary_normalize]. rewrite Hround.
  apply Prim2SF_SF2Prim. exact Hbounded.
Qed.

Lemma zero_div_float64_of_Z (n : Z) :
  0 < n <= int_max -> (float64_of_Z 0 / float64_of_Z n)%float = 0%float.
Proof.
  intros Hn. destruct (float64_of_Z_pos n Hn) as (m & e & Hm).
  apply Prim2SF_inj. rewrite div_spec, Hm. reflexivity.
Qed.

(** ** Bytes as integers *)

Lemma byte_to_Z_range (b : byte) : 0 <= byte_to_Z b < 256.
Proof. unfold byte_to_Z. pose proof (Byte.to_N_bounded b). lia. Qed.

Lemma byte_of_to_Z (b : byte) : byte_of_Z (byte_to_Z b) = b.
Proof.
  unfold byte_of_Z. rewrite Z.mod_small by apply byte_to_Z_range.
  unfold byte_to_Z. rewrite N2Z.id, Byte.of_to_N. reflexivity.
Qed.

Lemma byte_to_of_Z (i : Z) : 0 <= i < 256 -> byte_to_Z (byte_of_Z i) = i.
Proof.
  intros Hi. unfold byte_of_Z, byte_to_Z. rewrite Z.mod_small by lia.
  destruct (Byte.of_N (Z.to_N i)) as [b|] eqn:Hb.
  - apply Byte.to_of_N in Hb. simpl. rewrite Hb. lia.
  - apply Byte.of_N_None_iff in Hb. lia.
Qed.

(** ** Decision tree: the vote of Stage 2 *)

(** The label of the vote, by the number of true flags. *)
Lemma stage2Vote_label (n : Z) :
  (stage2Vote n).1 = if (4 <=? n) && (n <=? 5) then FullDiskEncryption else NoEncryption.
Proof.
  unfold stage2Vote.
  destruct (Z.leb_spec n 2), (Z.ltb_spec 3 n), (Z.leb_spec n 5), (Z.leb_spec 4 n);
    simpl; try reflexivity; lia.
Qed.

Lemma stage2Vote_never_file_based (n : Z) : (stage2Vote n).1 <> FileBasedEncryption.
Proof. rewrite stage2Vote_label. destruct (_ && _); discriminate. Qed.

(** C1 (the code departs from the claim at three votes).  For every
    assignment of the five flags the vote gives [NoEncryption] with the
    "not encrypted" line for 0, 1 or 2 true flags, [FullDiskEncryption] for 4
    or 5, and for exactly 3 true flags it falls into the last branch:
    [NoEncryption] with the counting-error line, although the line of the
    second branch announces the interval [3,5]. *)
Theorem C1_stage2_vote_by_flags (a k c s e : bool) :
  let n := CountTrueBools [a; k; c; s; e] in
  stage2Vote n =
    if n <=? 2 then (NoEncryption, MsgStage2NoEncryption n)
    else if n =? 3 then (NoEncryption, MsgStage2CountError)
    else (FullDiskEncryption, MsgStage2Encryption n).
Proof. destruct a, k, c, s, e; reflexivity. Qed.

(** ** Decision tree: which branch the file-system probe selects *)

Lemma slices_Contains_noFS (s : string) :
  slices_Contains noFSResults s = true <-> s = "" \/ s = "unknown".
Proof.
  unfold slices_Contains, noFSResults. rewrite bool_decide_eq_true.
  rewrite !elem_of_cons, elem_of_nil. tauto.
Qed.




(** ** Compression test without its tools *)

Lemma firstMissing_Some (look : string -> bool) (tools : list string) (tool : string) :
  tool ∈ tools -> look tool = false -> exists t, firstMissing look tools = Some t.
Proof.
  induction tools as [|t0 tools IH]; intros Hin Hlook.
  - by apply elem_of_nil in Hin.
  - simpl. destruct (look t0) eqn:Ht0; [|eauto].
    apply elem_of_cons in Hin as [->|Hin]; [congruence|]. by apply IH.
Qed.

(** The statistic when a tool is missing. *)
Lemma CompressionTest_missing_tool (env : compressionEnv) (fileName tool : string) :
  tool ∈ compressionTools -> LookPath env tool = false ->
  CompressionTest env fileName = 0%float.
Proof.
  intros Hin Hlook. unfold CompressionTest, checkCompressionToolAvailability.
  destruct (firstMissing_Some _ _ _ Hin Hlook) as [t ->]. reflexivity.
Qed.

(** C3 as stated, refuted.  With no compressor installed the flag of the
    compression test is not false: the statistic 0 passes the comparison
    with the reference value 1.1. *)
Lemma C3_counterexample :
  ~ (forall (env : compressionEnv) (fileName tool : string) (t : testOutcomes),
       tool ∈ compressionTools -> LookPath env tool = false ->
       compressionStat t = CompressionTest env fileName ->
       compressionStat t = 0%float /\ compressionTrue t = false).
Proof.
  intros claim.
  destruct (claim env_no_tools "image_opt.dd" "pigz" outcomes_no_tools) as [_ Hflag].
  - unfold compressionTools. apply elem_of_cons. left. reflexivity.
  - reflexivity.
  - reflexivity.
  - vm_compute in Hflag. discriminate.
Qed.

(** C3 (amended).  If a required compressor is not found, [CompressionTest]
    returns the statistic 0 instead of aborting, and returns nothing else;
    the handler compares it with the reference value like any other
    statistic, so the compression flag is true and the vote counts all
    five flags, the compression flag among them. *)
Theorem C3_missing_tool_votes (env : compressionEnv) (fileName tool : string)
    (t : testOutcomes) :
  tool ∈ compressionTools -> LookPath env tool = false ->
  compressionStat t = CompressionTest env fileName ->
  compressionStat t = 0%float /\
  compressionTrue t = true /\
  CountTrueBools (stage2Flags t)
  = 1 + CountTrueBools [autocorrTrue t; ksTrue t; signatureTrue t; entropyTrue t].
Proof.
  intros Hin Hlook Hstat.
  rewrite (CompressionTest_missing_tool env fileName tool Hin Hlook) in Hstat.
  assert (Hflag : compressionTrue t = true).
  { unfold compressionTrue. rewrite Hstat. reflexivity. }
  repeat split; [done|done|].
  unfold stage2Flags. simpl. rewrite Hflag.
  destruct (autocorrTrue t), (ksTrue t), (signatureTrue t), (entropyTrue t); reflexivity.
Qed.

Lemma C3_missing_tool_votes_witness :
  compressionStat outcomes_no_tools = 0%float /\
  compressionTrue outcomes_no_tools = true /\
  CountTrueBools (stage2Flags outcomes_no_tools)
  = 1 + CountTrueBools [autocorrTrue outcomes_no_tools; ksTrue outcomes_no_tools;
                        signatureTrue outcomes_no_tools; entropyTrue outcomes_no_tools].
Proof.
  apply (C3_missing_tool_votes env_no_tools "image_opt.dd" "pigz" outcomes_no_tools).
  - unfold compressionTools. apply elem_of_cons. left. reflexivity.
  - reflexivity.
  - reflexivity.
Defined.

(** ** Histograms *)

Lemma counter_sum_empty : counter_sum ∅ = 0.
Proof. unfold counter_sum. by rewrite map_fold_empty. Qed.

Lemma counter_sum_insert_fresh (k : byte) (v : Z) (m : gmap byte Z) :
  m !! k = None -> counter_sum (<[k:=v]> m) = counter_sum m + v.
Proof.
  intros Hk. unfold counter_sum.
  rewrite map_fold_insert_L; [done| |done]. intros; lia.
Qed.

Lemma counter_sum_insert (k : byte) (v : Z) (m : gmap byte Z) :
  counter_sum (<[k:=v]> m) = counter_sum m - counter_get m k + v.
Proof.
  unfold counter_get. destruct (m !! k) as [x|] eqn:Hk; simpl.
  - rewrite <- (insert_delete_eq m k v).
    rewrite counter_sum_insert_fresh by apply lookup_delete_eq.
    unfold counter_sum at 2.
    rewrite (map_fold_delete_L _ _ k x m); [|intros; lia|done].
    fold (counter_sum (delete k m)). lia.
  - rewrite counter_sum_insert_fresh by done. lia.
Qed.

Lemma counter_sum_add (k : byte) (v : Z) (m : gmap byte Z) :
  counter_sum (counter_add k v m) = counter_sum m + v.
Proof. unfold counter_add. rewrite counter_sum_insert. lia. Qed.

Lemma counter_get_empty (b : byte) : counter_get ∅ b = 0.
Proof. unfold counter_get. by rewrite lookup_empty. Qed.

Lemma counter_get_insert (k : byte) (v : Z) (m : gmap byte Z) (b : byte) :
  counter_get (<[k:=v]> m) b = if decide (k = b) then v else counter_get m b.
Proof.
  unfold counter_get. rewrite lookup_insert. by destruct (decide (k = b)).
Qed.

Lemma counter_get_add (k : byte) (v : Z) (m : gmap byte Z) (b : byte) :
  counter_get (counter_add k v m) b
  = counter_get m b + (if decide (k = b) then v else 0).
Proof.
  unfold counter_add. rewrite counter_get_insert.
  destruct (decide (k = b)) as [->|]; lia.
Qed.

(** Adding a whole map into an accumulator adds its sum, and adds its
    count at every key. *)
Lemma counter_sum_fold_add (init c : gmap byte Z) :
  counter_sum (map_fold counter_add init c) = counter_sum init + counter_sum c.
Proof.
  apply (map_fold_weak_ind
           (fun r m => counter_sum r = counter_sum init + counter_sum m)).
  - rewrite counter_sum_empty. lia.
  - intros i x m r Hi IH.
    rewrite counter_sum_add, IH, counter_sum_insert_fresh by done. lia.
Qed.

Lemma counter_get_fold_add (init c : gmap byte Z) (b : byte) :
  counter_get (map_fold counter_add init c) b = counter_get init b + counter_get c b.
Proof.
  apply (map_fold_weak_ind
           (fun r m => counter_get r b = counter_get init b + counter_get m b)).
  - rewrite counter_get_empty. lia.
  - intros i x m r Hi IH.
    rewrite counter_get_add, IH, counter_get_insert.
    destruct (decide (i = b)) as [->|]; [|lia].
    unfold counter_get at 2. rewrite Hi. simpl. lia.
Qed.

Lemma mergeCounterLists_sum (c1 c2 : gmap byte Z) :
  counter_sum (mergeCounterLists c1 c2) = counter_sum c1 + counter_sum c2.
Proof.
  unfold mergeCounterLists. rewrite !counter_sum_fold_add, counter_sum_empty. lia.
Qed.

Lemma mergeCounterLists_get (c1 c2 : gmap byte Z) (b : byte) :
  counter_get (mergeCounterLists c1 c2) b = counter_get c1 b + counter_get c2 b.
Proof.
  unfold mergeCounterLists. rewrite !counter_get_fold_add, counter_get_empty. lia.
Qed.

Lemma occurrences_app (b : byte) (l1 l2 : list byte) :
  occurrences b (l1 ++ l2) = occurrences b l1 + occurrences b l2.
Proof. unfold occurrences. rewrite filter_app, length_app. lia. Qed.

Lemma occurrences_nonneg (b : byte) (data : list byte) : 0 <= occurrences b data.
Proof. unfold occurrences. lia. Qed.

Lemma countBytes_fold_sum (data : list byte) (m : gmap byte Z) :
  counter_sum (foldl (fun counter b => <[b := counter_get counter b + 1]> counter) m data)
  = counter_sum m + Z.of_nat (length data).
Proof.
  revert m. induction data as [|b data IH]; intros m; simpl; [lia|].
  rewrite IH. change (<[b:=counter_get m b + 1]> m) with (counter_add b 1 m).
  rewrite counter_sum_add. lia.
Qed.

Lemma countBytes_fold_get (data : list byte) (m : gmap byte Z) (b : byte) :
  counter_get (foldl (fun counter b => <[b := counter_get counter b + 1]> counter) m data) b
  = counter_get m b + occurrences b data.
Proof.
  revert m. induction data as [|x data IH]; intros m; simpl.
  - unfold occurrences. simpl. lia.
  - rewrite IH. change (<[x:=counter_get m x + 1]> m) with (counter_add x 1 m).
    rewrite counter_get_add. unfold occurrences.
    rewrite filter_cons. destruct (decide (x = b)); simpl; lia.
Qed.

Lemma countBytes_sum (data : list byte) :
  counter_sum (countBytes data) = Z.of_nat (length data).
Proof. unfold countBytes. rewrite countBytes_fold_sum, counter_sum_empty. lia. Qed.

Lemma countBytes_get (data : list byte) (b : byte) :
  counter_get (countBytes data) b = occurrences b data.
Proof.
  unfold countBytes. rewrite countBytes_fold_get, counter_get_empty. lia.
Qed.

(** *** Readers hand out the content in order *)

Lemma bufio_Read_spec (len_p : nat) (r : bufio_Reader) :
  (0 < len_p)%nat ->
  (bufio_Read len_p r).1 ++ remaining (bufio_Read len_p r).2 = remaining r /\
  ((bufio_Read len_p r).1 = [] <-> remaining r = []).
Proof.
  intros Hp. unfold bufio_Read, remaining.
  destruct len_p as [|n]; [lia|].
  destruct r as [lb [|a ahead] rest]; simpl.
  - destruct (lb <=? S n)%nat eqn:Hdirect; simpl.
    + destruct rest; simpl; [done|]. rewrite take_drop. split; [done|]. split; done.
    + apply Nat.leb_gt in Hdirect. destruct lb as [|lb]; [lia|].
      destruct rest as [|x rest]; simpl; [done|].
      split; [|split; done].
      f_equal. rewrite app_assoc. rewrite take_drop.
      rewrite <- (take_drop lb rest) at 3. done.
  - split; [|split; done]. f_equal. by rewrite app_assoc, take_drop.
Qed.

Lemma CreateFileCounter_loop_spec (fuel blockSize : nat) (reader : bufio_Reader)
    (n : Z) (c : gmap byte Z) :
  (0 < blockSize)%nat -> (length (remaining reader) < fuel)%nat ->
  exists c',
    CreateFileCounter_loop fuel blockSize reader n c
    = Returns (c', n + Z.of_nat (length (remaining reader))) /\
    counter_sum c' = counter_sum c + Z.of_nat (length (remaining reader)) /\
    forall b, counter_get c' b = counter_get c b + occurrences b (remaining reader).
Proof.
  intros Hbs. revert reader n c.
  induction fuel as [|fuel IH]; intros reader n c Hfuel; [lia|].
  simpl. destruct (bufio_Read_spec blockSize reader Hbs) as [Hsplit Hnil].
  destruct (bufio_Read blockSize reader) as [block reader']. simpl in *.
  destruct (length block =? 0)%nat eqn:Hlen.
  - apply Nat.eqb_eq, length_zero_iff_nil in Hlen.
    apply Hnil in Hlen. rewrite Hlen. simpl. exists c.
    repeat split; [f_equal; f_equal; lia | lia | intros; unfold occurrences; simpl; lia].
  - apply Nat.eqb_neq in Hlen.
    assert (Hrem : (length (remaining reader') < fuel)%nat).
    { rewrite <- Hsplit, length_app in Hfuel. lia. }
    destruct (IH reader' (n + Z.of_nat (length block))
                (mergeCounterLists c (countBytes block)) Hrem) as (c' & -> & Hsum & Hget).
    exists c'. rewrite <- Hsplit, length_app.
    repeat split.
    + f_equal. f_equal. lia.
    + rewrite Hsum, mergeCounterLists_sum, countBytes_sum. lia.
    + intros b. rewrite Hget, mergeCounterLists_get, countBytes_get, occurrences_app. lia.
Qed.

(** The histogram built by [CreateFileCounter]: whenever the block size in
    effect is positive, the call returns, the second component is the length
    of the file, the counts add up to it, and each count is the number of
    occurrences of its byte. *)
Theorem CreateFileCounter_histogram (Log2 : float64 -> float64) (content : list byte)
    (blockSize bs : Z) :
  effectiveBlockSize Log2 (Z.of_nat (length content)) blockSize = Returns bs ->
  0 < bs ->
  exists c,
    CreateFileCounter Log2 content blockSize = Returns (c, Z.of_nat (length content)) /\
    counter_sum c = Z.of_nat (length content) /\
    forall b, counter_get c b = occurrences b content.
Proof.
  intros Hbs Hpos. unfold CreateFileCounter. rewrite Hbs. simpl.
  destruct (Z.ltb_spec bs 0); [lia|].
  destruct (CreateFileCounter_loop_spec (S (length content)) (Z.to_nat bs)
              (bufio_NewReaderSize content bs) 0 ∅) as (c & Heq & Hsum & Hget).
  - lia.
  - unfold remaining. simpl. lia.
  - unfold remaining in *. simpl in *. exists c. rewrite Heq.
    repeat split.
    + rewrite Hsum, counter_sum_empty. lia.
    + intros b. rewrite Hget, counter_get_empty. lia.
Qed.

Lemma CreateFileCounterGoro_loop_spec (fuel blockSize : nat) (rest : list byte)
    (n : Z) (c : gmap byte Z) :
  (0 < blockSize)%nat -> (length rest < fuel)%nat ->
  exists c',
    CreateFileCounterGoro_loop fuel blockSize rest n c
    = Returns (c', n + Z.of_nat (length rest)) /\
    counter_sum c'
    = counter_sum c
      + (Z.of_nat (length rest) - Z.of_nat (length rest) mod Z.of_nat blockSize).
Proof.
  intros Hbs. revert rest n c.
  induction fuel as [|fuel IH]; intros rest n c Hfuel; [lia|].
  simpl. rewrite length_take.
  destruct (blockSize `min` length rest =? 0)%nat eqn:Hzero.
  - apply Nat.eqb_eq in Hzero. assert (length rest = 0%nat) as -> by lia.
    exists c. split; [f_equal; f_equal; lia|]. rewrite Z.mod_0_l by lia. lia.
  - apply Nat.eqb_neq in Hzero.
    destruct (blockSize `min` length rest <? blockSize)%nat eqn:Hshort.
    + apply Nat.ltb_lt in Hshort. exists c.
      split; [f_equal; f_equal; lia|].
      rewrite Z.mod_small by lia. lia.
    + apply Nat.ltb_ge in Hshort.
      assert (Hfull : (blockSize `min` length rest = blockSize)%nat) by lia.
      destruct (IH (drop blockSize rest) (n + Z.of_nat (blockSize `min` length rest))
                  (mergeCounterLists c (countBytes (take blockSize rest))))
        as (c' & -> & Hsum).
      { rewrite length_drop. lia. }
      exists c'. rewrite length_drop in *.
      split; [f_equal; f_equal; lia|].
      rewrite Hsum, mergeCounterLists_sum, countBytes_sum, length_take.
      replace (Z.of_nat (length rest - blockSize))
        with (Z.of_nat (length rest) + (-1) * Z.of_nat blockSize) by lia.
      rewrite Z.mod_add by lia. lia.
Qed.

(** C7 (the second builder breaks the invariant).  Called with a block
    size that the file reaches, [CreateFileCounterGoro] returns the length
    of the file as [BytesRead], while the counts of its histogram add up
    to the bytes of the full blocks only: the bytes of a final short block
    are added to [BytesRead] before the loop is left without tallying
    them.  The two agree only when the length is a multiple of the block
    size. *)
Theorem C7_goro_sum_misses_short_tail (Log2 : float64 -> float64)
    (content : list byte) (blockSize : Z) :
  0 < blockSize <= Z.of_nat (length content) ->
  exists r,
    CreateFileCounterGoro Log2 content blockSize = Returns r /\
    BytesRead r = Z.of_nat (length content) /\
    counter_sum (Counter r)
    = Z.of_nat (length content) - Z.of_nat (length content) mod blockSize.
Proof.
  intros [Hpos Hle]. unfold CreateFileCounterGoro, effectiveBlockSizeGoro.
  destruct (Z.ltb_spec (Z.of_nat (length content)) blockSize); [lia|].
  unfold mbind, outcome_bind, obind.
  destruct (Z.ltb_spec blockSize 0); [lia|].
  destruct (CreateFileCounterGoro_loop_spec (S (length content)) (Z.to_nat blockSize)
              content 0 ∅) as (c & -> & Hsum); [lia..|].
  eexists. split; [reflexivity|]. cbn [BytesRead Counter fst snd]. split; [lia|].
  rewrite Hsum, counter_sum_empty, Z2Nat.id by lia. lia.
Qed.

Lemma C7_goro_sum_misses_short_tail_witness :
  exists r,
    CreateFileCounterGoro (fun x => x) ["a"; "b"; "c"]%byte 2 = Returns r /\
    BytesRead r = 3 /\
    counter_sum (Counter r) = 3 - 3 mod 2.
Proof.
  apply (C7_goro_sum_misses_short_tail (fun x => x) ["a"; "b"; "c"]%byte 2).
  simpl. lia.
Defined.

(** ** The block size for files shorter than a block *)

Lemma wrap_int_small (z : Z) : int_min <= z <= int_max -> wrap_int z = z.
Proof.
  unfold wrap_int, int_min, int_max. intros. rewrite Z.mod_small; lia.
Qed.

Lemma log2_below_63 (fsize : Z) : 0 < fsize <= int_max -> 0 <= Z.log2 fsize < 63.
Proof.
  intros [Hpos Hmax]. split; [apply Z.log2_nonneg|].
  apply Z.log2_lt_pow2; [done|]. unfold int_max in Hmax. lia.
Qed.

(** X1.  What [CreateFileCounter] does for a short file, given that
    [math.Log2] is accurate enough at the file size for the floor of its
    result to be the integer logarithm: the block size becomes the largest
    power of two that does not exceed the size. *)
Theorem CreateFileCounter_block_size (Log2 : float64 -> float64) (fsize blockSize : Z) :
  0 < fsize < blockSize -> blockSize <= int_max ->
  floorLog2 Log2 fsize = Returns (Z.log2 fsize) ->
  effectiveBlockSize Log2 fsize blockSize = Returns (2 ^ Z.log2 fsize) /\
  2 ^ Z.log2 fsize <= fsize < 2 ^ (Z.log2 fsize + 1).
Proof.
  intros [Hpos Hlt] Hmax Hlog. unfold effectiveBlockSize.
  destruct (Z.ltb_spec fsize blockSize); [|lia].
  rewrite Hlog. simpl. unfold int_shl.
  destruct (log2_below_63 fsize) as [H0 H63]; [lia|].
  destruct (Z.ltb_spec (Z.log2 fsize) 0); [lia|].
  rewrite Z.shiftl_1_l. split.
  - f_equal. apply wrap_int_small. unfold int_min, int_max.
    assert (2 ^ Z.log2 fsize <= 2 ^ 62) by (apply Z.pow_le_mono_r; lia). lia.
  - pose proof (Z.log2_spec fsize Hpos) as Hspec.
    replace (Z.succ (Z.log2 fsize)) with (Z.log2 fsize + 1) in Hspec by lia. exact Hspec.
Qed.

Lemma CreateFileCounter_block_size_witness :
  effectiveBlockSize Log2_floor 5 8 = Returns (2 ^ Z.log2 5) /\
  2 ^ Z.log2 5 <= 5 < 2 ^ (Z.log2 5 + 1).
Proof.
  apply (CreateFileCounter_block_size Log2_floor 5 8).
  - lia.
  - vm_compute. discriminate.
  - vm_compute. reflexivity.
Defined.

(** A zero-byte file: [math.Log2(0)] is -Inf, whose conversion to [int] Go
    leaves to the implementation, so neither builder gets to its loop with a
    block size that the language defines. *)
Lemma effectiveBlockSize_empty_file (Log2 : float64 -> float64) (blockSize : Z) :
  Log2 0%float = neg_infinity -> 0 < blockSize ->
  effectiveBlockSize Log2 0 blockSize = Aborts Unspecified_Conversion /\
  effectiveBlockSizeGoro Log2 0 blockSize = Aborts Unspecified_Conversion.
Proof.
  intros Hlog Hpos. unfold effectiveBlockSize, effectiveBlockSizeGoro, floorLog2.
  destruct (Z.ltb_spec 0 blockSize); [|lia].
  change (float64_of_Z 0) with 0%float. rewrite Hlog. split; reflexivity.
Qed.

Lemma xor_2_not_pow2 (k : Z) : 0 <= k < 63 -> int_xor 2 k <> 2 ^ k.
Proof.
  intros Hk.
  assert (Hall : forallb (fun k => negb (int_xor 2 k =? 2 ^ k)) (seqZ 0 63) = true)
    by (vm_compute; reflexivity).
  rewrite forallb_forall in Hall.
  specialize (Hall k). rewrite <- list_elem_of_In, elem_of_seqZ in Hall.
  specialize (Hall ltac:(lia)). apply negb_true_iff, Z.eqb_neq in Hall. exact Hall.
Qed.

(** C8 (the second builder does not compute the power of two).  For a
    file shorter than the requested block, under the same accuracy of
    [math.Log2], [CreateFileCounterGoro] reads with the block size
    [2 xor k], where [k] is the integer logarithm of the file size, because
    [2 ^ k] is exclusive or in Go; this is never the power of two [2^k] that
    [CreateFileCounter] computes with [1 << k]. *)
Theorem C8_goro_block_size_is_xor (Log2 : float64 -> float64) (fsize blockSize : Z) :
  0 < fsize < blockSize -> blockSize <= int_max ->
  floorLog2 Log2 fsize = Returns (Z.log2 fsize) ->
  effectiveBlockSizeGoro Log2 fsize blockSize = Returns (Z.lxor 2 (Z.log2 fsize)) /\
  Z.lxor 2 (Z.log2 fsize) <> 2 ^ Z.log2 fsize.
Proof.
  intros [Hpos Hlt] Hmax Hlog. unfold effectiveBlockSizeGoro.
  destruct (Z.ltb_spec fsize blockSize); [|lia].
  rewrite Hlog. simpl. split; [reflexivity|].
  apply xor_2_not_pow2, log2_below_63. lia.
Qed.

Lemma C8_goro_block_size_is_xor_witness :
  effectiveBlockSizeGoro Log2_floor 1000 1048576 = Returns 11 /\ 11 <> 512.
Proof.
  apply (C8_goro_block_size_is_xor Log2_floor 1000 1048576).
  - lia.
  - vm_compute. discriminate.
  - vm_compute. reflexivity.
Defined.

(** ** Statistics of an empty or sparse histogram *)

Lemma foldl_add_nan {A : Type} (f : A -> float64) (l : list A) :
  foldl (fun e i => e + f i)%float nan l = nan.
Proof.
  induction l as [|x l IH]; simpl; [done|]. by rewrite nan_add_l.
Qed.

Lemma foldl_add_reaches_nan {A : Type} (f : A -> float64) (l1 l2 : list A)
    (x : A) (e : float64) :
  f x = nan -> foldl (fun e i => e + f i)%float e (l1 ++ x :: l2) = nan.
Proof.
  intros Hx. rewrite foldl_app. simpl. rewrite Hx, nan_add_r. apply foldl_add_nan.
Qed.

Lemma seqZ_split_at (i n : Z) :
  0 <= i < n -> seqZ 0 n = seqZ 0 i ++ i :: seqZ (i + 1) (n - i - 1).
Proof.
  intros Hi.
  replace n with (i + (1 + (n - i - 1))) at 1 by lia.
  rewrite seqZ_app by lia. f_equal.
  rewrite seqZ_app by lia. f_equal.
Qed.

(** The two computations on the histogram of no bytes with total 0:
    whatever [math.Log2] returns, [EntropyEstimation] and [ChiSqTest] both
    return NaN, and the comparison of that NaN with the entropy threshold is
    false. *)
Lemma empty_histogram_gives_nan (Log2 : float64 -> float64) :
  EntropyEstimation Log2 (countBytes []) 0 = nan /\
  ChiSqTest (F := float64) (countBytes []) 0 = nan /\
  fge (EntropyEstimation Log2 (countBytes []) 0) entropyThreshold = false.
Proof.
  assert (Hent : EntropyEstimation Log2 (countBytes []) 0 = nan).
  { unfold EntropyEstimation.
    rewrite (seqZ_split_at 0 256) by lia.
    rewrite (foldl_add_reaches_nan
               (fun i => (float64_of_Z (counter_get (countBytes []) (byte_of_Z i))
                          / float64_of_Z 0) * Log2 _)%float).
    - reflexivity.
    - change (float64_of_Z (counter_get (countBytes []) (byte_of_Z 0)) / float64_of_Z 0)%float
        with nan.
      apply nan_mul_l. }
  split; [exact Hent|]. split.
  - vm_compute. reflexivity.
  - rewrite Hent. reflexivity.
Qed.

(** C6 (the entropy is NaN as soon as a byte value is absent).  Given that
    [math.Log2(0)] is -Inf, as Go documents: for a histogram with a positive
    total in which some byte value has the count 0, the relative frequency
    [p] of that value is 0, the product [p * Log2(p)] is NaN and so is the
    returned entropy; it is then neither 0, nor at least 0, nor at most 8. *)
Theorem C6_entropy_nan_when_byte_absent (Log2 : float64 -> float64)
    (totalCounter : gmap byte Z) (readBytesCount : Z) (b : byte) :
  Log2 0%float = neg_infinity ->
  0 < readBytesCount <= int_max ->
  counter_get totalCounter b = 0 ->
  let entropy := EntropyEstimation Log2 totalCounter readBytesCount in
  entropy = nan /\
  PrimFloat.eqb entropy 0%float = false /\ fle 0%float entropy = false /\
  fle entropy 8%float = false.
Proof.
  intros Hlog Hn Hb entropy.
  assert (Hent : entropy = nan).
  { unfold entropy, EntropyEstimation.
    rewrite (seqZ_split_at (byte_to_Z b) 256) by apply byte_to_Z_range.
    rewrite (foldl_add_reaches_nan
               (fun i => (float64_of_Z (counter_get totalCounter (byte_of_Z i))
                          / float64_of_Z readBytesCount)
                         * Log2 (float64_of_Z (counter_get totalCounter (byte_of_Z i))
                                 / float64_of_Z readBytesCount))%float).
    - reflexivity.
    - rewrite byte_of_to_Z, Hb, zero_div_float64_of_Z, Hlog by exact Hn.
      reflexivity. }
  rewrite Hent. repeat split; reflexivity.
Qed.

(** The failing input: a file of four bytes "aaaa", in which the byte value
    0 does not occur. *)
Lemma C6_entropy_nan_when_byte_absent_witness :
  let entropy := EntropyEstimation Log2_floor (countBytes ["a"; "a"; "a"; "a"]%byte) 4 in
  entropy = nan /\
  PrimFloat.eqb entropy 0%float = false /\ fle 0%float entropy = false /\
  fle entropy 8%float = false.
Proof.
  apply (C6_entropy_nan_when_byte_absent Log2_floor
           (countBytes ["a"; "a"; "a"; "a"]%byte) 4 "000"%byte).
  - vm_compute. reflexivity.
  - vm_compute. split; [reflexivity|discriminate].
  - vm_compute. reflexivity.
Defined.

(** ** Autocorrelation of a file shorter than a block *)

(** C10.  Given that [stats.StandardDeviation] reports an error for an
    empty slice: for a file shorter than the block size the first read is
    empty or short, the loop is left before any block is scored, and
    [AutoCorrelation] returns exactly 0; the autocorrelation flag that the
    handler computes from the returned value is true. *)
Theorem C10_short_file_autocorrelation_zero
    (stats_Correlation : list float64 -> list float64 -> float64 * bool)
    (stats_StandardDeviation : list float64 -> float64 * bool)
    (content : list byte) (blockSize : Z) :
  (stats_StandardDeviation []).2 = true ->
  Z.of_nat (length content) < blockSize ->
  exists result,
    AutoCorrelation stats_Correlation stats_StandardDeviation content blockSize
    = Returns result /\
    result = 0%float /\
    fle result autocorrThreshold = true.
Proof.
  intros Herr Hshort. exists 0%float. split; [|split; reflexivity].
  unfold AutoCorrelation.
  destruct (Z.ltb_spec blockSize 0); [lia|].
  assert (Hloop : AutoCorrelation_loop stats_Correlation (S (length content))
                    (Z.to_nat blockSize) content [] = Returns []).
  { simpl. rewrite length_take.
    destruct (Z.to_nat blockSize `min` length content =? 0)%nat eqn:Hzero; [done|].
    assert (((Z.to_nat blockSize `min` length content) <? Z.to_nat blockSize)%nat = true)
      as -> by (apply Nat.ltb_lt; lia).
    done. }
  rewrite Hloop. unfold mbind, outcome_bind, obind.
  destruct (stats_StandardDeviation []) as [std err]. simpl in Herr. by rewrite Herr.
Qed.

Lemma C10_short_file_autocorrelation_zero_witness :
  exists result,
    AutoCorrelation stats_Correlation_model stats_StandardDeviation_model
      ["a"; "b"; "c"]%byte 1048576
    = Returns result /\
    result = 0%float /\
    fle result autocorrThreshold = true.
Proof.
  apply (C10_short_file_autocorrelation_zero stats_Correlation_model
           stats_StandardDeviation_model ["a"; "b"; "c"]%byte 1048576).
  - reflexivity.
  - simpl. lia.
Defined.

(** ** Byte values index a histogram without gaps or repetitions *)

Lemma sum_below_ext (f g : byte -> Z) (n : nat) :
  (forall b, f b = g b) -> sum_below f n = sum_below g n.
Proof. intros Hfg. induction n as [|n IH]; simpl; [done|]. by rewrite IH, Hfg. Qed.

Lemma sum_below_plus (f g : byte -> Z) (n : nat) :
  sum_below (fun b => f b + g b) n = sum_below f n + sum_below g n.
Proof. induction n as [|n IH]; simpl; lia. Qed.

Lemma sum_below_nonneg (f : byte -> Z) (n : nat) :
  (forall b, 0 <= f b) -> 0 <= sum_below f n.
Proof.
  intros Hf. induction n as [|n IH]; simpl; [lia|].
  specialize (Hf (byte_of_Z (Z.of_nat n))). lia.
Qed.

Lemma sum_below_mono (f : byte -> Z) (n m : nat) :
  (forall b, 0 <= f b) -> (n <= m)%nat -> sum_below f n <= sum_below f m.
Proof.
  intros Hf Hnm. induction Hnm as [|m Hnm IH]; [lia|]. simpl.
  specialize (Hf (byte_of_Z (Z.of_nat m))). lia.
Qed.

Lemma sum_below_zero (n : nat) : sum_below (fun _ => 0) n = 0.
Proof. induction n as [|n IH]; simpl; lia. Qed.

Lemma sum_below_indicator (k : byte) (x : Z) (n : nat) :
  (n <= 256)%nat ->
  sum_below (fun b => if decide (k = b) then x else 0) n
  = if decide (byte_to_Z k < Z.of_nat n) then x else 0.
Proof.
  intros Hn. induction n as [|n IH]; simpl.
  - pose proof (byte_to_Z_range k). destruct (decide _); [lia|done].
  - rewrite IH by lia.
    destruct (decide (k = byte_of_Z (Z.of_nat n))) as [->|Hne].
    + rewrite byte_to_of_Z by lia.
      destruct (decide (Z.of_nat n < Z.of_nat n)); [lia|].
      destruct (decide (Z.of_nat n < Z.of_nat (S n))); lia.
    + destruct (decide (byte_to_Z k < Z.of_nat n)),
               (decide (byte_to_Z k < Z.of_nat (S n))); try lia.
      contradict Hne. replace (Z.of_nat n) with (byte_to_Z k) by lia.
      by rewrite byte_of_to_Z.
Qed.

(** The counts of a histogram add up the same whether the map is
    traversed or the 256 byte values are looked up one after the other. *)
Lemma counter_sum_by_byte_value (counter : gmap byte Z) :
  counter_sum counter = sum_below (counter_get counter) 256.
Proof.
  induction counter as [|k x m Hk IH] using map_ind.
  - rewrite counter_sum_empty.
    rewrite (sum_below_ext _ (fun _ => 0)) by (intros; apply counter_get_empty).
    by rewrite sum_below_zero.
  - rewrite counter_sum_insert_fresh by done.
    rewrite (sum_below_ext _ (fun b => counter_get m b + if decide (k = b) then x else 0)).
    + rewrite sum_below_plus, sum_below_indicator, IH by lia.
      pose proof (byte_to_Z_range k). destruct (decide _); lia.
    + intros b. rewrite counter_get_insert.
      destruct (decide (k = b)) as [<-|]; [|lia].
      unfold counter_get. rewrite Hk. simpl. lia.
Qed.

(** ** The Kolmogorov test *)

Lemma Rgtb_true (x y : R) : Rgtb x y = true <-> (y < x)%R.
Proof. unfold Rgtb. destruct (Rlt_dec y x); split; intros; (done || lra). Qed.

Lemma Rgtb_false (x y : R) : Rgtb x y = false <-> (x <= y)%R.
Proof. unfold Rgtb. destruct (Rlt_dec y x); split; intros; (done || lra). Qed.

Section KsReal.

Variable totalCounter : gmap byte Z.
Variable readBytesCount : Z.
Hypothesis total_positive : 0 < readBytesCount.

Let IZR_total_pos : (0 < IZR readBytesCount)%R.
Proof. by apply IZR_lt. Qed.

(** The first loop, after [n] turns. *)
Lemma ks_cdf_loop (n : nat) :
  foldl (ks_cdf_step (F := R) totalCounter readBytesCount)
        (0%R, 0%R, [], []) (seqZ 0 (Z.of_nat n))
  = ((IZR (sum_below (counter_get totalCounter) n) / IZR readBytesCount)%R,
     (IZR (Z.of_nat n) / 256)%R,
     (fun k => empirical_cdf totalCounter readBytesCount (Z.of_nat k)) <$> seq 0 n,
     (fun k => uniform_cdf (Z.of_nat k)) <$> seq 0 n).
Proof.
  induction n as [|n IH].
  - simpl. unfold Rdiv. rewrite !Rmult_0_l. reflexivity.
  - rewrite seq_S, !fmap_app, seqZ_S, foldl_app, IH.
    assert (He :
      (IZR (sum_below (counter_get totalCounter) n) / IZR readBytesCount
       + IZR (counter_get totalCounter (byte_of_Z (0 + Z.of_nat n))) / IZR readBytesCount
       = empirical_cdf totalCounter readBytesCount (Z.of_nat n))%R).
    { unfold empirical_cdf. rewrite Nat2Z.id, Z.add_0_l. cbn [sum_below].
      rewrite plus_IZR. unfold Rdiv. ring. }
    assert (Ht :
      (IZR (Z.of_nat n) / 256 + IZR readBytesCount / 256 / IZR readBytesCount
       = uniform_cdf (Z.of_nat n))%R).
    { unfold uniform_cdf. rewrite plus_IZR. field. lra. }
    cbn [foldl ks_cdf_step fmap list_fmap Nat.add].
    change (of_int 256) with 256%R.
    change (@div R real_arith) with Rdiv. change (@add R real_arith) with Rplus.
    change (@of_int R real_arith) with IZR.
    rewrite He, Ht.
    assert (He' : empirical_cdf totalCounter readBytesCount (Z.of_nat n)
                  = (IZR (sum_below (counter_get totalCounter) (S n)) / IZR readBytesCount)%R).
    { unfold empirical_cdf. by rewrite Nat2Z.id. }
    assert (Ht' : uniform_cdf (Z.of_nat n) = (IZR (Z.of_nat (S n)) / 256)%R).
    { unfold uniform_cdf. do 2 f_equal. lia. }
    rewrite <- He', <- Ht'. reflexivity.
Qed.

Lemma ksDifferences_real :
  ksDifferences (F := R) totalCounter readBytesCount
  = (fun k => cdf_gap totalCounter readBytesCount (Z.of_nat k)) <$> seq 0 256.
Proof.
  unfold ksDifferences, ks_cdfs.
  change (seqZ 0 256) with (seqZ 0 (Z.of_nat 256)).
  change (of_int 0) with 0%R. rewrite ks_cdf_loop.
  rewrite zip_with_fmap_l, zip_with_fmap_r, zip_with_diag. reflexivity.
Qed.

Lemma ksDifferences_lookup (i : nat) (x : R) :
  ksDifferences (F := R) totalCounter readBytesCount !! i = Some x <->
  (i < 256)%nat /\ x = cdf_gap totalCounter readBytesCount (Z.of_nat i).
Proof.
  rewrite ksDifferences_real, list_lookup_fmap. split.
  - intros H. destruct (seq 0 256 !! i) as [k|] eqn:Hk; [|done].
    apply lookup_seq in Hk as [-> Hlt]. simpl in H. split; [done|congruence].
  - intros [Hlt ->]. rewrite (lookup_seq_lt _ _ _ Hlt). reflexivity.
Qed.

End KsReal.

(** *** The third loop

    The loop is correct for any comparison that behaves like "greater
    than" on the values it meets; [valid] singles those values out (all
    reals; all floats but NaN). *)
Section KsMax.

Context {F : Type} `{Arith F}.
Variable valid : F -> Prop.
Hypothesis gtb_irrefl : forall x, gtb x x = false.
Hypothesis gtb_asym : forall x y, gtb x y = true -> gtb y x = false.
Hypothesis gtb_pass :
  forall x s v, valid x -> gtb v s = true -> gtb x s = false -> gtb v x = true.

(** The loop keeps the first position of the largest value. *)
Lemma ks_max_loop (d0 : F) (l : list F) :
  valid d0 -> Forall valid l ->
  forall s p,
  foldl ks_max_step (d0, 0) (imap (fun idx value => (Z.of_nat idx, value)) l) = (s, p) ->
  gtb d0 s = false /\
  (forall i x, l !! i = Some x -> gtb x s = false) /\
  ((p = 0 /\ s = d0) \/
   (exists pn : nat, p = Z.of_nat pn /\ l !! pn = Some s /\ gtb s d0 = true /\
      forall i x, (i < pn)%nat -> l !! i = Some x -> gtb s x = true)).
Proof.
  intros Hd0. induction l as [|v l IH] using rev_ind; intros Hvalid s p Hrun.
  - simpl in Hrun. injection Hrun as <- <-.
    split; [apply gtb_irrefl|]. split; [intros i x Hi; by rewrite lookup_nil in Hi|].
    by left.
  - apply Forall_app in Hvalid as [Hvalid Hv].
    rewrite imap_app, foldl_app in Hrun. simpl in Hrun.
    destruct (foldl ks_max_step (d0, 0) (imap (fun idx value => (Z.of_nat idx, value)) l))
      as [s0 p0] eqn:Hprev.
    destruct (IH Hvalid s0 p0 eq_refl) as (Hd0s & Hall & Hpos).
    unfold ks_max_step in Hrun. simpl in Hrun.
    destruct (gtb v s0) eqn:Hcmp; injection Hrun as <- <-.
    + assert (Hbelow : forall i x, l !! i = Some x -> gtb v x = true).
      { intros i x Hi. apply (gtb_pass x s0 v); [|done|by apply (Hall i)].
        by apply (Forall_lookup_1 _ _ _ _ Hvalid Hi). }
      split; [by apply gtb_asym, (gtb_pass d0 s0 v)|]. split.
      * intros i x Hi. apply lookup_app_Some in Hi as [Hi|[_ Hi]].
        -- by apply gtb_asym, (Hbelow i).
        -- apply list_lookup_singleton_Some in Hi as [_ <-]. apply gtb_irrefl.
      * right. exists (length l). rewrite Nat.add_0_r.
        split; [done|]. split; [by rewrite lookup_app_r, Nat.sub_diag by lia|].
        split; [by apply (gtb_pass d0 s0 v)|]. intros i x Hlt Hi.
        rewrite lookup_app_l in Hi by done. by apply (Hbelow i).
    + split; [done|]. split.
      * intros i x Hi. apply lookup_app_Some in Hi as [Hi|[_ Hi]].
        -- by apply (Hall i).
        -- by apply list_lookup_singleton_Some in Hi as [_ <-].
      * destruct Hpos as [Hpos|(pn & Hp & Hpn & Hlt & Hbefore)]; [by left|].
        right. exists pn. split; [done|].
        split; [by apply lookup_app_l_Some|]. split; [done|].
        intros i x Hi Hx. apply (Hbefore i x Hi).
        rewrite lookup_app_l in Hx; [done|].
        apply lookup_lt_Some in Hpn. lia.
Qed.

Lemma ks_max_spec (l : list F) (d : F) (s : F) (p : Z) :
  l !! 0%nat = Some d -> Forall valid l -> ks_max l = (s, p) ->
  exists pn : nat,
    p = Z.of_nat pn /\ l !! pn = Some s /\
    (forall i x, l !! i = Some x -> gtb x s = false) /\
    (forall i x, (i < pn)%nat -> l !! i = Some x -> gtb s x = true).
Proof.
  intros Hhead Hvalid Hmax. unfold ks_max in Hmax.
  assert (Hnth : nth 0 l (of_int 0) = d).
  { destruct l as [|y l]; [done|]. simpl in *. congruence. }
  rewrite Hnth in Hmax.
  assert (Hd : valid d) by apply (Forall_lookup_1 _ _ _ _ Hvalid Hhead).
  destruct (ks_max_loop d l Hd Hvalid s p Hmax)
    as (_ & Hall & [[-> ->]|(pn & Hp & Hpn & _ & Hbefore)]).
  - exists 0%nat. repeat split; [done|done|]. intros i x Hi. lia.
  - exists pn. repeat split; done.
Qed.

End KsMax.

Section KsLength.

Context {F : Type} `{Arith F}.

(** The list of differences has one entry per byte value. *)
Lemma ks_cdf_loop_length (totalCounter : gmap byte Z) (readBytesCount : Z)
    (indices : list Z) (st : F * F * list F * list F) :
  length (foldl (ks_cdf_step totalCounter readBytesCount) st indices).1.2
  = (length st.1.2 + length indices)%nat /\
  length (foldl (ks_cdf_step totalCounter readBytesCount) st indices).2
  = (length st.2 + length indices)%nat.
Proof.
  revert st. induction indices as [|i indices IH]; intros st; simpl; [lia|].
  destruct (IH (ks_cdf_step totalCounter readBytesCount st i)) as [-> ->].
  destruct st as [[[e t] le] lt]. simpl. rewrite !length_app. simpl. lia.
Qed.

Lemma ksDifferences_length (totalCounter : gmap byte Z) (readBytesCount : Z) :
  length (ksDifferences totalCounter readBytesCount) = 256%nat.
Proof.
  unfold ksDifferences, ks_cdfs.
  pose proof (ks_cdf_loop_length totalCounter readBytesCount (seqZ 0 256)
                (of_int 0, of_int 0, [], [])) as [He Ht].
  destruct (foldl _ _ _) as [[[e t] le] lt]. simpl in *.
  rewrite length_zip_with, He, Ht. reflexivity.
Qed.

End KsLength.

(** The comparison of [float64], away from NaN. *)
Ltac compare_cases :=
  repeat match goal with
         | |- context [Z.compare ?a ?b] => destruct (Z.compare_spec a b)
         | |- context [Pos.compare_cont Eq ?a ?b] =>
             change (Pos.compare_cont Eq a b) with (Pos.compare a b)
         | |- context [Pos.compare ?a ?b] => destruct (Pos.compare_spec a b)
         end;
  simpl; try discriminate; try reflexivity; intros; try lia.

Lemma SFltb_irrefl (x : spec_float) : SFltb x x = false.
Proof.
  unfold SFltb, SFcompare. destruct x as [[]|[]| |[] m e]; try reflexivity; compare_cases.
Qed.

Lemma SFltb_asym (x y : spec_float) : SFltb x y = true -> SFltb y x = false.
Proof.
  unfold SFltb, SFcompare.
  destruct x as [[]|[]| |[] m1 e1], y as [[]|[]| |[] m2 e2];
    try discriminate; try reflexivity; compare_cases.
Qed.

Lemma SFltb_pass (x s v : spec_float) :
  x <> S754_nan -> SFltb s v = true -> SFltb s x = false -> SFltb x v = true.
Proof.
  unfold SFltb, SFcompare. intros Hx. revert Hx.
  destruct x as [[]|[]| |[] m1 e1], s as [[]|[]| |[] m2 e2], v as [[]|[]| |[] m3 e3];
    intros Hx; try discriminate; try reflexivity; try done; compare_cases.
Qed.

Lemma is_nan_false (x : float64) : is_nan x = false -> Prim2SF x <> S754_nan.
Proof.
  unfold is_nan. intros Hx Hnan. apply negb_false_iff in Hx.
  rewrite FloatAxioms.eqb_spec, Hnan in Hx. discriminate.
Qed.

Lemma fgt_irrefl (x : float64) : fgt x x = false.
Proof. unfold fgt. rewrite ltb_spec. apply SFltb_irrefl. Qed.

Lemma fgt_asym (x y : float64) : fgt x y = true -> fgt y x = false.
Proof. unfold fgt. rewrite !ltb_spec. apply SFltb_asym. Qed.

Lemma fgt_pass (x s v : float64) :
  is_nan x = false -> fgt v s = true -> fgt x s = false -> fgt v x = true.
Proof.
  unfold fgt. rewrite !ltb_spec. intros Hx. by apply SFltb_pass, is_nan_false.
Qed.

Lemma Rgtb_pass (x s v : R) : True -> Rgtb v s = true -> Rgtb x s = false -> Rgtb v x = true.
Proof. rewrite !Rgtb_true, Rgtb_false. lra. Qed.

Lemma Rgtb_irrefl (x : R) : Rgtb x x = false.
Proof. apply Rgtb_false. lra. Qed.

Lemma Rgtb_asym (x y : R) : Rgtb x y = true -> Rgtb y x = false.
Proof. rewrite Rgtb_true, Rgtb_false. lra. Qed.

Lemma cdf_gap_bounds (totalCounter : gmap byte Z) (readBytesCount i : Z) :
  0 < readBytesCount ->
  (forall b, 0 <= counter_get totalCounter b) ->
  counter_sum totalCounter = readBytesCount ->
  0 <= i < 256 ->
  (0 <= cdf_gap totalCounter readBytesCount i <= 1)%R.
Proof.
  intros Hpos Hnonneg Hsum Hi. unfold cdf_gap. split; [apply Rabs_pos|].
  assert (He : (0 <= empirical_cdf totalCounter readBytesCount i <= 1)%R).
  { unfold empirical_cdf.
    set (a := sum_below (counter_get totalCounter) (S (Z.to_nat i))).
    assert (Ha : 0 <= a <= readBytesCount).
    { split; [by apply sum_below_nonneg|].
      rewrite <- Hsum, counter_sum_by_byte_value.
      apply sum_below_mono; [done|lia]. }
    destruct Ha as [Ha0 HaN]. apply IZR_le in Ha0, HaN. apply IZR_lt in Hpos.
    assert (Hinv : (0 < / IZR readBytesCount)%R) by by apply Rinv_0_lt_compat.
    assert (Hone : (IZR readBytesCount * / IZR readBytesCount = 1)%R) by (field; lra).
    unfold Rdiv. split; nra. }
  assert (Hu : (0 <= uniform_cdf i <= 1)%R).
  { unfold uniform_cdf.
    assert (H1 : (0 <= IZR (i + 1) <= 256)%R) by (split; apply IZR_le; lia).
    lra. }
  apply Rabs_le. lra.
Qed.

(** The same call as the program runs it, on [float64]: for the four
    bytes "aaaa" the largest gap, 1 - 98/256, is at byte value 97. *)
Example KsTest_float64_aaaa :
  KsTest (F := float64) (countBytes ["a"; "a"; "a"; "a"]%byte) 4
  = (0.6171875%float, 97, 4, 0x1.a147ae147ae14p-1%float, 0x1.5c28f5c28f5c3p-1%float).
Proof. vm_compute. reflexivity. Qed.

(** ** The Kolmogorov test on [float64] *)

(** *** [float64] values and the real numbers they approximate *)


Lemma bpow_succ (e : Z) : bpow (e + 1) = (2 * bpow e)%R.
Proof. rewrite bpow_add. unfold bpow at 2. simpl. ring. Qed.

Lemma fvalue_pos (m : positive) (e : Z) : (0 < IZR (Z.pos m) * bpow e)%R.
Proof.
  pose proof (bpow_pos e). assert (0 < IZR (Z.pos m))%R by (apply IZR_lt; lia). nra.
Qed.

Lemma approx_pnormal (n : nat) (x : R) (f : float64) (m : positive) (e : Z) :
  (n <= 1000)%nat -> (bpow (-100) <= x <= bpow 100)%R ->
  Prim2SF f = S754_finite false m e ->
  closeN n x (IZR (Z.pos m) * bpow e) ->
  pnormal m e.
Proof.
  intros Hn Hx Hf Hc. apply valid_pnormal.
  - pose proof (Prim2SF_valid f) as Hv. rewrite Hf in Hv. exact Hv.
  - pose proof (fvalue_pos m e) as HV. pose proof (bpow_pos (-100)) as H100.
    apply closeN_eps in Hc; [|exact Hn|lra|lra].
    pose proof (bpow_succ (-101)) as H1. change (-101 + 1) with (-100) in H1.
    pose proof (bpow_succ 100) as H2. change (100 + 1) with 101 in H2.
    pose proof (bpow_le (-200) (-101) ltac:(lia)).
    pose proof (bpow_le 101 200 ltac:(lia)).
    pose proof (bpow_pos (-101)). pose proof (bpow_pos 100).
    unfold eps in Hc. split; nra.
Qed.

Lemma approx_nonneg (n : nat) (x : R) (f : float64) : approx n x f -> (0 <= x)%R.
Proof.
  intros [[-> _]|[[Hx _] _]]; [lra|]. pose proof (bpow_pos (-100)). lra.
Qed.

Lemma approx_mono (n n' : nat) (x : R) (f : float64) :
  (n <= n')%nat -> approx n x f -> approx n' x f.
Proof.
  intros Hn [H|[Hx (m & e & Hf & Hc)]]; [left; exact H|right].
  split; [exact Hx|]. exists m, e. split; [exact Hf|].
  apply (closeN_mono n n'); [exact Hn| |pose proof (fvalue_pos m e); lra|exact Hc].
  pose proof (bpow_pos (-100)). lra.
Qed.

Lemma float64_of_Z_0 : Prim2SF (float64_of_Z 0) = S754_zero false.
Proof. reflexivity. Qed.

Lemma approx_of_int (c : Z) :
  0 <= c <= int_max -> approx 1 (IZR c) (float64_of_Z c).
Proof.
  intros Hc. destruct c as [|p|p]; [left; split; reflexivity| |lia].
  right. unfold int_max in Hc.
  assert (Hd : Z.pos (digits2_pos p) <= 63) by (apply digits2_pos_le; lia).
  destruct (binary_round_close false p 0) as (m & e & Hr & Hb & Hclose); try lia.
  split.
  - rewrite (bpow_IZR 100) by lia. split.
    + eapply Rle_trans; [apply (bpow_le (-100) 0); lia|].
      change (bpow 0) with 1%R. apply IZR_le. lia.
    + apply IZR_le. change (2 ^ 100) with 1267650600228229401496703205376. lia.
  - exists m, e. split.
    + unfold float64_of_Z. cbn [binary_normalize]. rewrite Hr.
      apply Prim2SF_SF2Prim. exact Hb.
    + change (bpow 0) with 1%R in Hclose. rewrite Rmult_1_r in Hclose.
      destruct Hclose as [H1 H2]. unfold closeN. cbn [pow]. rewrite Rmult_1_r.
      split; assumption.
Qed.

Lemma Rdiv_nonneg (a b : R) : (0 <= a)%R -> (0 < b)%R -> (0 <= a / b)%R.
Proof.
  intros Ha Hb. unfold Rdiv. apply Rmult_le_pos; [exact Ha|].
  apply Rlt_le, Rinv_0_lt_compat. exact Hb.
Qed.

Lemma approx_div (n1 n2 : nat) (x y : R) (f g : float64) :
  (n1 + n2 + 1 <= 1000)%nat ->
  approx n1 x f -> approx n2 y g -> y <> 0%R ->
  (x = 0%R \/ (bpow (-100) <= x / y <= bpow 100)%R) ->
  approx (n1 + n2 + 1) (x / y) (f / g)%float.
Proof.
  intros Hn Hf Hg Hy Hrange.
  destruct Hg as [[Hy0 _]|[Hyr (m2 & e2 & Hg & Hcg)]]; [contradiction|].
  pose proof (approx_pnormal n2 y g m2 e2 ltac:(lia) Hyr Hg Hcg) as Hp2.
  pose proof (bpow_pos (-100)) as H100.
  destruct Hf as [[-> Hf]|[Hxr (m1 & e1 & Hf & Hcf)]].
  - left. split; [unfold Rdiv; ring|]. rewrite div_spec, Hf, Hg. reflexivity.
  - right. destruct Hrange as [->|Hrange]; [lra|]. split; [exact Hrange|].
    pose proof (approx_pnormal n1 x f m1 e1 ltac:(lia) Hxr Hf Hcf) as Hp1.
    destruct (SFdiv_close m1 e1 m2 e2 Hp1 Hp2) as (m & e & Hr & Hclose).
    exists m, e. split; [rewrite div_spec, Hf, Hg; exact Hr|].
    pose proof (fvalue_pos m1 e1) as HV1. pose proof (fvalue_pos m2 e2) as HV2.
    pose proof (fvalue_pos m e) as HV.
    set (V1 := (IZR (Z.pos m1) * bpow e1)%R) in *.
    set (V2 := (IZR (Z.pos m2) * bpow e2)%R) in *.
    replace (n1 + n2 + 1)%nat with (S (n1 + n2)) by lia.
    apply (close_closeN (n1 + n2) (x / y) (V1 / V2));
      [apply Rdiv_nonneg; lra|apply Rdiv_nonneg; lra|lra| |exact Hclose].
    destruct Hcf as [Hc1 Hc2], Hcg as [Hc3 Hc4].
    unfold closeN. rewrite pow_add.
    pose proof (pow_1u_ge_1 n1) as Hw1. pose proof (pow_1u_ge_1 n2) as Hw2.
    set (w1 := ((1 + u) ^ n1)%R) in *. set (w2 := ((1 + u) ^ n2)%R) in *.
    assert (Hypos : (0 < y)%R) by lra.
    split.
    + apply (Rmult_le_reg_r (y * V2)); [nra|].
      replace (x / y * (y * V2))%R with (x * V2)%R by (field; lra).
      replace (V1 / V2 * (w1 * w2) * (y * V2))%R with ((V1 * w1) * (y * w2))%R by (field; lra).
      apply Rmult_le_compat; lra.
    + apply (Rmult_le_reg_r (y * V2)); [nra|].
      replace (V1 / V2 * (y * V2))%R with (V1 * y)%R by (field; lra).
      replace (x / y * (w1 * w2) * (y * V2))%R with ((x * w1) * (V2 * w2))%R by (field; lra).
      apply Rmult_le_compat; lra.
Qed.

Lemma approx_add (n : nat) (x y : R) (f g : float64) :
  (S n <= 1000)%nat ->
  approx n x f -> approx n y g -> (x + y <= bpow 100)%R ->
  approx (S n) (x + y) (f + g)%float.
Proof.
  intros Hn Hf Hg Hrange.
  pose proof (bpow_pos (-100)) as H100.
  destruct Hf as [[-> Hf]|[Hxr (m1 & e1 & Hf & Hcf)]];
    destruct Hg as [[-> Hg]|[Hyr (m2 & e2 & Hg & Hcg)]].
  - left. split; [lra|]. rewrite add_spec, Hf, Hg. reflexivity.
  - rewrite Rplus_0_l. apply (approx_mono n); [lia|].
    right. split; [exact Hyr|]. exists m2, e2. split; [|exact Hcg].
    rewrite add_spec, Hf, Hg. reflexivity.
  - rewrite Rplus_0_r. apply (approx_mono n); [lia|].
    right. split; [exact Hxr|]. exists m1, e1. split; [|exact Hcf].
    rewrite add_spec, Hf, Hg. reflexivity.
  - right. split; [lra|].
    pose proof (approx_pnormal n x f m1 e1 ltac:(lia) Hxr Hf Hcf) as Hp1.
    pose proof (approx_pnormal n y g m2 e2 ltac:(lia) Hyr Hg Hcg) as Hp2.
    destruct (SFadd_close m1 e1 m2 e2 Hp1 Hp2) as (m & e & Hr & Hclose).
    exists m, e. split; [rewrite add_spec, Hf, Hg; exact Hr|].
    pose proof (fvalue_pos m1 e1) as HV1. pose proof (fvalue_pos m2 e2) as HV2.
    pose proof (fvalue_pos m e) as HV.
    apply (close_closeN n (x + y) (IZR (Z.pos m1) * bpow e1 + IZR (Z.pos m2) * bpow e2));
      [lra|lra|lra| |exact Hclose].
    destruct Hcf as [Hc1 Hc2], Hcg as [Hc3 Hc4]. unfold closeN. split; nra.
Qed.

Lemma approx_fval (n : nat) (x : R) (f : float64) :
  (n <= 1000)%nat -> approx n x f ->
  (0 <= fval f /\ x <= fval f * (1 + eps) /\ fval f <= x * (1 + eps))%R.
Proof.
  intros Hn [[-> Hf]|[Hxr (m & e & Hf & Hc)]]; unfold fval; rewrite Hf; cbn [SF2R].
  - lra.
  - pose proof (fvalue_pos m e). pose proof (bpow_pos (-100)).
    split; [lra|]. apply (closeN_eps n); [exact Hn|lra|lra|exact Hc].
Qed.

Lemma abs_sub_bound (n1 n2 : nat) (x y : R) (f g : float64) :
  (n1 <= 1000)%nat -> (n2 <= 1000)%nat ->
  approx n1 x f -> approx n2 y g ->
  nonneg_finite (abs (f - g))%float /\
  (fval (abs (f - g))%float <= Rabs (fval f - fval g) * (1 + u))%R /\
  (Rabs (fval f - fval g) <= fval (abs (f - g))%float * (1 + u))%R.
Proof.
  intros Hn1 Hn2 Hf Hg. unfold fval, nonneg_finite. rewrite abs_spec, sub_spec.
  unfold SF64sub.
  pose proof u_pos as Hu.
  destruct Hf as [[-> Hf]|[Hxr (m1 & e1 & Hf & Hcf)]];
    destruct Hg as [[-> Hg]|[Hyr (m2 & e2 & Hg & Hcg)]]; rewrite Hf, Hg.
  - cbn. split; [left; reflexivity|]. rewrite Rminus_0_r, Rabs_R0. lra.
  - cbn. split; [right; eauto|]. pose proof (fvalue_pos m2 e2).
    rewrite Rminus_0_l, Rabs_Ropp, Rabs_pos_eq by lra. nra.
  - cbn. split; [right; eauto|]. pose proof (fvalue_pos m1 e1).
    rewrite Rminus_0_r, Rabs_pos_eq by lra. nra.
  - pose proof (approx_pnormal n1 x f m1 e1 Hn1 Hxr Hf Hcf) as Hp1.
    pose proof (approx_pnormal n2 y g m2 e2 Hn2 Hyr Hg Hcg) as Hp2.
    destruct (SFsub_close m1 e1 m2 e2 Hp1 Hp2) as [[-> Heq]|(s & m & e & -> & Hclose)].
    + cbn [SFabs SF2R]. split; [left; reflexivity|].
      rewrite Heq, Rminus_diag, Rabs_R0. lra.
    + cbn [SFabs SF2R]. split; [right; eauto|]. destruct Hclose as [H1 H2].
      split; assumption.
Qed.


(** Comparisons of a float that is +0 or positive and finite *)
Lemma nonneg_finite_not_nan (f : float64) : nonneg_finite f -> is_nan f = false.
Proof.
  intros Hf. unfold is_nan. apply negb_false_iff.
  rewrite FloatAxioms.eqb_spec.
  destruct Hf as [->|(m & e & ->)]; [reflexivity|].
  unfold SFeqb, SFcompare. rewrite Z.compare_refl, Pos.compare_cont_refl. reflexivity.
Qed.

Lemma nonneg_finite_ge_0 (f : float64) : nonneg_finite f -> fle 0%float f = true.
Proof.
  intros Hf. unfold fle. rewrite leb_spec.
  change (Prim2SF 0%float) with (S754_zero false).
  destruct Hf as [->|(m & e & ->)]; reflexivity.
Qed.

Lemma nonneg_finite_le_1 (f : float64) :
  nonneg_finite f -> (fval f <= 1)%R -> fle f 1%float = true.
Proof.
  intros Hf Hv. unfold fle. rewrite leb_spec.
  change (Prim2SF 1%float) with (S754_finite false 4503599627370496 (-52)).
  pose proof (Prim2SF_valid f) as Hvalid. unfold fval in Hv.
  destruct Hf as [Hf|(m & e & Hf)]; rewrite Hf in *; [reflexivity|].
  cbn [SF2R] in Hv. cbn [valid_binary] in Hvalid.
  unfold SFleb, SFcompare.
  destruct (Z.compare_spec e (-52)) as [->|Hlt|Hgt]; [|reflexivity|].
  - rewrite Pos.compare_cont_spec.
    assert (Hm : Z.pos m <= 4503599627370496).
    { apply le_IZR. apply (Rmult_le_reg_r (bpow (-52))); [apply bpow_pos|].
      eapply Rle_trans; [exact Hv|].
      replace (IZR 4503599627370496) with (bpow 52)
        by (rewrite (bpow_IZR 52) by lia; reflexivity).
      rewrite <- bpow_add. change (52 + -52) with 0. unfold bpow. simpl. lra. }
    destruct (Pos.compare_spec m 4503599627370496); [reflexivity|reflexivity|lia].
  - exfalso. unfold SpecFloat.bounded, canonical_mantissa in Hvalid.
    apply andb_prop in Hvalid as [Hc _]. apply Z.eqb_eq in Hc.
    pose proof (digits2_pos_bounds m) as [Hm1 _].
    rewrite fexp_normal in Hc by lia.
    replace (Z.pos (digits2_pos m) - 1) with 52 in Hm1 by lia.
    assert (H2 : (2 <= IZR (Z.pos m) * bpow e)%R).
    { replace 2%R with (IZR (2 ^ 52) * bpow (-51))%R.
      - apply Rmult_le_compat; [apply IZR_le; lia|apply Rlt_le, bpow_pos|
                                 apply IZR_le; exact Hm1|apply bpow_le; lia].
      - rewrite <- (bpow_IZR 52), <- bpow_add by lia. change (52 + -51) with 1.
        unfold bpow. simpl. lra. }
    lra.
Qed.


(** *** The first loop of [KsTest] on [float64] *)
Section KsFloat.

Variable totalCounter : gmap byte Z.
Variable readBytesCount : Z.
Hypothesis total_positive : 0 < readBytesCount <= int_max.
Hypothesis counts_nonneg : forall b, 0 <= counter_get totalCounter b.
Hypothesis counts_total : counter_sum totalCounter = readBytesCount.

Lemma KsFloat_N_bounds : (1 <= IZR readBytesCount <= IZR (2 ^ 63))%R.
Proof.
  unfold int_max in total_positive. split; apply IZR_le; lia.
Qed.

Lemma sum_below_le_total (n : nat) :
  (n <= 256)%nat -> 0 <= sum_below (counter_get totalCounter) n <= readBytesCount.
Proof.
  intros Hn. split; [apply sum_below_nonneg; exact counts_nonneg|].
  rewrite <- counts_total, counter_sum_by_byte_value.
  apply sum_below_mono; [exact counts_nonneg|exact Hn].
Qed.

Lemma count_le_total (b : byte) : counter_get totalCounter b <= readBytesCount.
Proof.
  pose proof (byte_to_Z_range b) as Hb.
  pose proof (sum_below_le_total (S (Z.to_nat (byte_to_Z b))) ltac:(lia)) as [_ H].
  cbn [sum_below] in H. rewrite Z2Nat.id, byte_of_to_Z in H by lia.
  pose proof (sum_below_nonneg (counter_get totalCounter) (Z.to_nat (byte_to_Z b))
                counts_nonneg). lia.
Qed.

Lemma bpow_neg (k : Z) : bpow (- k) = (/ bpow k)%R.
Proof. apply powerRZ_neg'. Qed.

Lemma bpow_m100_small : (bpow (-100) <= / IZR (2 ^ 63))%R.
Proof.
  eapply Rle_trans; [apply (bpow_le (-100) (-63)); lia|].
  change (-63) with (Z.opp 63). rewrite bpow_neg, (bpow_IZR 63) by lia. lra.
Qed.

Lemma bpow_100_big : (IZR (2 ^ 63) <= bpow 100)%R.
Proof.
  rewrite <- (bpow_IZR 63) by lia. apply bpow_le. lia.
Qed.

(** One term of the empirical sum. *)
Lemma approx_frequency (b : byte) :
  approx 3 (IZR (counter_get totalCounter b) / IZR readBytesCount)
         (float64_of_Z (counter_get totalCounter b) / float64_of_Z readBytesCount)%float.
Proof.
  pose proof KsFloat_N_bounds as HN. pose proof (counts_nonneg b) as Hc0.
  pose proof (count_le_total b) as HcN.
  pose proof bpow_m100_small as Hsmall. pose proof bpow_100_big as Hbig.
  assert (H63 : (0 < IZR (2 ^ 63))%R) by (apply IZR_lt; lia).
  apply (approx_div 1 1); [lia| | | |].
  - apply approx_of_int. lia.
  - apply approx_of_int. lia.
  - lra.
  - destruct (Z.eq_dec (counter_get totalCounter b) 0) as [->|Hne]; [left; reflexivity|].
    right.
    assert (Hc1 : (1 <= IZR (counter_get totalCounter b) <= IZR readBytesCount)%R).
    { split; apply IZR_le; lia. }
    assert (HinvN : (/ IZR (2 ^ 63) <= / IZR readBytesCount)%R) by (apply Rinv_le_contravar; lra).
    assert (HinvN1 : (/ IZR readBytesCount <= 1)%R).
    { rewrite <- Rinv_1. apply Rinv_le_contravar; lra. }
    assert (HinvNpos : (0 < / IZR readBytesCount)%R) by (apply Rinv_0_lt_compat; lra).
    unfold Rdiv. split; [nra|].
    assert (IZR (counter_get totalCounter b) * / IZR readBytesCount <= 1)%R.
    { apply (Rmult_le_reg_r (IZR readBytesCount)); [lra|]. rewrite Rmult_assoc, Rinv_l by lra. lra. }
    lra.
Qed.

(** One term of the theoretical sum. *)
Lemma approx_uniform_step :
  approx 5 (/ 256)
         (float64_of_Z readBytesCount / float64_of_Z 256 / float64_of_Z readBytesCount)%float.
Proof.
  pose proof KsFloat_N_bounds as HN.
  pose proof bpow_m100_small as Hsmall. pose proof bpow_100_big as Hbig.
  assert (H63 : (0 < IZR (2 ^ 63))%R) by (apply IZR_lt; lia).
  assert (H63' : (/ IZR (2 ^ 63) <= / 256)%R).
  { apply Rinv_le_contravar; [lra|]. apply IZR_le. lia. }
  replace (/ 256)%R with (IZR readBytesCount / 256 / IZR readBytesCount)%R by (field; lra).
  apply (approx_div 3 1); [lia| | | |].
  - apply (approx_div 1 1); [lia| | | |].
    + apply approx_of_int. lia.
    + apply approx_of_int. unfold int_max. lia.
    + lra.
    + right. unfold Rdiv. split; [|lra].
      assert (/ 256 <= IZR readBytesCount * / 256)%R by lra. lra.
  - apply approx_of_int. lia.
  - lra.
  - right. replace (IZR readBytesCount / 256 / IZR readBytesCount)%R with (/ 256)%R by (field; lra).
    assert (1 <= IZR (2 ^ 63))%R by (apply IZR_le; lia). lra.
Qed.

Lemma running_sum_bounds (n : nat) :
  (n <= 256)%nat -> (0 <= running_sum totalCounter readBytesCount n <= 1)%R.
Proof.
  intros Hn. pose proof KsFloat_N_bounds as HN.
  pose proof (sum_below_le_total n Hn) as [H0 H1].
  apply IZR_le in H0, H1. unfold running_sum. split.
  - apply Rdiv_nonneg; lra.
  - apply (Rmult_le_reg_r (IZR readBytesCount)); [lra|]. unfold Rdiv.
    rewrite Rmult_assoc, Rinv_l by lra. lra.
Qed.

Lemma ks_cdf_float_loop (n : nat) :
  (n <= 256)%nat ->
  exists e t le lt,
    foldl (ks_cdf_step (F := float64) totalCounter readBytesCount)
          (float64_of_Z 0, float64_of_Z 0, [], []) (seqZ 0 (Z.of_nat n))
    = (e, t, le, lt) /\
    approx (n + 5) (running_sum totalCounter readBytesCount n) e /\
    approx (n + 5) (IZR (Z.of_nat n) / 256) t /\
    (forall k x, le !! k = Some x -> (k < n)%nat /\ approx 300 (running_sum totalCounter readBytesCount (S k)) x) /\
    (forall k x, lt !! k = Some x -> (k < n)%nat /\ approx 300 (IZR (Z.of_nat (S k)) / 256) x).
Proof.
  induction n as [|n IH]; intros Hn.
  - exists (float64_of_Z 0), (float64_of_Z 0), [], []. split; [reflexivity|].
    split; [left; split; [unfold running_sum; simpl; unfold Rdiv; ring|reflexivity]|].
    split; [left; split; [simpl; unfold Rdiv; ring|reflexivity]|].
    split; intros k x Hk; rewrite lookup_nil in Hk; discriminate.
  - destruct (IH ltac:(lia)) as (e & t & le & lt & Hrun & He & Ht & Hle & Hlt).
    rewrite seqZ_S, foldl_app, Hrun.
    cbn [foldl ks_cdf_step]. rewrite Z.add_0_l.
    change (@div float64 float64_arith) with PrimFloat.div.
    change (@add float64 float64_arith) with PrimFloat.add.
    change (@of_int float64 float64_arith) with float64_of_Z.
    set (q := (float64_of_Z (counter_get totalCounter (byte_of_Z (Z.of_nat n)))
               / float64_of_Z readBytesCount)%float).
    set (s := (float64_of_Z readBytesCount / float64_of_Z 256
               / float64_of_Z readBytesCount)%float).
    assert (He' : approx (S n + 5) (running_sum totalCounter readBytesCount (S n)) (e + q)%float).
    { assert (Heq : running_sum totalCounter readBytesCount (S n)
                    = (running_sum totalCounter readBytesCount n
                       + IZR (counter_get totalCounter (byte_of_Z (Z.of_nat n))) / IZR readBytesCount)%R).
      { unfold running_sum. cbn [sum_below]. rewrite plus_IZR. unfold Rdiv. ring. }
      pose proof (running_sum_bounds (S n) Hn) as Hb.
      rewrite Heq in *. apply (approx_add (n + 5)); [lia|exact He| |].
      - apply (approx_mono 3); [lia|]. apply approx_frequency.
      - eapply Rle_trans; [apply Hb|]. change 1%R with (bpow 0). apply bpow_le. lia. }
    assert (Ht' : approx (S n + 5) (IZR (Z.of_nat (S n)) / 256) (t + s)%float).
    { replace (IZR (Z.of_nat (S n)) / 256)%R with (IZR (Z.of_nat n) / 256 + / 256)%R
        by (rewrite Nat2Z.inj_succ, succ_IZR; field).
      apply (approx_add (n + 5)); [lia|exact Ht| |].
      - apply (approx_mono 5); [lia|]. apply approx_uniform_step.
      - assert (IZR (Z.of_nat n) <= 256)%R by (apply IZR_le; lia).
        assert (1 <= bpow 100)%R by (change 1%R with (bpow 0); apply bpow_le; lia).
        pose proof (bpow_succ 100). pose proof (bpow_le 100 101 ltac:(lia)).
        assert (2 <= bpow 100)%R.
        { eapply Rle_trans; [|apply (bpow_le 1 100); lia]. unfold bpow. simpl. lra. }
        lra. }
    exists (e + q)%float, (t + s)%float, (le ++ [(e + q)%float]), (lt ++ [(t + s)%float]).
    split; [reflexivity|]. split; [exact He'|]. split; [exact Ht'|].
    assert (Hlen : length le = n /\ length lt = n).
    { pose proof (ks_cdf_loop_length (F := float64) totalCounter readBytesCount
                    (seqZ 0 (Z.of_nat n)) (float64_of_Z 0, float64_of_Z 0, [], [])) as [H1 H2].
      rewrite Hrun in H1, H2. cbn in H1, H2. rewrite length_seqZ in H1, H2. lia. }
    destruct Hlen as [Hlen1 Hlen2].
    split; intros k x Hk; apply lookup_app_Some in Hk as [Hk|[Hge Hk]].
    + destruct (Hle k x Hk). split; [lia|assumption].
    + apply list_lookup_singleton_Some in Hk as [Hk <-].
      assert (k = n) as -> by lia. split; [lia|].
      apply (approx_mono (S n + 5)); [lia|exact He'].
    + destruct (Hlt k x Hk). split; [lia|assumption].
    + apply list_lookup_singleton_Some in Hk as [Hk <-].
      assert (k = n) as -> by lia. split; [lia|].
      apply (approx_mono (S n + 5)); [lia|exact Ht'].
Qed.

End KsFloat.


Lemma gap_bound (s t ve vt d : R) :
  (0 <= s <= 1)%R -> (/ 256 <= t <= 1)%R ->
  (t <= 255 / 256 \/ (t = 1 /\ s = 1))%R ->
  (0 <= ve)%R -> (s <= ve * (1 + eps))%R -> (ve <= s * (1 + eps))%R ->
  (0 <= vt)%R -> (t <= vt * (1 + eps))%R -> (vt <= t * (1 + eps))%R ->
  (d <= Rabs (ve - vt) * (1 + u))%R ->
  (d <= 1)%R.
Proof.
  intros Hs Ht Hcase Hve0 Hse Hve Hvt0 Hte Hvt Hd.
  assert (Hu : (0 < u <= / 1000)%R) by (unfold u; lra).
  assert (Habs : (Rabs (ve - vt) <= 999 / 1000)%R).
  { unfold eps in *. apply Rabs_le. destruct Hcase as [Hlt|[-> ->]]; split; nra. }
  pose proof (Rabs_pos (ve - vt)). nra.
Qed.

Lemma gap_accuracy (s t ve vt d : R) :
  (0 <= s <= 1)%R -> (0 <= t <= 1)%R ->
  (0 <= ve)%R -> (s <= ve * (1 + eps))%R -> (ve <= s * (1 + eps))%R ->
  (0 <= vt)%R -> (t <= vt * (1 + eps))%R -> (vt <= t * (1 + eps))%R ->
  (0 <= d)%R ->
  (d <= Rabs (ve - vt) * (1 + u))%R -> (Rabs (ve - vt) <= d * (1 + u))%R ->
  (Rabs (d - Rabs (s - t)) <= delta)%R.
Proof.
  intros Hs Ht Hve0 Hse Hve Hvt0 Hte Hvt Hd0 Hd1 Hd2.
  unfold eps, u, delta in *. unfold Rabs in *.
  repeat destruct Rcase_abs; lra.
Qed.

(** The order of [float64] on numbers that are +0 or positive. *)
Lemma bounded_digits (m : positive) (e : Z) :
  SpecFloat.bounded prec emax m e = true ->
  Z.pos (digits2_pos m) <= 53 /\ -1074 <= e /\
  (-1074 < e -> Z.pos (digits2_pos m) = 53).
Proof.
  unfold SpecFloat.bounded, canonical_mantissa, fexp, SpecFloat.emin, prec, emax.
  intros H. apply andb_prop in H as [H _]. apply Z.eqb_eq in H. lia.
Qed.

Lemma fgt_false_le (x y : float64) :
  nonneg_finite x -> nonneg_finite y -> fgt x y = false -> (fval x <= fval y)%R.
Proof.
  intros Hx Hy. unfold fgt, fval. rewrite ltb_spec.
  pose proof (Prim2SF_valid x) as Hvx. pose proof (Prim2SF_valid y) as Hvy.
  destruct Hx as [Hx|(m1 & e1 & Hx)], Hy as [Hy|(m2 & e2 & Hy)];
    rewrite Hx, Hy in *; cbn [SF2R valid_binary] in *.
  - lra.
  - intros _. pose proof (fvalue_pos m2 e2). lra.
  - discriminate.
  - unfold SFltb, SFcompare.
    destruct (bounded_digits m1 e1 Hvx) as (Hd1 & He1 & _).
    destruct (bounded_digits m2 e2 Hvy) as (_ & _ & Hd2).
    pose proof (digits2_pos_bounds m1) as [_ Hm1].
    pose proof (digits2_pos_bounds m2) as [Hm2 _].
    pose proof (bpow_pos e1) as Hb1.
    destruct (Z.compare_spec e2 e1) as [->|Hlt|Hgt]; [|discriminate|].
    + rewrite Pos.compare_cont_spec.
      destruct (Pos.compare_spec m2 m1) as [->|Hlt|Hgt]; cbn; [lra|discriminate|].
      intros _. apply Rmult_le_compat_r; [lra|]. apply IZR_le. lia.
    + intros _. rewrite (Hd2 ltac:(lia)) in Hm2. change (53 - 1) with 52 in Hm2.
      assert (H1 : (IZR (Z.pos m1) * bpow e1 <= bpow (53 + e1))%R).
      { rewrite bpow_add, (bpow_IZR 53) by lia.
        apply Rmult_le_compat_r; [lra|]. apply IZR_le.
        assert (2 ^ Z.pos (digits2_pos m1) <= 2 ^ 53) by (apply Z.pow_le_mono_r; lia).
        lia. }
      assert (H2 : (bpow (52 + e2) <= IZR (Z.pos m2) * bpow e2)%R).
      { rewrite bpow_add, (bpow_IZR 52) by lia.
        apply Rmult_le_compat_r; [apply Rlt_le, bpow_pos|]. apply IZR_le. exact Hm2. }
      pose proof (bpow_le (53 + e1) (52 + e2) ltac:(lia)). lra.
Qed.

Section KsFloatResult.

Variable totalCounter : gmap byte Z.
Variable readBytesCount : Z.
Hypothesis total_positive : 0 < readBytesCount <= int_max.
Hypothesis counts_nonneg : forall b, 0 <= counter_get totalCounter b.
Hypothesis counts_total : counter_sum totalCounter = readBytesCount.

(** Every difference the second loop computes is a number between 0 and 1,
    within [delta] of the gap between the two distribution functions. *)
Lemma ksDifferences_float_range (k : nat) (x : float64) :
  ksDifferences (F := float64) totalCounter readBytesCount !! k = Some x ->
  nonneg_finite x /\ (fval x <= 1)%R /\
  (Rabs (fval x - cdf_gap totalCounter readBytesCount (Z.of_nat k)) <= delta)%R.
Proof.
  unfold ksDifferences, ks_cdfs.
  change (seqZ 0 256) with (seqZ 0 (Z.of_nat 256)).
  change (@of_int float64 float64_arith 0) with (float64_of_Z 0).
  destruct (ks_cdf_float_loop totalCounter readBytesCount total_positive counts_nonneg
              counts_total 256 ltac:(lia))
    as (e & t & le & lt & -> & _ & _ & Hle & Hlt).
  intros Hx. apply lookup_zip_with_Some in Hx as (a & b & -> & Ha & Hb).
  destruct (Hle k a Ha) as [Hk Haa]. destruct (Hlt k b Hb) as [_ Hbb].
  change (@absF float64 float64_arith) with PrimFloat.abs.
  change (@sub float64 float64_arith) with PrimFloat.sub.
  destruct (abs_sub_bound 300 300 _ _ a b ltac:(lia) ltac:(lia) Haa Hbb) as (Hfin & Hd & Hd').
  split; [exact Hfin|].
  destruct (approx_fval 300 _ a ltac:(lia) Haa) as (Ha0 & Ha1 & Ha2).
  destruct (approx_fval 300 _ b ltac:(lia) Hbb) as (Hb0 & Hb1 & Hb2).
  pose proof (running_sum_bounds totalCounter readBytesCount total_positive counts_nonneg
                counts_total (S k) ltac:(lia)) as Hs.
  assert (Hk1 : (1 <= IZR (Z.of_nat (S k)) <= 256)%R) by (split; apply IZR_le; lia).
  split.
  - apply (gap_bound (running_sum totalCounter readBytesCount (S k))
                     (IZR (Z.of_nat (S k)) / 256) (fval a) (fval b));
      [exact Hs|lra| |exact Ha0|exact Ha1|exact Ha2|exact Hb0|exact Hb1|exact Hb2|exact Hd].
    destruct (decide (S k = 256)%nat) as [Heq|Hne].
    + right. rewrite Heq. split; [change (Z.of_nat 256) with 256; lra|].
      unfold running_sum. rewrite <- counter_sum_by_byte_value, counts_total.
      pose proof (KsFloat_N_bounds readBytesCount total_positive). field. lra.
    + left. assert (IZR (Z.of_nat (S k)) <= 255)%R by (apply IZR_le; lia). lra.
  - assert (Hgap : cdf_gap totalCounter readBytesCount (Z.of_nat k)
                   = Rabs (running_sum totalCounter readBytesCount (S k)
                           - IZR (Z.of_nat (S k)) / 256)).
    { unfold cdf_gap, empirical_cdf, uniform_cdf, running_sum.
      rewrite Nat2Z.id, Nat2Z.inj_succ. reflexivity. }
    rewrite Hgap.
    assert (Hfv0 : (0 <= fval (abs (a - b)))%R).
    { destruct Hfin as [H0|(m & e0 & H0)]; unfold fval; rewrite H0; cbn [SF2R]; [lra|].
      pose proof (fvalue_pos m e0). lra. }
    apply (gap_accuracy _ _ (fval a) (fval b)); try assumption. lra.
Qed.

End KsFloatResult.

(** X2.  On [float64], as the program runs: for a histogram with
    non-negative counts that add up to a positive total within the range of
    [int], the statistic [KsTest] returns is a number, not NaN, between 0
    and 1; the position is among the byte values 0..255; the statistic is
    the difference computed at that position; no computed difference is
    greater, and every difference at a smaller byte value is smaller. *)
Theorem KsTest_float64_statistic_in_unit_interval
    (totalCounter : gmap byte Z) (readBytesCount : Z) :
  0 < readBytesCount <= int_max ->
  (forall b, 0 <= counter_get totalCounter b) ->
  counter_sum totalCounter = readBytesCount ->
  let differences := ksDifferences (F := float64) totalCounter readBytesCount in
  let '(ksStatistic, maxDiffPosition, _, _, _) :=
    KsTest (F := float64) totalCounter readBytesCount in
  is_nan ksStatistic = false /\
  fle 0%float ksStatistic = true /\
  fle ksStatistic 1%float = true /\
  0 <= maxDiffPosition < 256 /\
  differences !! Z.to_nat maxDiffPosition = Some ksStatistic /\
  (forall i x, differences !! i = Some x -> fgt x ksStatistic = false) /\
  (forall i x, (i < Z.to_nat maxDiffPosition)%nat -> differences !! i = Some x ->
               flt x ksStatistic = true).
Proof.
  intros Hpos Hnonneg Hsum differences. unfold KsTest. fold differences.
  destruct (ks_max differences) as [s p] eqn:Hmax.
  assert (Hlen : length differences = 256%nat) by apply ksDifferences_length.
  destruct (differences !! 0%nat) as [d|] eqn:Hhead.
  2:{ apply lookup_ge_None in Hhead. lia. }
  assert (Hrange : forall k x, differences !! k = Some x -> nonneg_finite x /\ (fval x <= 1)%R).
  { intros k x Hx.
    destruct (ksDifferences_float_range totalCounter readBytesCount Hpos Hnonneg Hsum k x Hx)
      as (H1 & H2 & _).
    split; assumption. }
  assert (Hvalid : Forall (fun x => is_nan x = false) differences).
  { apply Forall_lookup. intros k x Hx. apply nonneg_finite_not_nan, (Hrange k x Hx). }
  destruct (@ks_max_spec float64 float64_arith (fun x => is_nan x = false)
              fgt_irrefl fgt_asym fgt_pass
              differences d s p Hhead Hvalid Hmax) as (pn & -> & Hpn & Hall & Hbefore).
  pose proof (lookup_lt_Some _ _ _ Hpn) as Hlt.
  destruct (Hrange pn s Hpn) as [Hfin Hle].
  rewrite Nat2Z.id.
  split; [apply nonneg_finite_not_nan; exact Hfin|].
  split; [apply nonneg_finite_ge_0; exact Hfin|].
  split; [apply nonneg_finite_le_1; assumption|].
  split; [lia|]. split; [exact Hpn|]. split; [exact Hall|].
  intros i x Hi Hx. exact (Hbefore i x Hi Hx).
Qed.

Lemma KsTest_float64_statistic_in_unit_interval_witness :
  let totalCounter := countBytes ["a"; "a"; "a"; "a"]%byte in
  let differences := ksDifferences (F := float64) totalCounter 4 in
  let '(ksStatistic, maxDiffPosition, _, _, _) := KsTest (F := float64) totalCounter 4 in
  is_nan ksStatistic = false /\
  fle 0%float ksStatistic = true /\
  fle ksStatistic 1%float = true /\
  0 <= maxDiffPosition < 256 /\
  differences !! Z.to_nat maxDiffPosition = Some ksStatistic /\
  (forall i x, differences !! i = Some x -> fgt x ksStatistic = false) /\
  (forall i x, (i < Z.to_nat maxDiffPosition)%nat -> differences !! i = Some x ->
               flt x ksStatistic = true).
Proof.
  apply (KsTest_float64_statistic_in_unit_interval (countBytes ["a"; "a"; "a"; "a"]%byte) 4).
  - vm_compute. split; [reflexivity|discriminate].
  - intros b. rewrite countBytes_get. apply occurrences_nonneg.
  - apply countBytes_sum.
Defined.

Lemma Rabs_le_bounds (x a : R) : (Rabs x <= a)%R -> (- a <= x <= a)%R.
Proof. unfold Rabs. destruct (Rcase_abs x); lra. Qed.

(** X3.  The statistic of the [float64] run is within [delta] (1e-8) of
    the statistic in exact arithmetic, the largest gap between the empirical
    and the uniform distribution function; and the exact gap at the reported
    position is within twice that of the largest gap. *)
Theorem KsTest_float64_accuracy (totalCounter : gmap byte Z) (readBytesCount : Z) :
  0 < readBytesCount <= int_max ->
  (forall b, 0 <= counter_get totalCounter b) ->
  counter_sum totalCounter = readBytesCount ->
  let '(ksStatistic, maxDiffPosition, _, _, _) :=
    KsTest (F := float64) totalCounter readBytesCount in
  let '(exactStatistic, _, _, _, _) :=
    KsTest (F := R) totalCounter readBytesCount in
  (Rabs (fval ksStatistic - exactStatistic) <= delta)%R /\
  (forall i, 0 <= i < 256 -> (cdf_gap totalCounter readBytesCount i <= exactStatistic)%R) /\
  (exactStatistic - 2 * delta <= cdf_gap totalCounter readBytesCount maxDiffPosition)%R.
Proof.
  intros Hpos Hnonneg Hsum. unfold KsTest.
  assert (Hpos' : 0 < readBytesCount) by lia.
  (* the float run *)
  set (differences := ksDifferences (F := float64) totalCounter readBytesCount).
  destruct (ks_max differences) as [s p] eqn:Hmax.
  assert (Hlen : length differences = 256%nat) by apply ksDifferences_length.
  destruct (differences !! 0%nat) as [d|] eqn:Hhead.
  2:{ apply lookup_ge_None in Hhead. lia. }
  pose proof (ksDifferences_float_range totalCounter readBytesCount Hpos Hnonneg Hsum)
    as Hrange. fold differences in Hrange.
  assert (Hvalid : Forall (fun x => is_nan x = false) differences).
  { apply Forall_lookup. intros k x Hx. apply nonneg_finite_not_nan, (Hrange k x Hx). }
  destruct (@ks_max_spec float64 float64_arith (fun x => is_nan x = false)
              fgt_irrefl fgt_asym fgt_pass
              differences d s p Hhead Hvalid Hmax) as (pn & -> & Hpn & Hall & _).
  pose proof (lookup_lt_Some _ _ _ Hpn) as Hlt. rewrite Hlen in Hlt.
  (* the exact run *)
  destruct (ks_max (ksDifferences (F := R) totalCounter readBytesCount))
    as [sR pR] eqn:HmaxR.
  destruct (@ks_max_spec R real_arith (fun _ => True) Rgtb_irrefl Rgtb_asym Rgtb_pass
              (ksDifferences totalCounter readBytesCount)
              (cdf_gap totalCounter readBytesCount 0) sR pR) as
    (pm & -> & Hpm & HallR & _); [| |exact HmaxR|].
  { apply ksDifferences_lookup; [exact Hpos'|]. split; [lia|reflexivity]. }
  { apply Forall_forall. intros; exact I. }
  apply ksDifferences_lookup in Hpm as [Hltm ->]; [|exact Hpos'].
  assert (HmaxGap : forall i, 0 <= i < 256 ->
            (cdf_gap totalCounter readBytesCount i
             <= cdf_gap totalCounter readBytesCount (Z.of_nat pm))%R).
  { intros i Hi. apply Rgtb_false, (HallR (Z.to_nat i)).
    apply ksDifferences_lookup; [exact Hpos'|]. split; [lia|]. rewrite Z2Nat.id by lia.
    reflexivity. }
  (* the two runs side by side *)
  destruct (Hrange pn s Hpn) as (Hfin & _ & Hacc).
  destruct (differences !! pm) as [dm|] eqn:Hdm.
  2:{ apply lookup_ge_None in Hdm. lia. }
  destruct (Hrange pm dm Hdm) as (Hfinm & _ & Haccm).
  pose proof (fgt_false_le dm s Hfinm Hfin (Hall pm dm Hdm)) as Hle.
  pose proof (HmaxGap (Z.of_nat pn) ltac:(lia)) as Hgp.
  unfold delta in *. apply Rabs_le_bounds in Hacc, Haccm.
  split; [apply Rabs_le; lra|]. split; [exact HmaxGap|]. lra.
Qed.

Lemma KsTest_float64_accuracy_witness :
  let totalCounter := countBytes ["a"; "a"; "a"; "a"]%byte in
  let '(ksStatistic, maxDiffPosition, _, _, _) := KsTest (F := float64) totalCounter 4 in
  let '(exactStatistic, _, _, _, _) := KsTest (F := R) totalCounter 4 in
  (Rabs (fval ksStatistic - exactStatistic) <= delta)%R /\
  (forall i, 0 <= i < 256 -> (cdf_gap totalCounter 4 i <= exactStatistic)%R) /\
  (exactStatistic - 2 * delta <= cdf_gap totalCounter 4 maxDiffPosition)%R.
Proof.
  apply (KsTest_float64_accuracy (countBytes ["a"; "a"; "a"; "a"]%byte) 4).
  - vm_compute. split; [reflexivity|discriminate].
  - intros b. rewrite countBytes_get. apply occurrences_nonneg.
  - apply countBytes_sum.
Defined.

(** C9 (amended).  What [KsTest] returns as the program runs it, on
    [float64], for a histogram with non-negative counts that add up to a
    positive total: the statistic is a number, not NaN, between 0 and 1; the
    position is among the byte values 0..255 and is the first one, in
    ascending order, at which the largest of the 256 computed differences
    occurs, a function of the histogram alone; the statistic is the
    difference computed there.  With respect to the gaps between the
    empirical and the uniform distribution function themselves: the
    statistic is within [delta] (1e-8) of the gap at the reported position,
    and no byte value has a gap that exceeds the gap at the reported
    position by more than twice that. *)
Theorem C9_KsTest_statistic_and_position (totalCounter : gmap byte Z) (readBytesCount : Z) :
  0 < readBytesCount <= int_max ->
  (forall b, 0 <= counter_get totalCounter b) ->
  counter_sum totalCounter = readBytesCount ->
  let differences := ksDifferences (F := float64) totalCounter readBytesCount in
  let '(ksStatistic, maxDiffPosition, n, _, _) :=
    KsTest (F := float64) totalCounter readBytesCount in
  is_nan ksStatistic = false /\
  fle 0%float ksStatistic = true /\
  fle ksStatistic 1%float = true /\
  0 <= maxDiffPosition < 256 /\
  n = readBytesCount /\
  differences !! Z.to_nat maxDiffPosition = Some ksStatistic /\
  (forall i x, differences !! i = Some x -> fgt x ksStatistic = false) /\
  (forall i x, (i < Z.to_nat maxDiffPosition)%nat -> differences !! i = Some x ->
               flt x ksStatistic = true) /\
  (Rabs (fval ksStatistic - cdf_gap totalCounter readBytesCount maxDiffPosition)
   <= delta)%R /\
  (forall i, 0 <= i < 256 ->
             (cdf_gap totalCounter readBytesCount i
              <= cdf_gap totalCounter readBytesCount maxDiffPosition + 2 * delta)%R).
Proof.
  intros Hpos Hnonneg Hsum differences. unfold KsTest. fold differences.
  destruct (ks_max differences) as [s p] eqn:Hmax.
  assert (Hlen : length differences = 256%nat) by apply ksDifferences_length.
  destruct (differences !! 0%nat) as [d|] eqn:Hhead.
  2:{ apply lookup_ge_None in Hhead. lia. }
  pose proof (ksDifferences_float_range totalCounter readBytesCount Hpos Hnonneg Hsum)
    as Hrange. fold differences in Hrange.
  assert (Hvalid : Forall (fun x => is_nan x = false) differences).
  { apply Forall_lookup. intros k x Hx. apply nonneg_finite_not_nan, (Hrange k x Hx). }
  destruct (@ks_max_spec float64 float64_arith (fun x => is_nan x = false)
              fgt_irrefl fgt_asym fgt_pass
              differences d s p Hhead Hvalid Hmax) as (pn & -> & Hpn & Hall & Hbefore).
  pose proof (lookup_lt_Some _ _ _ Hpn) as Hlt. rewrite Hlen in Hlt.
  destruct (Hrange pn s Hpn) as (Hfin & Hle1 & Hacc).
  rewrite Nat2Z.id.
  split; [apply nonneg_finite_not_nan; exact Hfin|].
  split; [apply nonneg_finite_ge_0; exact Hfin|].
  split; [apply nonneg_finite_le_1; assumption|].
  split; [lia|]. split; [reflexivity|]. split; [exact Hpn|]. split; [exact Hall|].
  split; [intros i x Hi Hx; exact (Hbefore i x Hi Hx)|].
  split; [exact Hacc|].
  intros i Hi.
  destruct (differences !! Z.to_nat i) as [di|] eqn:Hdi.
  2:{ apply lookup_ge_None in Hdi. lia. }
  destruct (Hrange (Z.to_nat i) di Hdi) as (Hfini & _ & Hacci).
  rewrite Z2Nat.id in Hacci by lia.
  pose proof (fgt_false_le di s Hfini Hfin (Hall (Z.to_nat i) di Hdi)) as Hle.
  apply Rabs_le_bounds in Hacc, Hacci. lra.
Qed.

Lemma C9_KsTest_statistic_and_position_witness :
  let totalCounter := countBytes ["a"; "a"; "a"; "a"]%byte in
  let differences := ksDifferences (F := float64) totalCounter 4 in
  let '(ksStatistic, maxDiffPosition, n, _, _) := KsTest (F := float64) totalCounter 4 in
  is_nan ksStatistic = false /\
  fle 0%float ksStatistic = true /\
  fle ksStatistic 1%float = true /\
  0 <= maxDiffPosition < 256 /\
  n = 4 /\
  differences !! Z.to_nat maxDiffPosition = Some ksStatistic /\
  (forall i x, differences !! i = Some x -> fgt x ksStatistic = false) /\
  (forall i x, (i < Z.to_nat maxDiffPosition)%nat -> differences !! i = Some x ->
               flt x ksStatistic = true) /\
  (Rabs (fval ksStatistic - cdf_gap totalCounter 4 maxDiffPosition) <= delta)%R /\
  (forall i, 0 <= i < 256 ->
             (cdf_gap totalCounter 4 i <= cdf_gap totalCounter 4 maxDiffPosition + 2 * delta)%R).
Proof.
  apply (C9_KsTest_statistic_and_position (countBytes ["a"; "a"; "a"; "a"]%byte) 4).
  - vm_compute. split; [reflexivity|discriminate].
  - intros b. rewrite countBytes_get. apply occurrences_nonneg.
  - apply countBytes_sum.
Defined.

(** C9 as stated, refuted: [histogram_near_tie] is the histogram of a file
    of [total_near_tie] bytes, about 1.7 TiB.  The largest gap between the
    two distribution functions is at byte value 116, where it is 117/256;
    the gap at 233 is smaller by 1/(256 * total).  The additions of the first
    loop round the running sum down, the difference computed at 233 comes
    out above 117/256, and [KsTest] reports the position 233. *)
Lemma C9_counterexample :
  0 < total_near_tie <= int_max /\
  (forall b, 0 <= counter_get histogram_near_tie b) /\
  counter_sum histogram_near_tie = total_near_tie /\
  (let '(_, maxDiffPosition, _, _, _) :=
     KsTest (F := float64) histogram_near_tie total_near_tie in
   maxDiffPosition = 233) /\
  (cdf_gap histogram_near_tie total_near_tie 233
   < cdf_gap histogram_near_tie total_near_tie 116)%R.
Proof.
  split; [vm_compute; split; [reflexivity|discriminate]|].
  split.
  { intros b. destruct b; vm_compute; discriminate. }
  split; [vm_compute; reflexivity|].
  split; [vm_compute; reflexivity|].
  unfold cdf_gap, empirical_cdf, uniform_cdf, total_near_tie.
  replace (sum_below (counter_get histogram_near_tie) (S (Z.to_nat 233)))
    with 850597983043 by (vm_compute; reflexivity).
  replace (sum_below (counter_get histogram_near_tie) (S (Z.to_nat 116)))
    with 0 by (vm_compute; reflexivity).
  replace (233 + 1) with 234 by reflexivity.
  replace (116 + 1) with 117 by reflexivity.
  rewrite (Rabs_left (850597983043 / 1861137467171 - 234 / 256)) by lra.
  rewrite (Rabs_left (0 / 1861137467171 - 117 / 256)) by lra.
  lra.
Qed.

(** ** The targeted signature scan *)

Lemma found_get_add (name name' : string) (n : Z) (found : gmap string Z) :
  found_get (found_add name n found) name'
  = if decide (name = name') then found_get found name + n else found_get found name'.
Proof.
  unfold found_add, found_get. rewrite lookup_insert.
  destruct (decide (name = name')) as [->|]; reflexivity.
Qed.

Lemma FindBytesPattern_nonneg (data : list ascii) (re : regex) :
  0 <= FindBytesPattern data re.
Proof. unfold FindBytesPattern. apply Z.div_pos; lia. Qed.

Lemma hex_EncodeToString_app (l1 l2 : list byte) :
  hex_EncodeToString (l1 ++ l2) = hex_EncodeToString l1 ++ hex_EncodeToString l2.
Proof. unfold hex_EncodeToString. apply flat_map_app. Qed.

(** A place where the pattern matches yields at least one match. *)
Lemma FindAll_from_finds (re : regex) (before after : list ascii) (pos : Z) :
  re <> [] -> matches_at re after = true ->
  (2 <= length (FindAll_from re 0 pos (before ++ after)))%nat.
Proof.
  intros Hre Hmatch. revert pos.
  induction before as [|c before IH]; intros pos; simpl.
  - destruct after as [|c after]; [by destruct re|].
    simpl in Hmatch |- *. rewrite Hmatch. simpl. lia.
  - destruct (matches_at re (c :: before ++ after)); simpl; [lia|apply IH].
Qed.

Lemma FindBytesPattern_finds (re : regex) (before after : list ascii) :
  re <> [] -> matches_at re after = true ->
  1 <= FindBytesPattern (before ++ after) re.
Proof.
  intros Hre Hmatch. unfold FindBytesPattern, FindAll.
  pose proof (FindAll_from_finds re before after 0 Hre Hmatch) as Hlen.
  apply Z.div_le_lower_bound; lia.
Qed.

(** The full scan of one pattern returns, with a count that has not
    decreased. *)
Lemma scan_loop_returns (fuel : nat) (content : list byte) (blockSize : nat)
    (re : regex) (offset count : Z) :
  (0 < blockSize)%nat -> 0 <= offset ->
  (length content - Z.to_nat offset < fuel)%nat ->
  exists count' offset',
    scan_loop fuel content blockSize re offset count = Returns (count', offset') /\
    count <= count' /\ 0 <= offset'.
Proof.
  intros Hbs. revert offset count.
  induction fuel as [|fuel IH]; intros offset count Hoff Hfuel; [lia|].
  simpl. unfold file_ReadAt.
  destruct (length (take blockSize (drop (Z.to_nat offset) content)) =? 0)%nat eqn:Hlen.
  - exists count, offset. repeat split; (done || lia).
  - apply Nat.eqb_neq in Hlen. rewrite length_take, length_drop in Hlen.
    set (block := take blockSize (drop (Z.to_nat offset) content)).
    destruct (IH (offset + Z.of_nat (length block))
                 (count + FindBytesPattern (hex_EncodeToString block) re))
      as (count' & offset' & -> & Hc & Ho).
    + lia.
    + subst block. rewrite length_take, length_drop. lia.
    + exists count', offset'. split; [done|].
      pose proof (FindBytesPattern_nonneg (hex_EncodeToString block) re). lia.
Qed.

(** The six rules, read off the table. *)
Lemma signatures_lookup (name : string) (entry : AdvancedSignatureMap) :
  signatures !! name = Some entry ->
  sector entry = 0 \/
  (sector entry = -1 /\ name <> "LUKSv1") \/
  (sector entry = 1 /\ name <> "LUKSv1") \/
  (sector entry = 1 /\ name = "LUKSv1" /\ sig_regex entry = literal "4c554b53babe0001").
Proof.
  unfold signatures. intros H.
  repeat (apply lookup_insert_Some in H as [[<- <-]|[? H]];
          [simpl; first [by left | by (right; left) | by (right; right; left)
                        | by (right; right; right)]|]).
  by rewrite lookup_empty in H.
Qed.

Lemma probeSeek_forward (content : list byte) (blockSize : Z) :
  probeSeek content blockSize 1 = Returns (Some 0).
Proof.
  unfold probeSeek. change (1 <? 0) with false. cbv beta iota.
  change (wrap_int (1 - 1)) with 0. rewrite Z.mul_0_r.
  change (wrap_int 0) with 0. reflexivity.
Qed.

Lemma probeSeek_backward (content : list byte) (blockSize : Z) :
  0 < blockSize <= Z.of_nat (length content) -> blockSize <= int_max ->
  probeSeek content blockSize (-1)
  = Returns (Some (Z.of_nat (length content) - blockSize)).
Proof.
  intros [Hpos Hlen] Hmax. unfold probeSeek.
  change (-1 <? 0) with true. cbv beta iota.
  assert (Hk : int_of_float64 (PrimFloat.abs (float64_of_Z (-1)) - 2)%float = Returns (-1))
    by (vm_compute; reflexivity).
  rewrite Hk. unfold mbind, outcome_bind, obind.
  rewrite wrap_int_small by (unfold int_min, int_max in *; lia).
  unfold file_Seek. change (2 =? 2) with true. cbv beta iota.
  destruct (Z.ltb_spec (Z.of_nat (length content) + blockSize * -1) 0); [lia|].
  do 2 f_equal. lia.
Qed.

(** The loop over the rules, on a file that holds at least one block:
    whatever the order of the rules, no probe fails or ends the loop, and
    each visit of the rule of LUKSv1 adds the number of matches in the first
    block of the file, the only block this rule looks at. *)
Lemma detect_loop_LUKSv1 (content : list byte) (blockSize : Z) (order : list string) :
  0 < blockSize <= Z.of_nat (length content) -> blockSize <= int_max ->
  forall offset found, 0 <= offset ->
  exists found',
    detect_loop content blockSize order offset found = Returns found' /\
    found_get found' "LUKSv1"
    = found_get found "LUKSv1"
      + visits_LUKSv1 order
        * FindBytesPattern (hex_EncodeToString (take (Z.to_nat blockSize) content))
                           (literal "4c554b53babe0001").
Proof.
  intros [Hpos Hlen] Hmax.
  induction order as [|sigType order IH]; intros offset found Hoff.
  - exists found. split; [done|]. unfold visits_LUKSv1. simpl. lia.
  - cbn [detect_loop]. unfold visits_LUKSv1 in *. rewrite filter_cons.
    destruct (signatures !! sigType) as [entry|] eqn:Hentry.
    2:{ destruct (IH offset found Hoff) as (found' & -> & Hluks).
        exists found'. split; [done|]. rewrite Hluks.
        destruct (decide (sigType = "LUKSv1")) as [->|]; [|done].
        vm_compute in Hentry. discriminate. }
    destruct (signatures_lookup _ _ Hentry)
      as [Hs|[[Hs Hname]|[[Hs Hname]|(Hs & Hname & Hre)]]]; rewrite Hs.
    + (* full scan *)
      change (0 =? 0) with true. cbv beta match.
      destruct (scan_loop_returns (S (length content)) content (Z.to_nat blockSize)
                  (sig_regex entry) offset 0) as (count & offset' & -> & Hc & Ho);
        [lia..|].
      unfold mbind, outcome_bind, obind. simpl fst. simpl snd.
      destruct (IH offset' (found_add sigType count found) Ho) as (found' & -> & Hluks).
      exists found'. split; [done|]. rewrite Hluks, found_get_add.
      destruct (decide (sigType = "LUKSv1")) as [->|Hne].
      * vm_compute in Hentry. injection Hentry as <-. discriminate Hs.
      * reflexivity.
    + (* the probe from the end of the file *)
      change (-1 =? 0) with false. cbv beta match.
      rewrite probeSeek_backward by done.
      unfold mbind, outcome_bind, obind, file_ReadAt.
      set (block := take (Z.to_nat blockSize)
                         (drop (Z.to_nat (Z.of_nat (length content) - blockSize)) content)).
      assert (Hblock : (length block =? 0)%nat = false).
      { apply Nat.eqb_neq. subst block. rewrite length_take, length_drop. lia. }
      rewrite Hblock.
      set (n := FindBytesPattern (hex_EncodeToString block) (sig_regex entry)).
      destruct (IH 0 (found_add sigType n found) ltac:(lia)) as (found' & -> & Hluks).
      exists found'. split; [done|]. rewrite Hluks, found_get_add.
      destruct (decide (sigType = "LUKSv1")); [done|reflexivity].
    + (* a probe of the first block, for another tool *)
      change (1 =? 0) with false. cbv beta match.
      rewrite probeSeek_forward.
      unfold mbind, outcome_bind, obind, file_ReadAt.
      change (drop (Z.to_nat 0) content) with content.
      set (block := take (Z.to_nat blockSize) content).
      assert (Hblock : (length block =? 0)%nat = false).
      { apply Nat.eqb_neq. subst block. rewrite length_take. lia. }
      rewrite Hblock.
      set (n := FindBytesPattern (hex_EncodeToString block) (sig_regex entry)).
      destruct (IH 0 (found_add sigType n found) ltac:(lia)) as (found' & -> & Hluks).
      exists found'. split; [done|]. rewrite Hluks, found_get_add.
      destruct (decide (sigType = "LUKSv1")); [done|reflexivity].
    + (* the probe of the first block for LUKSv1 *)
      change (1 =? 0) with false. cbv beta match.
      subst sigType. rewrite probeSeek_forward.
      unfold mbind, outcome_bind, obind, file_ReadAt.
      change (drop (Z.to_nat 0) content) with content.
      set (block := take (Z.to_nat blockSize) content).
      assert (Hblock : (length block =? 0)%nat = false).
      { apply Nat.eqb_neq. subst block. rewrite length_take. lia. }
      rewrite Hblock, Hre.
      set (n := FindBytesPattern (hex_EncodeToString block) (literal "4c554b53babe0001")).
      destruct (IH 0 (found_add "LUKSv1" n found) ltac:(lia)) as (found' & -> & Hluks).
      exists found'. split; [done|]. rewrite Hluks, found_get_add.
      destruct (decide ("LUKSv1" = "LUKSv1")); [|done].
      subst n block. cbn [length]. lia.
Qed.

Lemma visits_LUKSv1_once (order : list string) :
  order ≡ₚ toolNames -> visits_LUKSv1 order = 1.
Proof.
  intros Hperm. unfold visits_LUKSv1. rewrite Hperm. reflexivity.
Qed.

(** What [EncToolDetection] reports for LUKSv1 on a file of at least one
    block: the number of matches within the first block. *)
Lemma EncToolDetection_LUKSv1_count (content : list byte) (blockSize : Z)
    (order : list string) :
  0 < blockSize <= Z.of_nat (length content) -> blockSize <= int_max ->
  order ≡ₚ toolNames ->
  exists found,
    EncToolDetection content blockSize false order = Returns found /\
    found_get found "LUKSv1"
    = FindBytesPattern (hex_EncodeToString (take (Z.to_nat blockSize) content))
                       (literal "4c554b53babe0001").
Proof.
  intros Hsize Hmax Hperm. unfold EncToolDetection.
  destruct (Z.ltb_spec blockSize 0); [lia|].
  destruct (detect_loop_LUKSv1 content blockSize order Hsize Hmax 0
              foundSignaturesTotal_init) as (found & -> & Hluks); [lia|].
  exists found. split; [done|].
  rewrite Hluks, (visits_LUKSv1_once order Hperm).
  change (found_get foundSignaturesTotal_init "LUKSv1") with 0. lia.
Qed.

(** A detection result that differs from [noEncToolResults] sets
    [encToolFound]. *)
Lemma decide_encryption_tool_found (t : testOutcomes) :
  encToolResult t <> noEncToolResults ->
  encToolFound (decide_encryption t) = true /\
  part1Result (decide_encryption t) = MsgStage1ToolSignatureFound.
Proof.
  intros Hne. unfold decide_encryption, maps_Equal.
  rewrite bool_decide_eq_false_2 by done. split; reflexivity.
Qed.

(** C5 (amended).  For every file that is at least one block long and
    contains the LUKSv1 magic bytes within its first block, in whichever
    order the rules are visited: [EncToolDetection] returns a LUKSv1 count
    of at least 1, and the handler, given this result, sets [encToolFound] and
    reports the tool signature, whatever the other tests return.  The sector
    directive 1 of the rule makes the probe seek to offset
    [(blockSize-1)*(1-1) = 0] and read one block. *)
Theorem C5_LUKSv1_magic_in_first_block (content before after : list byte)
    (blockSize : Z) (order : list string) :
  0 < blockSize <= Z.of_nat (length content) -> blockSize <= int_max ->
  content = before ++ LUKSv1_magic ++ after ->
  Z.of_nat (length before) + 8 <= blockSize ->
  order ≡ₚ toolNames ->
  probeSeek content blockSize 1 = Returns (Some 0) /\
  exists found,
    EncToolDetection content blockSize false order = Returns found /\
    1 <= found_get found "LUKSv1" /\
    forall t, encToolResult t = found ->
              encToolFound (decide_encryption t) = true /\
              part1Result (decide_encryption t) = MsgStage1ToolSignatureFound.
Proof.
  intros Hsize Hmax Hcontent Hfirst Hperm.
  split; [apply probeSeek_forward|].
  destruct (EncToolDetection_LUKSv1_count content blockSize order Hsize Hmax Hperm)
    as (found & Hrun & Hluks).
  exists found. split; [done|].
  assert (Hn : 1 <= found_get found "LUKSv1").
  { rewrite Hluks, Hcontent.
    rewrite take_app_ge by lia.
    rewrite take_app_ge by (simpl; lia).
    rewrite !hex_EncodeToString_app.
    apply FindBytesPattern_finds; [discriminate|]. reflexivity. }
  split; [done|].
  intros t Ht. apply decide_encryption_tool_found. rewrite Ht.
  intros ->. vm_compute in Hn. by apply Hn.
Qed.

Lemma C5_LUKSv1_magic_in_first_block_witness :
  probeSeek image_magic_first 16 1 = Returns (Some 0) /\
  exists found,
    EncToolDetection image_magic_first 16 false toolNames = Returns found /\
    1 <= found_get found "LUKSv1" /\
    forall t, encToolResult t = found ->
              encToolFound (decide_encryption t) = true /\
              part1Result (decide_encryption t) = MsgStage1ToolSignatureFound.
Proof.
  apply (C5_LUKSv1_magic_in_first_block image_magic_first [] (replicate 24 Byte.x00)
           16 toolNames).
  - simpl. lia.
  - vm_compute. discriminate.
  - reflexivity.
  - simpl. lia.
  - reflexivity.
Defined.

(** *** Where the probe does not look *)

Lemma FindAll_from_other_first_char (l : ascii) (re : regex) (data : list ascii) :
  Forall (fun c => foldCase l <> foldCase c) data ->
  forall skip pos, FindAll_from (Lit l :: re) skip pos data = [].
Proof.
  induction 1 as [|c data Hc _ IH]; intros skip pos; [done|].
  cbn [FindAll_from]. destruct skip as [|skip]; [|apply IH].
  cbn [matches_at atom_matches]. rewrite bool_decide_eq_false_2 by done.
  simpl. apply IH.
Qed.

Lemma hex_of_zero_bytes (n : nat) :
  Forall (fun c => c = "0"%char) (hex_EncodeToString (replicate n Byte.x00)).
Proof.
  induction n as [|n IH]; [constructor|].
  change (hex_EncodeToString (replicate (S n) Byte.x00))
    with ("0"%char :: "0"%char :: hex_EncodeToString (replicate n Byte.x00)).
  by repeat constructor.
Qed.

Lemma LUKSv1_not_in_zero_bytes (n : nat) :
  FindBytesPattern (hex_EncodeToString (replicate n Byte.x00))
                   (literal "4c554b53babe0001") = 0.
Proof.
  unfold FindBytesPattern, FindAll.
  change (literal "4c554b53babe0001") with (Lit "4"%char :: literal "c554b53babe0001").
  rewrite FindAll_from_other_first_char; [reflexivity|].
  eapply Forall_impl; [apply hex_of_zero_bytes|].
  intros c ->. vm_compute. discriminate.
Qed.

Lemma image_magic_second_at_block_1 (blockSize : Z) :
  take 8 (drop (Z.to_nat blockSize) (image_magic_second blockSize)) = LUKSv1_magic.
Proof.
  unfold image_magic_second.
  rewrite drop_app_length' by (by rewrite length_replicate). reflexivity.
Qed.

(** For such a file the count of LUKSv1 is 0, in whichever order the
    rules are visited. *)
Lemma EncToolDetection_misses_second_block (blockSize : Z) (order : list string) :
  8 <= blockSize <= int_max -> order ≡ₚ toolNames ->
  exists found,
    EncToolDetection (image_magic_second blockSize) blockSize false order
    = Returns found /\
    found_get found "LUKSv1" = 0.
Proof.
  intros [Hmin Hmax] Hperm.
  destruct (EncToolDetection_LUKSv1_count (image_magic_second blockSize) blockSize order)
    as (found & Hrun & Hluks); [|done|done|].
  { unfold image_magic_second. rewrite !length_app, !length_replicate.
    change (length LUKSv1_magic) with 8%nat. lia. }
  exists found. split; [done|]. rewrite Hluks.
  unfold image_magic_second.
  rewrite take_app_length' by (by rewrite length_replicate).
  apply LUKSv1_not_in_zero_bytes.
Qed.

(** C5 as stated, refuted, at the block size 1048576 that [main] passes.
    First reading, the magic one block from the start of the file: on the
    two-block file [image_magic_second 1048576] the count of LUKSv1 is 0,
    because the rule's sector directive 1 makes the probe read the first
    block only.  Second reading, the magic at the start of the file: on the
    file that consists of the eight magic bytes the call does not return,
    because the probe of another rule seeks one block back from the end of
    the file, before its start, and the seek error is fatal. *)
Lemma C5_counterexample :
  ~ (forall (content : list byte) (blockSize : Z) (order : list string),
       0 < blockSize <= int_max -> order ≡ₚ toolNames ->
       take 8 (drop (Z.to_nat blockSize) content) = LUKSv1_magic ->
       exists found,
         EncToolDetection content blockSize false order = Returns found /\
         1 <= found_get found "LUKSv1")
  /\
  ~ (forall (content : list byte) (blockSize : Z) (order : list string),
       0 < blockSize <= int_max -> order ≡ₚ toolNames ->
       take 8 content = LUKSv1_magic ->
       exists found,
         EncToolDetection content blockSize false order = Returns found /\
         1 <= found_get found "LUKSv1").
Proof.
  split; intros claim.
  - destruct (claim (image_magic_second 1048576) 1048576 toolNames)
      as (found & Hrun & Hluks).
    + vm_compute. split; [reflexivity|discriminate].
    + reflexivity.
    + apply image_magic_second_at_block_1.
    + destruct (EncToolDetection_misses_second_block 1048576 toolNames)
        as (found' & Hrun' & Hzero).
      * vm_compute. split; discriminate.
      * reflexivity.
      * rewrite Hrun in Hrun'. injection Hrun' as ->. lia.
  - destruct (claim LUKSv1_magic 1048576 toolNames) as (found & Hrun & _).
    + vm_compute. split; [reflexivity|discriminate].
    + reflexivity.
    + reflexivity.
    + vm_compute in Hrun. discriminate Hrun.
Qed.

(** The same two files at a block size of 16 bytes, run in all 720 orders
    in which the six rules can be visited: every count is 0 for the first,
    and every run of the second ends in the fatal seek error. *)
Example EncToolDetection_every_order :
  forallb (fun order =>
             returns_map (EncToolDetection (image_magic_second 16) 16 false order)
                         noEncToolResults)
          (permutations toolNames) = true /\
  forallb (fun order =>
             aborts_with (EncToolDetection LUKSv1_magic 16 false order) Fatal_Seek)
          (permutations toolNames) = true.
Proof. split; vm_compute; reflexivity. Qed.

(** ** The loops end within their bounds

    Every modelled loop is given a number of turns above the length of the
    file, and leaves through one of its [break]s before that number is
    used up: no function of the embedding ends in [Loop_Unfinished]. *)

Lemma CreateFileCounter_loop_returns (fuel blockSize : nat) (reader : bufio_Reader)
    (n : Z) (c : gmap byte Z) :
  (length (remaining reader) < fuel)%nat ->
  exists r, CreateFileCounter_loop fuel blockSize reader n c = Returns r.
Proof.
  intros Hfuel. destruct blockSize as [|bs].
  - destruct fuel as [|fuel]; [lia|]. simpl. eauto.
  - destruct (CreateFileCounter_loop_spec fuel (S bs) reader n c) as (c' & -> & _);
      [lia|done|eauto].
Qed.

Lemma CreateFileCounterGoro_loop_returns (fuel blockSize : nat) (rest : list byte)
    (n : Z) (c : gmap byte Z) :
  (length rest < fuel)%nat ->
  exists r, CreateFileCounterGoro_loop fuel blockSize rest n c = Returns r.
Proof.
  intros Hfuel. destruct blockSize as [|bs].
  - destruct fuel as [|fuel]; [lia|]. simpl. eauto.
  - destruct (CreateFileCounterGoro_loop_spec fuel (S bs) rest n c) as (c' & -> & _);
      [lia|done|eauto].
Qed.

Lemma AutoCorrelation_loop_returns
    (stats_Correlation : list float64 -> list float64 -> float64 * bool)
    (fuel blockSize : nat) (rest : list byte) (scores : list float64) :
  (length rest < fuel)%nat ->
  exists r, AutoCorrelation_loop stats_Correlation fuel blockSize rest scores = Returns r.
Proof.
  revert rest scores. induction fuel as [|fuel IH]; intros rest scores Hfuel; [lia|].
  simpl. rewrite length_take.
  destruct (blockSize `min` length rest =? 0)%nat eqn:Hzero; [eauto|].
  destruct (blockSize `min` length rest <? blockSize)%nat; [eauto|].
  apply Nat.eqb_neq in Hzero. apply IH. rewrite length_drop. lia.
Qed.

Lemma scan_loop_returns_any (fuel : nat) (content : list byte) (blockSize : nat)
    (re : regex) (offset count : Z) :
  0 <= offset -> (length content - Z.to_nat offset < fuel)%nat ->
  exists count' offset',
    scan_loop fuel content blockSize re offset count = Returns (count', offset') /\
    0 <= offset'.
Proof.
  intros Hoff Hfuel. destruct blockSize as [|bs].
  - destruct fuel as [|fuel]; [lia|]. simpl. eauto.
  - destruct (scan_loop_returns fuel content (S bs) re offset count)
      as (count' & offset' & -> & _ & Ho); [lia|done|done|eauto].
Qed.

Lemma hailMary_loop_returns (fuel : nat) (content : list byte) (blockSize : nat)
    (order : list string) (offset : Z) (found : gmap string Z) :
  0 <= offset -> (length content - Z.to_nat offset < fuel)%nat ->
  exists r, hailMary_loop fuel content blockSize order offset found = Returns r.
Proof.
  revert offset found.
  induction fuel as [|fuel IH]; intros offset found Hoff Hfuel; [lia|].
  simpl. unfold file_ReadAt.
  destruct (length (take blockSize (drop (Z.to_nat offset) content)) =? 0)%nat eqn:Hlen;
    [eauto|].
  apply Nat.eqb_neq in Hlen. rewrite length_take, length_drop in Hlen.
  apply IH; [lia|]. rewrite length_take, length_drop. lia.
Qed.

Lemma probeSeek_bound (content : list byte) (blockSize skip : Z) :
  probeSeek content blockSize skip <> Aborts Loop_Unfinished.
Proof.
  unfold probeSeek, int_of_float64. destruct (skip <? 0); [|discriminate].
  destruct (Prim2SF _) as [| | |s m e]; try discriminate.
  unfold mbind, outcome_bind, obind. destruct (_ && _); discriminate.
Qed.

Lemma detect_loop_bound (content : list byte) (blockSize : Z) (order : list string) :
  forall offset found, 0 <= offset ->
  detect_loop content blockSize order offset found <> Aborts Loop_Unfinished.
Proof.
  induction order as [|sigType order IH]; intros offset found Hoff; [discriminate|].
  cbn [detect_loop]. destruct (signatures !! sigType) as [entry|]; [|by apply IH].
  destruct (sector entry =? 0).
  - destruct (scan_loop_returns_any (S (length content)) content (Z.to_nat blockSize)
                (sig_regex entry) offset 0) as (count & offset' & -> & Ho); [lia..|].
    unfold mbind, outcome_bind, obind. by apply IH.
  - pose proof (probeSeek_bound content blockSize (sector entry)) as Hseek.
    destruct (probeSeek content blockSize (sector entry)) as [[target|]|why];
      unfold mbind, outcome_bind, obind.
    + destruct (_ =? _)%nat; [discriminate|]. by apply IH.
    + discriminate.
    + congruence.
Qed.

(** None of the functions ends in [Loop_Unfinished]. *)
Theorem loops_end_within_bounds (Log2 : float64 -> float64)
    (stats_Correlation : list float64 -> list float64 -> float64 * bool)
    (stats_StandardDeviation : list float64 -> float64 * bool)
    (content : list byte) (blockSize : Z) (hailMaryMode : bool) (order : list string) :
  CreateFileCounter Log2 content blockSize <> Aborts Loop_Unfinished /\
  CreateFileCounterGoro Log2 content blockSize <> Aborts Loop_Unfinished /\
  AutoCorrelation stats_Correlation stats_StandardDeviation content blockSize
  <> Aborts Loop_Unfinished /\
  EncToolDetection content blockSize hailMaryMode order <> Aborts Loop_Unfinished.
Proof.
  repeat split.
  - unfold CreateFileCounter, effectiveBlockSize, floorLog2, int_of_float64, int_shl.
    destruct (_ <? blockSize).
    + destruct (Prim2SF _) as [| | |s m e]; try discriminate.
      * unfold mbind, outcome_bind, obind. change (0 <? 0) with false. cbv beta match.
        destruct (_ <? 0); [discriminate|].
        edestruct CreateFileCounter_loop_returns as [r ->]; [|discriminate].
        unfold remaining. simpl. lia.
      * unfold mbind, outcome_bind, obind.
        destruct (_ && _); [|discriminate].
        destruct (_ <? 0); [discriminate|].
        destruct (_ <? 0); [discriminate|].
        edestruct CreateFileCounter_loop_returns as [r ->]; [|discriminate].
        unfold remaining. simpl. lia.
    + unfold mbind, outcome_bind, obind. destruct (_ <? 0); [discriminate|].
      edestruct CreateFileCounter_loop_returns as [r ->]; [|discriminate].
      unfold remaining. simpl. lia.
  - unfold CreateFileCounterGoro, effectiveBlockSizeGoro, floorLog2, int_of_float64.
    destruct (_ <? blockSize).
    + destruct (Prim2SF _) as [| | |s m e]; try discriminate.
      * unfold mbind, outcome_bind, obind.
        destruct (_ <? 0); [discriminate|].
        edestruct CreateFileCounterGoro_loop_returns as [r ->]; [|discriminate]. lia.
      * unfold mbind, outcome_bind, obind.
        destruct (_ && _); [|discriminate].
        destruct (_ <? 0); [discriminate|].
        edestruct CreateFileCounterGoro_loop_returns as [r ->]; [|discriminate]. lia.
    + unfold mbind, outcome_bind, obind. destruct (_ <? 0); [discriminate|].
      edestruct CreateFileCounterGoro_loop_returns as [r ->]; [|discriminate]. lia.
  - unfold AutoCorrelation. destruct (_ <? 0); [discriminate|].
    edestruct AutoCorrelation_loop_returns as [r ->].
    2:{ unfold mbind, outcome_bind, obind.
        destruct (stats_StandardDeviation r) as [std []]; discriminate. }
    lia.
  - unfold EncToolDetection. destruct (_ <? 0); [discriminate|].
    destruct hailMaryMode.
    + edestruct hailMary_loop_returns as [r ->]; [| |discriminate]; simpl; lia.
    + by apply detect_loop_bound.
Qed.

(** ** Histograms as maps *)

(** The histograms of the program never hold a key with the count 0, so
    they can be compared as maps, key by key. *)
Lemma counter_add_lookup (k : byte) (v : Z) (m : gmap byte Z) (b : byte) :
  counter_add k v m !! b
  = if decide (k = b) then Some (counter_get m k + v) else m !! b.
Proof.
  unfold counter_add. destruct (decide (k = b)) as [->|Hne].
  - apply lookup_insert_eq.
  - apply lookup_insert_ne. exact Hne.
Qed.

Lemma fold_add_lookup (init c : gmap byte Z) (b : byte) :
  map_fold counter_add init c !! b
  = union_with (fun x y => Some (x + y)) (init !! b) (c !! b).
Proof.
  revert b.
  apply (map_fold_weak_ind
           (fun r m => forall b, r !! b
                       = union_with (fun x y => Some (x + y)) (init !! b) (m !! b))).
  - intros b. rewrite lookup_empty. by destruct (init !! b).
  - intros i x m r Hi IH b. rewrite counter_add_lookup.
    destruct (decide (i = b)) as [<-|Hne].
    + rewrite lookup_insert_eq. unfold counter_get. rewrite IH, Hi.
      destruct (init !! i); simpl; f_equal.
    + rewrite lookup_insert_ne by exact Hne. apply IH.
Qed.

Lemma mergeCounterLists_lookup (c1 c2 : gmap byte Z) (b : byte) :
  mergeCounterLists c1 c2 !! b
  = union_with (fun x y => Some (x + y)) (c1 !! b) (c2 !! b).
Proof.
  unfold mergeCounterLists. rewrite !fold_add_lookup, lookup_empty.
  by destruct (c1 !! b), (c2 !! b).
Qed.

Lemma occurrences_zero (b : byte) (data : list byte) :
  b ∉ data -> occurrences b data = 0.
Proof.
  intros Hnin. unfold occurrences. induction data as [|x data IH]; [done|].
  rewrite filter_cons. destruct (decide (x = b)) as [->|Hne].
  - exfalso. apply Hnin, elem_of_cons. by left.
  - apply IH. intros Hin. apply Hnin, elem_of_cons. by right.
Qed.

Lemma countBytes_fold_lookup (data : list byte) (m : gmap byte Z) (b : byte) :
  foldl (fun counter b => <[b := counter_get counter b + 1]> counter) m data !! b
  = if decide (b ∈ data) then Some (counter_get m b + occurrences b data) else m !! b.
Proof.
  revert m. induction data as [|x data IH]; intros m; simpl.
  - destruct (decide (b ∈ [])) as [Hin|_]; [|done]. by apply elem_of_nil in Hin.
  - rewrite IH. change (<[x:=counter_get m x + 1]> m) with (counter_add x 1 m).
    rewrite counter_get_add, counter_add_lookup.
    assert (Hocc : occurrences b (x :: data)
                   = (if decide (x = b) then 1 else 0) + occurrences b data).
    { unfold occurrences. rewrite filter_cons. destruct (decide (x = b)); simpl; lia. }
    rewrite Hocc.
    destruct (decide (b ∈ x :: data)) as [Hin'|Hnin'];
      destruct (decide (b ∈ data)) as [Hin|Hnin].
    + f_equal. lia.
    + pose proof (occurrences_zero b data Hnin) as Hzero.
      apply elem_of_cons in Hin' as [->|Hin']; [|contradiction].
      rewrite !decide_True by reflexivity. f_equal. lia.
    + exfalso. apply Hnin', elem_of_cons. by right.
    + destruct (decide (x = b)) as [->|Hne]; [|done].
      exfalso. apply Hnin', elem_of_cons. by left.
Qed.

Lemma countBytes_lookup (data : list byte) (b : byte) :
  countBytes data !! b
  = if decide (b ∈ data) then Some (occurrences b data) else None.
Proof.
  unfold countBytes. rewrite countBytes_fold_lookup, counter_get_empty, lookup_empty.
  destruct (decide (b ∈ data)); [f_equal; lia|done].
Qed.

Lemma occurrences_pos (b : byte) (data : list byte) : b ∈ data -> 0 < occurrences b data.
Proof.
  intros Hin. unfold occurrences.
  assert (Hb : b ∈ filter (fun x => x = b) data) by (apply list_elem_of_filter; done).
  destruct (filter (fun x => x = b) data); [by apply elem_of_nil in Hb|simpl; lia].
Qed.

Lemma countBytes_app (l1 l2 : list byte) :
  mergeCounterLists (countBytes l1) (countBytes l2) = countBytes (l1 ++ l2).
Proof.
  apply map_eq. intros b.
  rewrite mergeCounterLists_lookup, !countBytes_lookup, occurrences_app.
  destruct (decide (b ∈ l1)) as [H1|H1], (decide (b ∈ l2)) as [H2|H2]; simpl.
  - rewrite decide_True by (apply elem_of_app; by left). done.
  - rewrite decide_True by (apply elem_of_app; by left). f_equal.
    rewrite (occurrences_zero b l2 H2). lia.
  - rewrite decide_True by (apply elem_of_app; by right). f_equal.
    rewrite (occurrences_zero b l1 H1). lia.
  - rewrite decide_False; [done|]. intros [?|?]%elem_of_app; contradiction.
Qed.

Lemma mergeCounterLists_empty_l (c : gmap byte Z) : mergeCounterLists ∅ c = c.
Proof.
  apply map_eq. intros b. rewrite mergeCounterLists_lookup, lookup_empty.
  by destruct (c !! b).
Qed.

Lemma mergeCounterLists_empty_r (c : gmap byte Z) : mergeCounterLists c ∅ = c.
Proof.
  apply map_eq. intros b. rewrite mergeCounterLists_lookup, lookup_empty.
  by destruct (c !! b).
Qed.

Lemma mergeCounterLists_assoc (c1 c2 c3 : gmap byte Z) :
  mergeCounterLists (mergeCounterLists c1 c2) c3
  = mergeCounterLists c1 (mergeCounterLists c2 c3).
Proof.
  apply map_eq. intros b. rewrite !mergeCounterLists_lookup.
  destruct (c1 !! b), (c2 !! b), (c3 !! b); simpl; f_equal; lia.
Qed.

(** X4.  [countBytes] builds the histogram of its argument: a byte value
    is a key of the map exactly when it occurs in the data, its count is
    then the number of its occurrences, which is positive, and the counts
    add up to the length of the data. *)
Theorem countBytes_is_histogram (data : list byte) (b : byte) :
  countBytes data !! b
  = (if decide (b ∈ data) then Some (occurrences b data) else None) /\
  (b ∈ data <-> 0 < occurrences b data) /\
  counter_sum (countBytes data) = Z.of_nat (length data).
Proof.
  split; [apply countBytes_lookup|]. split; [|apply countBytes_sum].
  split; [apply occurrences_pos|].
  intros Hpos. destruct (decide (b ∈ data)) as [Hin|Hnin]; [exact Hin|].
  rewrite (occurrences_zero b data Hnin) in Hpos. lia.
Qed.

(** X5.  [mergeCounterLists] is the union of its two arguments in which
    the counts of a common key are added: whatever the two maps hold, also
    keys with the count 0.  It follows that the order of the arguments does
    not matter and that the sums of the counts add. *)
Theorem mergeCounterLists_is_sum (counter1 counter2 : gmap byte Z) :
  mergeCounterLists counter1 counter2
  = union_with (fun x y => Some (x + y)) counter1 counter2 /\
  mergeCounterLists counter1 counter2 = mergeCounterLists counter2 counter1 /\
  counter_sum (mergeCounterLists counter1 counter2)
  = counter_sum counter1 + counter_sum counter2.
Proof.
  split; [|split; [|apply mergeCounterLists_sum]].
  - apply map_eq. intros b. rewrite mergeCounterLists_lookup, lookup_union_with. done.
  - apply map_eq. intros b. rewrite !mergeCounterLists_lookup.
    destruct (counter1 !! b), (counter2 !! b); simpl; f_equal; lia.
Qed.

(** X6.  Counting block by block and merging gives the histogram of the
    whole: the merge of the histograms of two pieces of data is the histogram
    of their concatenation, as a map. *)
Theorem countBytes_of_concatenation (l1 l2 : list byte) :
  mergeCounterLists (countBytes l1) (countBytes l2) = countBytes (l1 ++ l2).
Proof. apply countBytes_app. Qed.

Lemma CreateFileCounter_loop_map (fuel blockSize : nat) (reader : bufio_Reader)
    (n : Z) (c : gmap byte Z) :
  (0 < blockSize)%nat -> (length (remaining reader) < fuel)%nat ->
  CreateFileCounter_loop fuel blockSize reader n c
  = Returns (mergeCounterLists c (countBytes (remaining reader)),
             n + Z.of_nat (length (remaining reader))).
Proof.
  intros Hbs. revert reader n c.
  induction fuel as [|fuel IH]; intros reader n c Hfuel; [lia|].
  simpl. destruct (bufio_Read_spec blockSize reader Hbs) as [Hsplit Hnil].
  destruct (bufio_Read blockSize reader) as [block reader']. simpl in *.
  destruct (length block =? 0)%nat eqn:Hlen.
  - apply Nat.eqb_eq, length_zero_iff_nil in Hlen.
    apply Hnil in Hlen. rewrite Hlen. simpl.
    change (countBytes []) with (∅ : gmap byte Z).
    rewrite mergeCounterLists_empty_r. do 2 f_equal. lia.
  - apply Nat.eqb_neq in Hlen.
    assert (Hrem : (length (remaining reader') < fuel)%nat).
    { rewrite <- Hsplit, length_app in Hfuel. lia. }
    rewrite (IH reader' _ _ Hrem).
    rewrite mergeCounterLists_assoc, countBytes_app, Hsplit.
    rewrite <- Hsplit at 3. rewrite length_app. do 2 f_equal. lia.
Qed.

(** X7.  [CreateFileCounter] returns the histogram of the whole file and
    its length, whatever positive block size it reads with: the result is
    the same for every block size, short final block included. *)
Theorem CreateFileCounter_is_countBytes (Log2 : float64 -> float64)
    (content : list byte) (blockSize bs : Z) :
  effectiveBlockSize Log2 (Z.of_nat (length content)) blockSize = Returns bs ->
  0 < bs ->
  CreateFileCounter Log2 content blockSize
  = Returns (countBytes content, Z.of_nat (length content)).
Proof.
  intros Hbs Hpos. unfold CreateFileCounter. rewrite Hbs.
  unfold mbind, outcome_bind, obind.
  destruct (Z.ltb_spec bs 0); [lia|].
  rewrite CreateFileCounter_loop_map; [|lia|unfold remaining; simpl; lia].
  unfold remaining. simpl. rewrite mergeCounterLists_empty_l. reflexivity.
Qed.

Lemma CreateFileCounter_is_countBytes_witness :
  CreateFileCounter (fun x => x) ["a"; "b"; "c"]%byte 2
  = Returns (countBytes ["a"; "b"; "c"]%byte, 3).
Proof.
  apply (CreateFileCounter_is_countBytes (fun x => x) ["a"; "b"; "c"]%byte 2 2).
  - reflexivity.
  - lia.
Defined.

Lemma CreateFileCounterGoro_loop_map (fuel blockSize : nat) (rest : list byte)
    (n : Z) (c : gmap byte Z) :
  (0 < blockSize)%nat -> (length rest < fuel)%nat ->
  CreateFileCounterGoro_loop fuel blockSize rest n c
  = Returns (mergeCounterLists c
               (countBytes (take (length rest - length rest mod blockSize) rest)),
             n + Z.of_nat (length rest)).
Proof.
  intros Hbs. revert rest n c.
  induction fuel as [|fuel IH]; intros rest n c Hfuel; [lia|].
  simpl. rewrite length_take.
  destruct (blockSize `min` length rest =? 0)%nat eqn:Hzero.
  - apply Nat.eqb_eq in Hzero. assert (Hlen : length rest = 0%nat) by lia.
    apply length_zero_iff_nil in Hlen. subst rest. simpl.
    change (countBytes []) with (∅ : gmap byte Z).
    rewrite mergeCounterLists_empty_r. do 2 f_equal. lia.
  - apply Nat.eqb_neq in Hzero.
    destruct (blockSize `min` length rest <? blockSize)%nat eqn:Hshort.
    + apply Nat.ltb_lt in Hshort.
      rewrite Nat.mod_small by lia. rewrite Nat.sub_diag. simpl.
      change (countBytes []) with (∅ : gmap byte Z).
      rewrite mergeCounterLists_empty_r. do 2 f_equal. lia.
    + apply Nat.ltb_ge in Hshort.
      assert (Hfull : (blockSize `min` length rest = blockSize)%nat) by lia.
      rewrite IH by (rewrite length_drop; lia).
      rewrite mergeCounterLists_assoc, countBytes_app, length_drop.
      assert (Hmod : ((length rest - blockSize) mod blockSize
                      = length rest mod blockSize)%nat).
      { replace (length rest) with ((length rest - blockSize) + 1 * blockSize)%nat at 2
          by lia.
        rewrite Nat.Div0.mod_add. reflexivity. }
      rewrite Hmod.
      pose proof (Nat.Div0.mod_le (length rest - blockSize) blockSize) as Hle.
      rewrite Hmod in Hle.
      assert (Htake : take blockSize rest
                      ++ take (length rest - blockSize - length rest mod blockSize)
                           (drop blockSize rest)
                      = take (length rest - length rest mod blockSize) rest).
      { rewrite take_take_drop. f_equal. lia. }
      rewrite Htake. do 2 f_equal. lia.
Qed.

(** X8.  What [CreateFileCounterGoro] tallies: called with a block size
    that the file reaches, it returns the length of the file as [BytesRead]
    and, as [Counter], the histogram of the bytes of the full blocks, the
    longest prefix whose length is a multiple of the block size; this is the
    histogram of the file exactly when the block size divides the length. *)
Theorem CreateFileCounterGoro_counts_full_blocks (Log2 : float64 -> float64)
    (content : list byte) (blockSize : Z) :
  0 < blockSize <= Z.of_nat (length content) ->
  let len := Z.of_nat (length content) in
  CreateFileCounterGoro Log2 content blockSize
  = Returns {| Counter := countBytes (take (Z.to_nat (len - len mod blockSize)) content);
               BytesRead := len |} /\
  (countBytes (take (Z.to_nat (len - len mod blockSize)) content) = countBytes content
   <-> len mod blockSize = 0).
Proof.
  intros [Hpos Hle] len. split.
  - unfold CreateFileCounterGoro, effectiveBlockSizeGoro.
    destruct (Z.ltb_spec (Z.of_nat (length content)) blockSize); [lia|].
    unfold mbind, outcome_bind, obind.
    destruct (Z.ltb_spec blockSize 0); [lia|].
    rewrite CreateFileCounterGoro_loop_map by lia.
    cbn [fst snd]. rewrite mergeCounterLists_empty_l.
    do 3 f_equal. unfold len.
    pose proof (Nat.Div0.mod_le (length content) (Z.to_nat blockSize)) as Hm.
    rewrite <- (Z2Nat.id blockSize) at 2 by lia.
    rewrite <- Nat2Z.inj_mod, <- Nat2Z.inj_sub, Nat2Z.id by exact Hm. reflexivity.
  - pose proof (Z.mod_pos_bound len blockSize Hpos) as Hmod.
    split.
    + intros Heq. apply (f_equal counter_sum) in Heq.
      rewrite !countBytes_sum, length_take in Heq. unfold len in *. lia.
    + intros ->. rewrite Z.sub_0_r. unfold len. rewrite Nat2Z.id, firstn_all. reflexivity.
Qed.

Lemma CreateFileCounterGoro_counts_full_blocks_witness :
  let len := 3 in
  CreateFileCounterGoro (fun x => x) ["a"; "b"; "c"]%byte 2
  = Returns {| Counter := countBytes (take (Z.to_nat (len - len mod 2)) ["a"; "b"; "c"]%byte);
               BytesRead := len |} /\
  (countBytes (take (Z.to_nat (len - len mod 2)) ["a"; "b"; "c"]%byte)
   = countBytes ["a"; "b"; "c"]%byte
   <-> len mod 2 = 0).
Proof.
  apply (CreateFileCounterGoro_counts_full_blocks (fun x => x) ["a"; "b"; "c"]%byte 2).
  simpl. lia.
Defined.

(** ** The detection of encryption tools, rule by rule *)

Lemma chunks_enough (blockSize fuel1 fuel2 : nat) (l : list byte) :
  (0 < blockSize)%nat -> (length l <= fuel1)%nat -> (length l <= fuel2)%nat ->
  chunks fuel1 blockSize l = chunks fuel2 blockSize l.
Proof.
  intros Hbs. revert fuel2 l.
  induction fuel1 as [|fuel1 IH]; intros fuel2 l H1 H2.
  - destruct l; [by destruct fuel2|simpl in H1; lia].
  - destruct l as [|x l]; [by destruct fuel2|].
    destruct fuel2 as [|fuel2]; [simpl in H2; lia|].
    cbn [chunks]. f_equal.
    apply IH; rewrite length_drop; simpl in *; lia.
Qed.

Lemma chunks_fuel (fuel blockSize : nat) (l : list byte) :
  (0 < blockSize)%nat -> (length l <= fuel)%nat ->
  chunks fuel blockSize l = blocksOf blockSize l.
Proof. intros Hbs Hlen. unfold blocksOf. by apply chunks_enough. Qed.

Lemma blocksOf_nil (blockSize : nat) : blocksOf blockSize [] = [].
Proof. reflexivity. Qed.

Lemma blocksOf_cons (blockSize : nat) (l : list byte) :
  (0 < blockSize)%nat -> l <> [] ->
  blocksOf blockSize l = take blockSize l :: blocksOf blockSize (drop blockSize l).
Proof.
  intros Hbs Hl. unfold blocksOf at 1. destruct l as [|x l]; [done|].
  cbn [length chunks]. f_equal.
  apply chunks_fuel; [done|]. rewrite length_drop. simpl. lia.
Qed.

(** The scan of one pattern from an offset to the end of the file adds up
    the matches within the blocks that are left. *)
Lemma scan_loop_sum (fuel : nat) (content : list byte) (blockSize : nat)
    (re : regex) (offset count : Z) :
  (0 < blockSize)%nat -> 0 <= offset ->
  (length content - Z.to_nat offset < fuel)%nat ->
  scan_loop fuel content blockSize re offset count
  = Returns (count + sumZ (matchesIn re <$> blocksOf blockSize (drop (Z.to_nat offset) content)),
             offset + Z.of_nat (length (drop (Z.to_nat offset) content))).
Proof.
  intros Hbs. revert offset count.
  induction fuel as [|fuel IH]; intros offset count Hoff Hfuel; [lia|].
  cbn [scan_loop]. unfold file_ReadAt.
  set (rest := drop (Z.to_nat offset) content).
  assert (Hrest : length rest = (length content - Z.to_nat offset)%nat)
    by (subst rest; apply length_drop).
  destruct (length (take blockSize rest) =? 0)%nat eqn:Hlen.
  - apply Nat.eqb_eq in Hlen. rewrite length_take in Hlen.
    assert (Hnil : rest = []) by (apply length_zero_iff_nil; lia).
    rewrite Hnil. simpl. do 2 f_equal; unfold sumZ; simpl; lia.
  - apply Nat.eqb_neq in Hlen. rewrite length_take in Hlen.
    rewrite IH; [|lia|rewrite length_take; lia].
    assert (Hne : rest <> []) by (intros ->; simpl in Hlen; lia).
    rewrite (blocksOf_cons blockSize rest Hbs Hne).
    assert (Hdrop : drop (Z.to_nat (offset + Z.of_nat (length (take blockSize rest)))) content
                    = drop blockSize rest).
    { subst rest. rewrite drop_drop, length_take, length_drop.
      destruct (Nat.le_gt_cases blockSize (length content - Z.to_nat offset)) as [Hle|Hgt].
      - f_equal. lia.
      - rewrite !drop_ge; [done|lia|lia]. }
    rewrite Hdrop. cbn [fmap list_fmap]. unfold sumZ at 2. cbn [foldr]. fold (sumZ).
    unfold matchesIn at 2.
    do 2 f_equal; [unfold sumZ; lia|].
    rewrite length_drop, length_take. lia.
Qed.

(** The six rules, read off the table. *)
Lemma signatures_sector (name : string) (entry : AdvancedSignatureMap) :
  signatures !! name = Some entry ->
  name ∈ toolNames /\
  ((sector entry = 0 /\ name = "FileVault v2") \/
   (sector entry = -1 /\ name = "FreeBSD GELI") \/
   (sector entry = 1 /\ name <> "FileVault v2" /\ name <> "FreeBSD GELI")).
Proof.
  unfold signatures, toolNames. intros H.
  repeat (apply lookup_insert_Some in H as [[<- <-]|[? H]];
          [split; [set_solver|]; simpl;
           first [by left | by (right; left) | by (right; right)]|]).
  by rewrite lookup_empty in H.
Qed.

Lemma toolNames_in_table (name : string) :
  name ∈ toolNames -> is_Some (signatures !! name).
Proof.
  unfold toolNames. intros H.
  repeat (apply elem_of_cons in H as [->|H]; [by eexists|]).
  by apply elem_of_nil in H.
Qed.

Lemma found_add_lookup (name name' : string) (n : Z) (found : gmap string Z) :
  found_add name n found !! name'
  = if decide (name = name') then Some (found_get found name + n) else found !! name'.
Proof.
  unfold found_add. destruct (decide (name = name')) as [->|Hne].
  - apply lookup_insert_eq.
  - by apply lookup_insert_ne.
Qed.

Lemma take_drop_last (content : list byte) (blockSize : Z) :
  0 < blockSize <= Z.of_nat (length content) ->
  take (Z.to_nat blockSize) (drop (Z.to_nat (Z.of_nat (length content) - blockSize)) content)
  = drop (length content - Z.to_nat blockSize) content.
Proof.
  intros H. replace (Z.to_nat (Z.of_nat (length content) - blockSize))
    with (length content - Z.to_nat blockSize)%nat by lia.
  apply take_ge. rewrite length_drop. lia.
Qed.

(** The loop over the rules on a file of at least one block: every rule
    visited adds its count, which does not depend on the rules visited
    before it.  The rule of FileVault reads on from where the file handle
    stands; it stands at the start unless that rule has been visited. *)
Lemma detect_loop_counts (content : list byte) (blockSize : Z) (order : list string) :
  0 < blockSize <= Z.of_nat (length content) -> blockSize <= int_max ->
  NoDup order ->
  forall offset found, 0 <= offset ->
  (offset = 0 \/ "FileVault v2" ∉ order) ->
  exists found',
    detect_loop content blockSize order offset found = Returns found' /\
    forall name,
      found' !! name
      = match signatures !! name with
        | Some entry =>
            if decide (name ∈ order)
            then Some (found_get found name + ruleCount content blockSize entry)
            else found !! name
        | None => found !! name
        end.
Proof.
  intros [Hpos Hlen] Hmax.
  induction order as [|sigType order IH]; intros Hnodup offset found Hoff Hstart.
  - exists found. split; [done|]. intros name.
    destruct (signatures !! name); [|done].
    rewrite decide_False; [done|]. apply not_elem_of_nil.
  - apply NoDup_cons in Hnodup as [Hfresh Hnodup].
    cbn [detect_loop].
    destruct (signatures !! sigType) as [entry|] eqn:Hentry.
    2:{ destruct (IH Hnodup offset found Hoff) as (found' & -> & Hget).
        { destruct Hstart as [->|Hfv]; [by left|right].
          intros Hin. apply Hfv, elem_of_cons. by right. }
        exists found'. split; [done|]. intros name. rewrite Hget.
        destruct (signatures !! name) as [e|] eqn:He; [|done].
        assert (name <> sigType) by congruence.
        destruct (decide (name ∈ order)) as [Hin|Hnin].
        - rewrite decide_True by (apply elem_of_cons; by right). done.
        - rewrite decide_False; [done|]. intros [?|?]%elem_of_cons; done. }
    assert (Hstep : forall cnt offset',
              0 <= offset' -> (offset' = 0 \/ "FileVault v2" ∉ order) ->
              cnt = ruleCount content blockSize entry ->
              exists found',
                detect_loop content blockSize order offset' (found_add sigType cnt found)
                = Returns found' /\
                forall name,
                  found' !! name
                  = match signatures !! name with
                    | Some entry0 =>
                        if decide (name ∈ sigType :: order)
                        then Some (found_get found name + ruleCount content blockSize entry0)
                        else found !! name
                    | None => found !! name
                    end).
    { intros cnt offset' Hoff' Hstart' ->.
      destruct (IH Hnodup offset' (found_add sigType (ruleCount content blockSize entry) found)
                  Hoff' Hstart') as (found' & -> & Hget).
      exists found'. split; [done|]. intros name. rewrite Hget.
      destruct (signatures !! name) as [e|] eqn:He.
      - destruct (decide (name = sigType)) as [->|Hne].
        + rewrite decide_False by done.
          rewrite decide_True by (apply elem_of_cons; by left).
          rewrite found_add_lookup, decide_True by done. congruence.
        + destruct (decide (name ∈ order)) as [Hin|Hnin].
          * rewrite decide_True by (apply elem_of_cons; by right).
            rewrite found_get_add, decide_False by done. done.
          * rewrite decide_False by (intros [?|?]%elem_of_cons; done).
            rewrite found_add_lookup, decide_False by done. done.
      - rewrite found_add_lookup, decide_False by congruence. done. }
    destruct (signatures_sector _ _ Hentry) as [_ [[Hs Hname]|[[Hs Hname]|(Hs & Hn1 & Hn2)]]].
    + (* the full scan, from the start of the file *)
      rewrite Hs. change (0 =? 0) with true. cbv beta match.
      assert (offset = 0) as ->.
      { destruct Hstart as [->|Hfv]; [done|]. exfalso. apply Hfv, elem_of_cons. by left. }
      rewrite scan_loop_sum by lia.
      unfold mbind, outcome_bind, obind. cbn [fst snd].
      apply Hstep.
      * lia.
      * right. by rewrite <- Hname.
      * unfold ruleCount. rewrite Hs. change (0 =? 0) with true. cbv beta iota zeta.
        change (drop (Z.to_nat 0) content) with content. lia.
    + (* the probe from the end of the file *)
      rewrite Hs. change (-1 =? 0) with false. cbv beta match.
      rewrite probeSeek_backward by done.
      unfold mbind, outcome_bind, obind, file_ReadAt.
      rewrite take_drop_last by lia.
      assert (Hblock : (length (drop (length content - Z.to_nat blockSize) content) =? 0)%nat
                       = false).
      { apply Nat.eqb_neq. rewrite length_drop. lia. }
      rewrite Hblock. apply Hstep; [lia|by left|].
      unfold ruleCount. rewrite Hs. reflexivity.
    + (* a probe of the first block *)
      rewrite Hs. change (1 =? 0) with false. cbv beta match.
      rewrite probeSeek_forward.
      unfold mbind, outcome_bind, obind, file_ReadAt.
      change (drop (Z.to_nat 0) content) with content.
      assert (Hblock : (length (take (Z.to_nat blockSize) content) =? 0)%nat = false).
      { apply Nat.eqb_neq. rewrite length_take. lia. }
      rewrite Hblock. apply Hstep; [lia|by left|].
      unfold ruleCount. rewrite Hs. reflexivity.
Qed.

Lemma foundSignaturesTotal_init_lookup (name : string) :
  foundSignaturesTotal_init !! name = (fun _ => 0) <$> (signatures !! name).
Proof. unfold foundSignaturesTotal_init. apply lookup_fmap. Qed.

(** X9.  On a file of at least one block the targeted mode of
    [EncToolDetection] returns, and what it returns does not depend on the
    order in which [range] hands out the rules: every tool gets the count of
    its own rule, the matches within the first block for BitLocker, LUKSv1,
    LUKSv2 and PGP WDE, within the last [blockSize] bytes for FreeBSD GELI,
    and within all blocks for FileVault v2. *)
Theorem EncToolDetection_targeted_counts (content : list byte) (blockSize : Z)
    (order : list string) :
  0 < blockSize <= Z.of_nat (length content) -> blockSize <= int_max ->
  order ≡ₚ toolNames ->
  EncToolDetection content blockSize false order
  = Returns (ruleCount content blockSize <$> signatures).
Proof.
  intros Hsize Hmax Hperm. unfold EncToolDetection.
  destruct (Z.ltb_spec blockSize 0); [lia|].
  assert (Hnodup : NoDup order).
  { rewrite Hperm. apply (bool_decide_unpack (NoDup toolNames)). vm_compute. exact I. }
  destruct (detect_loop_counts content blockSize order Hsize Hmax Hnodup 0
              foundSignaturesTotal_init ltac:(lia) ltac:(by left))
    as (found & -> & Hget).
  f_equal. apply map_eq. intros name.
  rewrite Hget, lookup_fmap.
  destruct (signatures !! name) as [entry|] eqn:Hentry.
  - destruct (signatures_sector _ _ Hentry) as [Hin _].
    rewrite decide_True by (by rewrite Hperm).
    unfold found_get. rewrite foundSignaturesTotal_init_lookup, Hentry. simpl. f_equal.
  - rewrite foundSignaturesTotal_init_lookup, Hentry. done.
Qed.

Lemma EncToolDetection_targeted_counts_witness :
  EncToolDetection image_magic_first 16 false toolNames
  = Returns (ruleCount image_magic_first 16 <$> signatures).
Proof.
  apply (EncToolDetection_targeted_counts image_magic_first 16 toolNames).
  - simpl. lia.
  - vm_compute. discriminate.
  - reflexivity.
Defined.

Lemma probeSeek_before_start (content : list byte) (blockSize : Z) :
  0 < blockSize <= int_max -> Z.of_nat (length content) < blockSize ->
  probeSeek content blockSize (-1) = Returns None.
Proof.
  intros [Hpos Hmax] Hlen. unfold probeSeek.
  change (-1 <? 0) with true. cbv beta iota.
  assert (Hk : int_of_float64 (PrimFloat.abs (float64_of_Z (-1)) - 2)%float = Returns (-1))
    by (vm_compute; reflexivity).
  rewrite Hk. unfold mbind, outcome_bind, obind.
  rewrite wrap_int_small by (unfold int_min, int_max in *; lia).
  unfold file_Seek. change (2 =? 2) with true. cbv beta iota.
  destruct (Z.ltb_spec (Z.of_nat (length content) + blockSize * -1) 0); [done|lia].
Qed.

Lemma GELI_in_table :
  exists entry, signatures !! "FreeBSD GELI" = Some entry /\ sector entry = -1.
Proof. eexists. split; [vm_compute; reflexivity|reflexivity]. Qed.

Lemma detect_loop_short_file (content : list byte) (blockSize : Z) (order : list string) :
  0 < Z.of_nat (length content) < blockSize -> blockSize <= int_max ->
  "FreeBSD GELI" ∈ order ->
  forall offset found, 0 <= offset ->
  detect_loop content blockSize order offset found = Aborts Fatal_Seek.
Proof.
  intros [Hne Hlen] Hmax.
  destruct GELI_in_table as (geli & Hgeli & Hgs).
  induction order as [|sigType order IH]; intros Hin offset found Hoff.
  - by apply elem_of_nil in Hin.
  - cbn [detect_loop].
    destruct (signatures !! sigType) as [entry|] eqn:Hentry.
    2:{ apply IH; [|done]. apply elem_of_cons in Hin as [<-|Hin]; [congruence|done]. }
    destruct (signatures_sector _ _ Hentry) as [_ [[Hs Hname]|[[Hs Hname]|(Hs & Hn1 & Hn2)]]].
    + rewrite Hs. change (0 =? 0) with true. cbv beta match.
      rewrite scan_loop_sum by lia.
      unfold mbind, outcome_bind, obind. cbn [fst snd].
      apply IH; [|lia].
      apply elem_of_cons in Hin as [Heq|Hin]; [|done]. rewrite Hname in Heq. discriminate Heq.
    + rewrite Hs. change (-1 =? 0) with false. cbv beta match.
      rewrite probeSeek_before_start by lia. reflexivity.
    + rewrite Hs. change (1 =? 0) with false. cbv beta match.
      rewrite probeSeek_forward.
      unfold mbind, outcome_bind, obind, file_ReadAt.
      change (drop (Z.to_nat 0) content) with content.
      assert (Hblock : (length (take (Z.to_nat blockSize) content) =? 0)%nat = false).
      { apply Nat.eqb_neq. rewrite length_take. lia. }
      rewrite Hblock. apply IH; [|lia].
      apply elem_of_cons in Hin as [Heq|Hin]; [|done]. congruence.
Qed.

(** X10.  On a file that is not empty and shorter than one block the
    targeted mode of [EncToolDetection] never returns, in whichever order
    the rules are visited: the rule of FreeBSD GELI seeks one block back
    from the end of the file, before its start, and the seek error ends the
    process ([log.Fatalln]). *)
Theorem EncToolDetection_short_file_is_fatal (content : list byte) (blockSize : Z)
    (order : list string) :
  0 < Z.of_nat (length content) < blockSize -> blockSize <= int_max ->
  order ≡ₚ toolNames ->
  EncToolDetection content blockSize false order = Aborts Fatal_Seek.
Proof.
  intros Hsize Hmax Hperm. unfold EncToolDetection.
  destruct (Z.ltb_spec blockSize 0); [lia|].
  apply detect_loop_short_file; [done|done| |lia].
  rewrite Hperm. unfold toolNames. apply elem_of_cons. by left.
Qed.

Lemma EncToolDetection_short_file_is_fatal_witness :
  EncToolDetection LUKSv1_magic 1048576 false toolNames = Aborts Fatal_Seek.
Proof.
  apply (EncToolDetection_short_file_is_fatal LUKSv1_magic 1048576 toolNames).
  - simpl. lia.
  - vm_compute. discriminate.
  - reflexivity.
Defined.

Lemma found_add_zero (name : string) (found : gmap string Z) :
  is_Some (found !! name) -> found_add name 0 found = found.
Proof.
  intros [v Hv]. unfold found_add, found_get. rewrite Hv. simpl.
  rewrite Z.add_0_r. by apply insert_id.
Qed.

(** The loop over the rules on the empty file: the rule of FileVault
    counts nothing; the first other rule decides, the one of FreeBSD GELI by
    a fatal seek error, any other by leaving the loop. *)
Lemma detect_loop_empty_file (blockSize : Z) (order : list string) :
  0 < blockSize <= int_max ->
  forall offset, 0 <= offset ->
  detect_loop [] blockSize order offset foundSignaturesTotal_init
  = match filter (fun name => name <> "FileVault v2"
                              /\ is_Some (signatures !! name)) order with
    | name :: _ =>
        if decide (name = "FreeBSD GELI") then Aborts Fatal_Seek
        else Returns foundSignaturesTotal_init
    | [] => Returns foundSignaturesTotal_init
    end.
Proof.
  intros Hbs. induction order as [|sigType order IH]; intros offset Hoff; [done|].
  cbn [detect_loop]. rewrite filter_cons.
  destruct (decide (sigType <> "FileVault v2" /\ is_Some (signatures !! sigType)))
    as [[Hfv [entry Hentry]]|Hskip].
  - rewrite Hentry.
    destruct (signatures_sector _ _ Hentry) as [_ [[Hs Hname]|[[Hs Hname]|(Hs & Hn1 & Hn2)]]].
    + contradiction.
    + destruct (decide (sigType = "FreeBSD GELI")) as [_|Hne]; [|contradiction].
      rewrite Hs. change (-1 =? 0) with false. cbv beta match.
      rewrite probeSeek_before_start by (simpl; lia). reflexivity.
    + destruct (decide (sigType = "FreeBSD GELI")) as [Heq|_]; [contradiction|].
      rewrite Hs. change (1 =? 0) with false. cbv beta match.
      rewrite probeSeek_forward.
      unfold mbind, outcome_bind, obind, file_ReadAt.
      rewrite drop_nil, take_nil. reflexivity.
  - destruct (signatures !! sigType) as [entry|] eqn:Hentry; [|by apply IH].
    destruct (signatures_sector _ _ Hentry) as [_ [[Hs Hname]|[[Hs Hname]|(Hs & Hn1 & Hn2)]]].
    + rewrite Hs. change (0 =? 0) with true. cbv beta match.
      rewrite scan_loop_sum by (simpl; lia).
      unfold mbind, outcome_bind, obind. cbn [fst snd].
      rewrite drop_nil, blocksOf_nil. cbn [fmap list_fmap sumZ foldr].
      rewrite found_add_zero.
      * apply IH. simpl. lia.
      * rewrite foundSignaturesTotal_init_lookup, Hentry. by eexists.
    + exfalso. apply Hskip. split; [by rewrite Hname|by eexists].
    + exfalso. apply Hskip. split; [done|by eexists].
Qed.

Lemma filter_iff_in {A} (P Q : A -> Prop) `{!forall x, Decision (P x)}
    `{!forall x, Decision (Q x)} (l : list A) :
  (forall x, x ∈ l -> P x <-> Q x) -> filter P l = filter Q l.
Proof.
  induction l as [|x l IH]; intros Hiff; [done|].
  rewrite !filter_cons.
  assert (HPQ : P x <-> Q x) by (apply Hiff, elem_of_cons; by left).
  rewrite IH by (intros y Hy; apply Hiff, elem_of_cons; by right).
  destruct (decide (P x)), (decide (Q x)); tauto || done.
Qed.

(** X11.  On the empty file the outcome of the targeted mode depends on
    the order in which [range] hands out the rules, which Go leaves
    unspecified: if the rule of FreeBSD GELI comes before the rules of
    BitLocker, LUKSv1, LUKSv2 and PGP WDE, the seek error ends the process;
    otherwise the first of these four reads nothing, the loop is left and
    every count is 0.  Both happen. *)
Theorem EncToolDetection_empty_file_depends_on_order (blockSize : Z)
    (order : list string) :
  0 < blockSize <= int_max -> order ≡ₚ toolNames ->
  EncToolDetection [] blockSize false order
  = (if decide (head (filter (fun name => name <> "FileVault v2") order)
                = Some "FreeBSD GELI")
     then Aborts Fatal_Seek
     else Returns foundSignaturesTotal_init) /\
  EncToolDetection [] blockSize false toolNames = Aborts Fatal_Seek /\
  EncToolDetection [] blockSize false (reverse toolNames)
  = Returns foundSignaturesTotal_init.
Proof.
  intros Hbs Hperm.
  assert (Hrun : forall order',
            EncToolDetection [] blockSize false order'
            = match filter (fun name => name <> "FileVault v2"
                                        /\ is_Some (signatures !! name)) order' with
              | name :: _ =>
                  if decide (name = "FreeBSD GELI") then Aborts Fatal_Seek
                  else Returns foundSignaturesTotal_init
              | [] => Returns foundSignaturesTotal_init
              end).
  { intros order'. unfold EncToolDetection.
    destruct (Z.ltb_spec blockSize 0); [lia|].
    apply detect_loop_empty_file; [done|lia]. }
  split; [|split].
  - rewrite Hrun.
    assert (Hfilter : filter (fun name => name <> "FileVault v2"
                                          /\ is_Some (signatures !! name)) order
                      = filter (fun name => name <> "FileVault v2") order).
    { apply filter_iff_in. intros name Hin.
      split; [by intros [? _]|]. intros Hne. split; [done|].
      apply toolNames_in_table. by rewrite <- Hperm. }
    rewrite Hfilter.
    destruct (filter (fun name => name <> "FileVault v2") order) as [|name rest];
      cbn [head].
    + destruct (decide (None = Some "FreeBSD GELI")); [discriminate|reflexivity].
    + destruct (decide (Some name = Some "FreeBSD GELI")) as [Heq|Hneq];
        destruct (decide (name = "FreeBSD GELI")) as [Hname|Hne];
        try reflexivity; congruence.
  - rewrite Hrun. reflexivity.
  - rewrite Hrun. reflexivity.
Qed.

Lemma EncToolDetection_empty_file_depends_on_order_witness :
  EncToolDetection [] 1048576 false toolNames
  = (if decide (head (filter (fun name => name <> "FileVault v2") toolNames)
                = Some "FreeBSD GELI")
     then Aborts Fatal_Seek
     else Returns foundSignaturesTotal_init) /\
  EncToolDetection [] 1048576 false toolNames = Aborts Fatal_Seek /\
  EncToolDetection [] 1048576 false (reverse toolNames)
  = Returns foundSignaturesTotal_init.
Proof.
  apply (EncToolDetection_empty_file_depends_on_order 1048576 toolNames).
  - vm_compute. split; [reflexivity|discriminate].
  - reflexivity.
Defined.

(** One block of the exhaustive mode: every rule of [order] adds its
    matches within the block. *)
Lemma hailMary_block_counts (block : list byte) (order : list string) :
  NoDup order ->
  forall found name,
    foldl (fun found sigType =>
             match signatures !! sigType with
             | Some entry =>
                 found_add sigType
                   (FindBytesPattern (hex_EncodeToString block) (sig_regex entry)) found
             | None => found
             end) found order !! name
    = match signatures !! name with
      | Some entry =>
          if decide (name ∈ order)
          then Some (found_get found name + matchesIn (sig_regex entry) block)
          else found !! name
      | None => found !! name
      end.
Proof.
  induction order as [|sigType order IH]; intros Hnodup found name.
  - cbn [foldl]. destruct (signatures !! name); [|done].
    rewrite decide_False; [done|]. apply not_elem_of_nil.
  - apply NoDup_cons in Hnodup as [Hfresh Hnodup].
    cbn [foldl]. rewrite (IH Hnodup).
    destruct (signatures !! name) as [e|] eqn:He.
    + destruct (decide (name = sigType)) as [->|Hne].
      * rewrite decide_False by done.
        rewrite decide_True by (apply elem_of_cons; by left).
        rewrite He, found_add_lookup, decide_True by done. reflexivity.
      * destruct (decide (name ∈ order)) as [Hin|Hnin].
        -- rewrite decide_True by (apply elem_of_cons; by right).
           destruct (signatures !! sigType); [|done].
           rewrite found_get_add, decide_False by done. done.
        -- rewrite decide_False by (intros [?|?]%elem_of_cons; done).
           destruct (signatures !! sigType); [|done].
           rewrite found_add_lookup, decide_False by done. done.
    + destruct (signatures !! sigType) eqn:Hs; [|done].
      rewrite found_add_lookup, decide_False by congruence. done.
Qed.

Lemma hailMary_loop_counts (fuel : nat) (content : list byte) (blockSize : nat)
    (order : list string) :
  (0 < blockSize)%nat -> NoDup order ->
  forall offset found, 0 <= offset ->
  (length content - Z.to_nat offset < fuel)%nat ->
  (forall name entry, signatures !! name = Some entry -> is_Some (found !! name)) ->
  exists found',
    hailMary_loop fuel content blockSize order offset found = Returns found' /\
    forall name,
      found' !! name
      = match signatures !! name with
        | Some entry =>
            if decide (name ∈ order)
            then Some (found_get found name
                       + sumZ (matchesIn (sig_regex entry)
                               <$> blocksOf blockSize (drop (Z.to_nat offset) content)))
            else found !! name
        | None => found !! name
        end.
Proof.
  intros Hbs Hnodup.
  induction fuel as [|fuel IH]; intros offset found Hoff Hfuel Hsome; [lia|].
  cbn [hailMary_loop]. unfold file_ReadAt.
  set (rest := drop (Z.to_nat offset) content).
  assert (Hrest : length rest = (length content - Z.to_nat offset)%nat)
    by (subst rest; apply length_drop).
  destruct (length (take blockSize rest) =? 0)%nat eqn:Hlen.
  - apply Nat.eqb_eq in Hlen. rewrite length_take in Hlen.
    assert (Hnil : rest = []) by (apply length_zero_iff_nil; lia).
    exists found. split; [done|]. intros name. rewrite Hnil, blocksOf_nil.
    cbn [fmap list_fmap sumZ foldr].
    destruct (signatures !! name) as [e|] eqn:He; [|done].
    destruct (decide (name ∈ order)); [|done].
    destruct (Hsome name e He) as [v Hv]. unfold found_get. rewrite Hv. simpl.
    f_equal. lia.
  - apply Nat.eqb_neq in Hlen. rewrite length_take in Hlen.
    set (found1 := foldl _ found order).
    assert (Hfound1 : forall name,
              found1 !! name
              = match signatures !! name with
                | Some entry =>
                    if decide (name ∈ order)
                    then Some (found_get found name
                               + matchesIn (sig_regex entry) (take blockSize rest))
                    else found !! name
                | None => found !! name
                end)
      by (intros name; apply hailMary_block_counts; exact Hnodup).
    destruct (IH (offset + Z.of_nat (length (take blockSize rest))) found1)
      as (found' & -> & Hget).
    + lia.
    + rewrite length_take. lia.
    + intros name e He. rewrite Hfound1, He.
      destruct (decide (name ∈ order)); [by eexists|]. by apply (Hsome name e).
    + exists found'. split; [done|]. intros name. rewrite Hget.
      assert (Hne : rest <> []) by (intros Heq; rewrite Heq in Hlen; simpl in Hlen; lia).
      rewrite (blocksOf_cons blockSize rest Hbs Hne).
      assert (Hdrop : drop (Z.to_nat (offset + Z.of_nat (length (take blockSize rest)))) content
                      = drop blockSize rest).
      { subst rest. rewrite drop_drop, length_take, length_drop.
        destruct (Nat.le_gt_cases blockSize (length content - Z.to_nat offset)) as [Hle|Hgt].
        - f_equal. lia.
        - rewrite !drop_ge; [done|lia|lia]. }
      rewrite Hdrop.
      destruct (signatures !! name) as [e|] eqn:He; [|by rewrite Hfound1, He].
      destruct (decide (name ∈ order)) as [Hin|Hnin].
      * unfold found_get at 1. rewrite Hfound1, He, decide_True by done.
        cbn [fmap list_fmap sumZ foldr default]. f_equal. unfold sumZ, Datatypes.id. lia.
      * rewrite Hfound1, He, decide_False by done. done.
Qed.

(** X12.  The exhaustive mode of [EncToolDetection] returns for every file
    and every positive block size, the empty file included, and what it
    returns does not depend on the order in which [range] hands out the
    rules: every tool gets the matches of its pattern within all the blocks
    of the file. *)
Theorem EncToolDetection_exhaustive_counts (content : list byte) (blockSize : Z)
    (order : list string) :
  0 < blockSize -> order ≡ₚ toolNames ->
  EncToolDetection content blockSize true order
  = Returns (ruleCountAll content blockSize <$> signatures).
Proof.
  intros Hpos Hperm. unfold EncToolDetection.
  destruct (Z.ltb_spec blockSize 0); [lia|].
  assert (Hnodup : NoDup order).
  { rewrite Hperm. apply (bool_decide_unpack (NoDup toolNames)). vm_compute. exact I. }
  destruct (hailMary_loop_counts (S (length content)) content (Z.to_nat blockSize) order
              ltac:(lia) Hnodup 0 foundSignaturesTotal_init ltac:(lia) ltac:(simpl; lia))
    as (found & -> & Hget).
  { intros name e He. rewrite foundSignaturesTotal_init_lookup, He. by eexists. }
  f_equal. apply map_eq. intros name.
  rewrite Hget, lookup_fmap.
  destruct (signatures !! name) as [entry|] eqn:Hentry.
  - destruct (signatures_sector _ _ Hentry) as [Hin _].
    rewrite decide_True by (by rewrite Hperm).
    unfold found_get. rewrite foundSignaturesTotal_init_lookup, Hentry. simpl. f_equal.
  - rewrite foundSignaturesTotal_init_lookup, Hentry. done.
Qed.

Lemma EncToolDetection_exhaustive_counts_witness :
  EncToolDetection image_magic_first 16 true toolNames
  = Returns (ruleCountAll image_magic_first 16 <$> signatures).
Proof.
  apply (EncToolDetection_exhaustive_counts image_magic_first 16 toolNames).
  - lia.
  - reflexivity.
Defined.

(** ** What makes the handler report an encryption tool *)

Lemma noEncToolResults_init : noEncToolResults = (fun _ => 0) <$> signatures.
Proof. apply (bool_decide_unpack _). vm_compute. exact I. Qed.

(** X13.  The detection and the handler together, on a file of at least one
    block: the handler sets [encToolFound] exactly when some rule of the table
    has a match where the targeted mode looks for it, in whichever order the
    rules are visited. *)
Theorem handler_reports_tool_iff_a_rule_matches (content : list byte) (blockSize : Z)
    (order : list string) (t : testOutcomes) :
  0 < blockSize <= Z.of_nat (length content) -> blockSize <= int_max ->
  order ≡ₚ toolNames ->
  EncToolDetection content blockSize false order = Returns (encToolResult t) ->
  encToolFound (decide_encryption t) = true <->
  exists name entry,
    signatures !! name = Some entry /\ ruleCount content blockSize entry <> 0.
Proof.
  intros Hsize Hmax Hperm Hrun.
  assert (Hresult : encToolResult t = ruleCount content blockSize <$> signatures).
  { unfold EncToolDetection in Hrun.
    destruct (Z.ltb_spec blockSize 0); [lia|].
    assert (Hnodup : NoDup order).
    { rewrite Hperm. apply (bool_decide_unpack (NoDup toolNames)). vm_compute. exact I. }
    destruct (detect_loop_counts content blockSize order Hsize Hmax Hnodup 0
                foundSignaturesTotal_init ltac:(lia) ltac:(by left))
      as (found & Hfound & Hget).
    rewrite Hfound in Hrun. injection Hrun as <-.
    apply map_eq. intros name.
    rewrite Hget, lookup_fmap.
    destruct (signatures !! name) as [entry|] eqn:Hentry.
    - destruct (signatures_sector _ _ Hentry) as [Hin _].
      rewrite decide_True by (by rewrite Hperm).
      unfold found_get. rewrite foundSignaturesTotal_init_lookup, Hentry. simpl. f_equal.
    - rewrite foundSignaturesTotal_init_lookup, Hentry. done. }
  unfold decide_encryption, maps_Equal. rewrite Hresult, noEncToolResults_init.
  destruct (decide (map_Forall (fun _ entry => ruleCount content blockSize entry = 0)
                      signatures)) as [Hall|Hsome].
  - rewrite bool_decide_eq_true_2.
    + cbn [negb]. destruct (slices_Contains _ _); [destruct (stage2Vote _)|destruct (fle _ _)];
        (split; [discriminate|]); intros (name & entry & Hentry & Hne);
        by specialize (Hall name entry Hentry).
    + apply map_eq. intros name. rewrite !lookup_fmap.
      destruct (signatures !! name) as [entry|] eqn:Hentry; [|done].
      cbn. f_equal. by apply (Hall name entry).
  - apply map_not_Forall in Hsome as (name & entry & Hentry & Hne); [|apply _].
    rewrite bool_decide_eq_false_2.
    + cbn [negb encToolFound]. split; [|done]. intros _. by exists name, entry.
    + intros Heq. apply (f_equal (fun m => m !! name)) in Heq.
      rewrite !lookup_fmap, Hentry in Heq. cbn in Heq. congruence.
Qed.

Lemma handler_reports_tool_iff_a_rule_matches_witness :
  let t := {| encToolResult := ruleCount image_magic_first 16 <$> signatures;
              autocorrResult := 0%float;
              partedResult := EmptyString;
              ksStatistic := 0%float;
              compressionStat := 1%float;
              signatureStat := 0%float;
              entropyStat := 8%float |} in
  encToolFound (decide_encryption t) = true <->
  exists name entry,
    signatures !! name = Some entry /\ ruleCount image_magic_first 16 entry <> 0.
Proof.
  intros t.
  apply (handler_reports_tool_iff_a_rule_matches image_magic_first 16 toolNames t).
  - simpl. lia.
  - vm_compute. discriminate.
  - reflexivity.
  - vm_compute. reflexivity.
Defined.

(** ** The file-signature test, block by block *)

Section SignatureAnalysisProperties.

Context {Regex : Type}.
Variable rure_FindAll : Regex -> list ascii -> list Z.
Variable fileSignatures : gmap string Regex.

Lemma SignatureAnalysis_block_counts (block : list byte) (order : list string) :
  NoDup order ->
  forall found name,
    foldl (fun found sigType =>
             match fileSignatures !! sigType with
             | Some re =>
                 found_add sigType
                   (FindBytesPattern_rure rure_FindAll (hex_EncodeToString block) re) found
             | None => found
             end) found order !! name
    = match fileSignatures !! name with
      | Some re =>
          if decide (name ∈ order)
          then Some (found_get found name
                     + FindBytesPattern_rure rure_FindAll (hex_EncodeToString block) re)
          else found !! name
      | None => found !! name
      end.
Proof.
  induction order as [|sigType order IH]; intros Hnodup found name.
  - cbn [foldl]. destruct (fileSignatures !! name); [|done].
    rewrite decide_False; [done|]. apply not_elem_of_nil.
  - apply NoDup_cons in Hnodup as [Hfresh Hnodup].
    cbn [foldl]. rewrite (IH Hnodup).
    destruct (fileSignatures !! name) as [e|] eqn:He.
    + destruct (decide (name = sigType)) as [->|Hne].
      * rewrite decide_False by done.
        rewrite decide_True by (apply elem_of_cons; by left).
        rewrite He, found_add_lookup, decide_True by done. reflexivity.
      * destruct (decide (name ∈ order)) as [Hin|Hnin].
        -- rewrite decide_True by (apply elem_of_cons; by right).
           destruct (fileSignatures !! sigType); [|done].
           rewrite found_get_add, decide_False by done. done.
        -- rewrite decide_False by (intros [?|?]%elem_of_cons; done).
           destruct (fileSignatures !! sigType); [|done].
           rewrite found_add_lookup, decide_False by done. done.
    + destruct (fileSignatures !! sigType) eqn:Hs; [|done].
      rewrite found_add_lookup, decide_False by congruence. done.
Qed.

Lemma SignatureAnalysis_loop_counts (order : nat -> list string) (blockSize : nat) :
  (0 < blockSize)%nat ->
  (forall turn, NoDup (order turn) /\
                forall name, name ∈ order turn <-> is_Some (fileSignatures !! name)) ->
  forall (fuel : nat) (rest : list byte) (turn : nat) (found : gmap string Z),
  (length rest < fuel)%nat ->
  (forall name re, fileSignatures !! name = Some re -> is_Some (found !! name)) ->
  exists found',
    SignatureAnalysis_loop rure_FindAll fileSignatures fuel blockSize rest order turn found
    = Returns found' /\
    forall name,
      found' !! name
      = match fileSignatures !! name with
        | Some re =>
            Some (found_get found name
                  + signatureCount rure_FindAll rest (Z.of_nat blockSize) re)
        | None => found !! name
        end.
Proof.
  intros Hbs Horder. unfold signatureCount. rewrite Nat2Z.id.
  induction fuel as [|fuel IH]; intros rest turn found Hfuel Hsome; [lia|].
  cbn [SignatureAnalysis_loop file_Read].
  destruct (Nat.eqb_spec (length (take blockSize rest)) 0) as [Hz|Hnz].
  - assert (rest = []) as ->.
    { destruct rest; [done|]. rewrite length_take in Hz. simpl in Hz. lia. }
    exists found. split; [done|]. intros name. rewrite blocksOf_nil.
    destruct (fileSignatures !! name) as [re|] eqn:Hre; [|done].
    destruct (Hsome name re Hre) as [v Hv].
    unfold found_get. rewrite Hv. cbn. f_equal. lia.
  - destruct (Horder turn) as [Hnodup Hkeys].
    set (found1 := foldl _ found (order turn)).
    assert (Hfound1 : forall name,
               found1 !! name
               = match fileSignatures !! name with
                 | Some re =>
                     Some (found_get found name
                           + FindBytesPattern_rure rure_FindAll
                               (hex_EncodeToString (take blockSize rest)) re)
                 | None => found !! name
                 end).
    { intros name. unfold found1.
      rewrite (SignatureAnalysis_block_counts (take blockSize rest) (order turn) Hnodup).
      destruct (fileSignatures !! name) as [re|] eqn:Hre; [|done].
      rewrite decide_True; [done|]. apply Hkeys. by eexists. }
    destruct (IH (drop blockSize rest) (S turn) found1) as (found' & -> & Hget).
    + rewrite length_drop. rewrite length_take in Hnz. lia.
    + intros name re Hre. rewrite Hfound1, Hre. by eexists.
    + exists found'. split; [done|]. intros name. rewrite Hget.
      assert (Hne : rest <> []) by (intros ->; simpl in Hnz; rewrite take_nil in Hnz; done).
      rewrite (blocksOf_cons blockSize rest Hbs Hne).
      destruct (fileSignatures !! name) as [re|] eqn:Hre; [|by rewrite Hfound1, Hre].
      unfold found_get at 1. rewrite Hfound1, Hre.
      cbn [fmap list_fmap sumZ foldr default]. f_equal. unfold sumZ, Datatypes.id. lia.
Qed.

Lemma sum_zero (m : gmap string Regex) : sum ((fun _ => 0) <$> m) = 0.
Proof.
  unfold sum. induction m as [|name re m Hfresh IH] using map_ind.
  - by rewrite fmap_empty, map_fold_empty.
  - rewrite fmap_insert, map_fold_insert_L.
    + rewrite IH. reflexivity.
    + intros. lia.
    + by rewrite lookup_fmap, Hfresh.
Qed.

(** X14.  The value of [SignatureAnalysis] for a positive block size: the
    function returns, whatever the order in which [range] hands out the
    patterns in each turn, the sum over the table of each pattern's matches
    within the blocks of the file, divided by the size of the file in MiB.  A
    match that extends over two blocks is thus not counted.  For the empty
    file the value is NaN. *)
Theorem SignatureAnalysis_matches_per_MiB (content : list byte) (blockSize : Z)
    (order : nat -> list string) :
  0 < blockSize ->
  (forall turn, NoDup (order turn) /\
                forall name, name ∈ order turn <-> is_Some (fileSignatures !! name)) ->
  SignatureAnalysis rure_FindAll fileSignatures content blockSize order
  = Returns (float64_of_Z (sum (signatureCount rure_FindAll content blockSize
                                  <$> fileSignatures))
             / (float64_of_Z (Z.of_nat (length content)) / 1048576))%float /\
  (content = [] ->
   SignatureAnalysis rure_FindAll fileSignatures content blockSize order = Returns nan).
Proof.
  intros Hpos Horder.
  assert (Hret : SignatureAnalysis rure_FindAll fileSignatures content blockSize order
                 = Returns (float64_of_Z (sum (signatureCount rure_FindAll content blockSize
                                                 <$> fileSignatures))
                            / (float64_of_Z (Z.of_nat (length content)) / 1048576))%float).
  { unfold SignatureAnalysis. destruct (Z.ltb_spec blockSize 0); [lia|].
    destruct (SignatureAnalysis_loop_counts order (Z.to_nat blockSize) ltac:(lia) Horder
                (S (length content)) content 0%nat ((fun _ => 0) <$> fileSignatures))
      as (found' & -> & Hget).
    - lia.
    - intros name re Hre. rewrite lookup_fmap, Hre. by eexists.
    - unfold mbind, outcome_bind, obind. do 4 f_equal.
      apply map_eq. intros name. rewrite Hget, Z2Nat.id by lia.
      unfold found_get. rewrite !lookup_fmap.
      destruct (fileSignatures !! name) as [re|]; [|done]. cbn. f_equal. }
  split; [exact Hret|].
  intros ->. rewrite Hret. f_equal. unfold signatureCount. rewrite blocksOf_nil.
  cbn [fmap list_fmap sumZ foldr length]. rewrite sum_zero. vm_compute. reflexivity.
Qed.

End SignatureAnalysisProperties.

Lemma SignatureAnalysis_matches_per_MiB_witness :
  SignatureAnalysis FindAll (sig_regex <$> signatures) image_magic_first 16
    (fun _ => toolNames)
  = Returns (float64_of_Z (sum (signatureCount FindAll image_magic_first 16
                                  <$> (sig_regex <$> signatures)))
             / (float64_of_Z (Z.of_nat (length image_magic_first)) / 1048576))%float /\
  (image_magic_first = [] ->
   SignatureAnalysis FindAll (sig_regex <$> signatures) image_magic_first 16
     (fun _ => toolNames) = Returns nan).
Proof.
  apply (SignatureAnalysis_matches_per_MiB FindAll (sig_regex <$> signatures)
           image_magic_first 16 (fun _ => toolNames)).
  - lia.
  - intros _. split.
    + apply (bool_decide_unpack (NoDup toolNames)). vm_compute. exact I.
    + intros name. rewrite lookup_fmap, fmap_is_Some. split.
      * apply toolNames_in_table.
      * intros [entry Hentry]. by apply signatures_sector in Hentry as [Hin _].
Defined.

(** ** Counting the matches of a pattern *)

Lemma matches_at_length (re : regex) (data : list ascii) :
  matches_at re data = true -> (length re <= length data)%nat.
Proof.
  revert data. induction re as [|a re IH]; intros data H; [simpl; lia|].
  destruct data as [|c data]; [discriminate|].
  cbn [matches_at] in H. apply andb_prop in H as [_ H]. apply IH in H. simpl. lia.
Qed.

Lemma matches_at_nil (re : regex) : re <> [] -> matches_at re [] = false.
Proof. by destruct re. Qed.

Lemma spaced_tail (n p : nat) (rest : list nat) : spaced n (p :: rest) -> spaced n rest.
Proof. destruct rest as [|q rest]; [done|]. by intros [_ H]. Qed.

Lemma spaced_after_head (n p : nat) (rest : list nat) :
  spaced n (p :: rest) -> Forall (fun q => (p + n <= q)%nat) rest.
Proof.
  revert p. induction rest as [|q rest IH]; intros p H; [constructor|].
  destruct H as [Hpq H]. constructor; [exact Hpq|].
  apply (Forall_impl _ _ _ (IH q H)). intros x Hx. lia.
Qed.

Lemma spaced_map_S (n : nat) (positions : list nat) :
  spaced n (S <$> positions) <-> spaced n positions.
Proof.
  induction positions as [|p [|q rest] IH]; [done|done|].
  change (spaced n (S <$> p :: q :: rest))
    with ((S p + n <= S q)%nat /\ spaced n (S <$> q :: rest)).
  change (spaced n (p :: q :: rest)) with ((p + n <= q)%nat /\ spaced n (q :: rest)).
  rewrite IH. split; intros [H1 H2]; (split; [lia|exact H2]).
Qed.

Lemma positions_shift (positions : list nat) :
  Forall (fun q => (1 <= q)%nat) positions -> positions = S <$> (Nat.pred <$> positions).
Proof.
  induction 1 as [|q rest Hq _ IH]; [done|].
  cbn [fmap list_fmap]. f_equal; [lia|exact IH].
Qed.

(** What [FindAll] reports, from a position of the scan on: the matches at
    certain positions that do not overlap, each past the characters still
    to skip, and no choice of occurrences that do not overlap has more
    members. *)
Lemma FindAll_from_positions (re : regex) (data : list ascii) :
  re <> [] ->
  forall (skip : nat) (pos : Z),
  exists positions : list nat,
    FindAll_from re skip pos data
    = flat_map (fun p => [pos + Z.of_nat p; pos + Z.of_nat p + Z.of_nat (length re)])
               positions /\
    spaced (length re) positions /\
    Forall (fun p => (skip <= p)%nat /\ matches_at re (drop p data) = true) positions /\
    forall others,
      spaced (length re) others ->
      Forall (fun q => (skip <= q)%nat /\ matches_at re (drop q data) = true) others ->
      (length others <= length positions)%nat.
Proof.
  intros Hre.
  assert (Hn : (1 <= length re)%nat) by (destruct re; [done|simpl; lia]).
  induction data as [|c data IH]; intros skip pos.
  - exists []. split; [done|]. split; [done|]. split; [constructor|].
    intros [|q others] _ Hocc; [done|].
    apply Forall_cons in Hocc as [[_ Hq] _].
    rewrite drop_nil, matches_at_nil in Hq by done. discriminate.
  - assert (Hstep : forall skip',
              (forall q, (skip <= q)%nat -> matches_at re (drop q (c :: data)) = true ->
                         (S skip' <= q)%nat) ->
              exists positions,
                FindAll_from re skip' (pos + 1) data
                = flat_map (fun p => [pos + Z.of_nat p; pos + Z.of_nat p + Z.of_nat (length re)])
                           (S <$> positions) /\
                spaced (length re) (S <$> positions) /\
                Forall (fun p => (S skip' <= p)%nat
                                 /\ matches_at re (drop p (c :: data)) = true)
                       (S <$> positions) /\
                forall others,
                  spaced (length re) others ->
                  Forall (fun q => (skip <= q)%nat
                                   /\ matches_at re (drop q (c :: data)) = true) others ->
                  (length others <= length positions)%nat).
    { intros skip' Hfree.
      destruct (IH skip' (pos + 1)) as (positions & Heq & Hsp & Hocc & Hmax).
      exists positions. split; [|split; [|split]].
      - rewrite Heq. clear. induction positions as [|p positions IHp]; [done|].
        cbn [fmap list_fmap flat_map app]. rewrite IHp, Nat2Z.inj_succ. f_equal; [lia|]. f_equal. lia.
      - by apply spaced_map_S.
      - apply Forall_fmap. apply (Forall_impl _ _ _ Hocc).
        intros p [Hp Hm]. cbn [compose drop]. split; [lia|exact Hm].
      - intros others Hso Hoo.
        assert (Hge : Forall (fun q => (1 <= q)%nat) others).
        { apply (Forall_impl _ _ _ Hoo). intros q [Hq Hm].
          specialize (Hfree q Hq Hm). lia. }
        rewrite (positions_shift others Hge), length_fmap.
        apply Hmax.
        + apply spaced_map_S. by rewrite <- positions_shift.
        + rewrite (positions_shift others Hge) in Hoo.
          apply Forall_fmap in Hoo. apply (Forall_impl _ _ _ Hoo).
          intros q' [Hq Hm]. cbn [compose drop] in *.
          split; [|exact Hm].
          assert (S skip' <= S q')%nat; [|lia].
          apply Hfree; [exact Hq|exact Hm]. }
    cbn [FindAll_from]. destruct skip as [|skip].
    + destruct (matches_at re (c :: data)) eqn:Hm.
      * destruct (IH (length re - 1)%nat (pos + 1)) as (positions & Heq & Hsp & Hocc & Hmax).
        exists (0%nat :: (S <$> positions)). split; [|split; [|split]].
        -- cbn [flat_map app]. rewrite Heq, Z.add_0_r. do 2 f_equal.
           clear. induction positions as [|p positions IHp]; [done|].
           cbn [fmap list_fmap flat_map app]. rewrite IHp, Nat2Z.inj_succ. f_equal; [lia|]. f_equal. lia.
        -- destruct positions as [|p positions]; [done|].
           split; [|by apply (spaced_map_S _ (p :: positions))].
           apply Forall_cons in Hocc as [[Hp _] _]. lia.
        -- constructor; [split; [lia|exact Hm]|].
           apply Forall_fmap. apply (Forall_impl _ _ _ Hocc).
           intros p [Hp Hmp]. cbn [compose drop]. split; [lia|exact Hmp].
        -- intros [|q others] Hso Hoo; [simpl; lia|].
           pose proof (spaced_after_head _ _ _ Hso) as Hafter.
           apply spaced_tail in Hso. apply Forall_cons in Hoo as [_ Hoo].
           assert (Hge : Forall (fun x => (1 <= x)%nat) others).
           { apply (Forall_impl _ _ _ Hafter). intros x Hx. lia. }
           cbn [length]. rewrite length_fmap.
           rewrite (positions_shift others Hge), length_fmap.
           apply le_n_S, Hmax.
           ++ apply spaced_map_S. by rewrite <- positions_shift.
           ++ apply Forall_fmap, Forall_forall. intros x Hx. cbn [compose].
              rewrite Forall_forall in Hafter, Hoo, Hge.
              specialize (Hafter x Hx). specialize (Hge x Hx).
              destruct (Hoo x Hx) as [_ Hmx].
              split; [lia|].
              replace x with (S (Nat.pred x)) in Hmx by lia. exact Hmx.
      * destruct (Hstep 0%nat) as (positions & Heq & Hsp & Hocc & Hmax).
        { intros [|q] _ Hq; [|lia]. rewrite drop_0 in Hq. congruence. }
        exists (S <$> positions). split; [exact Heq|]. split; [exact Hsp|].
        split; [|by rewrite length_fmap].
        apply (Forall_impl _ _ _ Hocc). intros p [Hp Hmp]. split; [lia|exact Hmp].
    + destruct (Hstep skip) as (positions & Heq & Hsp & Hocc & Hmax).
      { intros q Hq _. exact Hq. }
      exists (S <$> positions). split; [exact Heq|]. split; [exact Hsp|].
      split; [exact Hocc|by rewrite length_fmap].
Qed.

(** X15.  What [FindBytesPattern] returns for a pattern that is not empty:
    the number of the matches that [FindAll] reports, which are occurrences
    of the pattern that do not overlap, listed with their start and end.  It
    is the largest number of occurrences that do not overlap: no choice of
    such occurrences has more members.  So that many copies of the pattern
    fit into the text, and the number is 0 exactly when the pattern matches
    at no position. *)
Theorem FindBytesPattern_counts_matches (data : list ascii) (re : regex) :
  re <> [] ->
  (exists positions : list nat,
     FindAll re data
     = flat_map (fun p => [Z.of_nat p; Z.of_nat p + Z.of_nat (length re)]) positions /\
     FindBytesPattern data re = Z.of_nat (length positions) /\
     spaced (length re) positions /\
     Forall (fun p => matches_at re (drop p data) = true) positions) /\
  (forall others,
     spaced (length re) others ->
     Forall (fun q => matches_at re (drop q data) = true) others ->
     Z.of_nat (length others) <= FindBytesPattern data re) /\
  0 <= FindBytesPattern data re /\
  FindBytesPattern data re * Z.of_nat (length re) <= Z.of_nat (length data) /\
  (FindBytesPattern data re = 0 <-> forall i, matches_at re (drop i data) = false).
Proof.
  intros Hre.
  destruct (FindAll_from_positions re data Hre 0%nat 0) as (positions & Heq & Hsp & Hocc & Hmax).
  assert (Hcount : FindBytesPattern data re = Z.of_nat (length positions)).
  { unfold FindBytesPattern, FindAll. rewrite Heq.
    replace (length (flat_map (fun p => [0 + Z.of_nat p;
                                          0 + Z.of_nat p + Z.of_nat (length re)]) positions))
      with (2 * length positions)%nat.
    - rewrite Nat2Z.inj_mul, Z.mul_comm, Z.div_mul; lia.
    - clear. induction positions as [|p positions IH]; [done|].
      cbn [flat_map app length]. rewrite <- IH. lia. }
  assert (Hoccurs : Forall (fun p => matches_at re (drop p data) = true) positions).
  { apply (Forall_impl _ _ _ Hocc). by intros p [_ Hp]. }
  assert (Hbest : forall others,
            spaced (length re) others ->
            Forall (fun q => matches_at re (drop q data) = true) others ->
            Z.of_nat (length others) <= FindBytesPattern data re).
  { intros others Hso Hoo. rewrite Hcount. apply inj_le, Hmax; [exact Hso|].
    apply (Forall_impl _ _ _ Hoo). intros q Hq. split; [lia|exact Hq]. }
  split; [|split; [exact Hbest|]].
  - exists positions. split; [|by repeat split].
    unfold FindAll. rewrite Heq. apply flat_map_ext. intros p. by rewrite !Z.add_0_l.
  - split; [lia|]. split.
    + rewrite Hcount. clear -Hsp Hoccurs Hre.
      assert (Hfit : forall n, (length (drop n data) = length data - n)%nat)
        by (intros; apply length_drop).
      revert Hsp Hoccurs.
      assert (Hgen : forall start,
                Forall (fun p => (start <= p)%nat) positions ->
                spaced (length re) positions ->
                Forall (fun p => matches_at re (drop p data) = true) positions ->
                (length positions * length re + start <= length data)%nat
                \/ positions = []).
      { induction positions as [|p rest IH]; intros start Hstart Hsp Hocc; [by right|left].
        apply Forall_cons in Hstart as [Hp _]. apply Forall_cons in Hocc as [Hmp Hocc].
        pose proof (spaced_after_head _ _ _ Hsp) as Hafter.
        apply spaced_tail in Hsp.
        destruct (IH (p + length re)%nat Hafter Hsp Hocc) as [Hle| ->].
        - cbn [length]. lia.
        - apply matches_at_length in Hmp. rewrite length_drop in Hmp.
          cbn [length]. destruct re; [done|]. cbn [length] in *. lia. }
      intros Hsp Hocc.
      destruct (Hgen 0%nat) as [Hle| ->]; [|exact Hsp|exact Hocc|nia|simpl; lia].
      apply Forall_forall. intros; lia.
    + split.
      * intros Hzero i. destruct (matches_at re (drop i data)) eqn:Hi; [|done].
        specialize (Hbest [i] I ltac:(by constructor)). simpl in Hbest. lia.
      * intros Hnone. rewrite Hcount. destruct positions as [|p rest]; [done|].
        apply Forall_cons in Hoccurs as [Hp _]. rewrite Hnone in Hp. discriminate.
Qed.

Lemma FindBytesPattern_counts_matches_witness :
  let re := literal "4c554b53babe0001" in
  let data := hex_EncodeToString (LUKSv1_magic ++ LUKSv1_magic) in
  (exists positions : list nat,
     FindAll re data
     = flat_map (fun p => [Z.of_nat p; Z.of_nat p + Z.of_nat (length re)]) positions /\
     FindBytesPattern data re = Z.of_nat (length positions) /\
     spaced (length re) positions /\
     Forall (fun p => matches_at re (drop p data) = true) positions) /\
  (forall others,
     spaced (length re) others ->
     Forall (fun q => matches_at re (drop q data) = true) others ->
     Z.of_nat (length others) <= FindBytesPattern data re) /\
  0 <= FindBytesPattern data re /\
  FindBytesPattern data re * Z.of_nat (length re) <= Z.of_nat (length data) /\
  (FindBytesPattern data re = 0 <-> forall i, matches_at re (drop i data) = false).
Proof.
  intros re data. apply (FindBytesPattern_counts_matches data re).
  vm_compute. discriminate.
Defined.

(** ** Autocorrelation, block by block *)

Lemma AutoCorrelation_loop_blocks
    (stats_Correlation : list float64 -> list float64 -> float64 * bool)
    (blockSize : nat) (blocks : list (list byte)) (tail : list byte) :
  (0 < blockSize)%nat ->
  Forall (fun block => length block = blockSize) blocks ->
  (length tail < blockSize)%nat ->
  forall fuel totalAutocorr,
  (length (concat blocks ++ tail) < fuel)%nat ->
  AutoCorrelation_loop stats_Correlation fuel blockSize (concat blocks ++ tail) totalAutocorr
  = Returns (totalAutocorr ++ (blockScore stats_Correlation <$> blocks)).
Proof.
  intros Hbs Hblocks Htail.
  induction Hblocks as [|block blocks Hblock _ IH]; intros fuel acc Hfuel.
  - destruct fuel as [|fuel]; [lia|]. cbn [AutoCorrelation_loop concat app file_Read].
    rewrite length_take, app_nil_r.
    destruct (blockSize `min` length tail =? 0)%nat eqn:Hzero; [reflexivity|].
    destruct (blockSize `min` length tail <? blockSize)%nat eqn:Hshort; [reflexivity|].
    apply Nat.ltb_ge in Hshort. lia.
  - destruct fuel as [|fuel]; [lia|].
    cbn [AutoCorrelation_loop concat file_Read]. rewrite <- app_assoc.
    rewrite take_app_length', drop_app_length' by (symmetry; exact Hblock).
    rewrite Hblock.
    destruct (blockSize =? 0)%nat eqn:Hzero; [apply Nat.eqb_eq in Hzero; lia|].
    rewrite Nat.ltb_irrefl.
    rewrite IH.
    + rewrite <- app_assoc. reflexivity.
    + cbn [concat] in Hfuel. rewrite <- app_assoc, length_app in Hfuel. lia.
Qed.

(** X16.  [AutoCorrelation] scores the full blocks of the file and nothing
    else: for a file made of blocks of [blockSize] bytes followed by a
    shorter rest, it returns the standard deviation of the scores of these
    blocks, or 0 when [stats.StandardDeviation] reports an error; the bytes
    of the rest do not enter the result. *)
Theorem AutoCorrelation_scores_full_blocks
    (stats_Correlation : list float64 -> list float64 -> float64 * bool)
    (stats_StandardDeviation : list float64 -> float64 * bool)
    (blocks : list (list byte)) (tail : list byte) (blockSize : Z) :
  0 < blockSize ->
  Forall (fun block => Z.of_nat (length block) = blockSize) blocks ->
  Z.of_nat (length tail) < blockSize ->
  AutoCorrelation stats_Correlation stats_StandardDeviation (concat blocks ++ tail) blockSize
  = Returns (let '(std, err) :=
               stats_StandardDeviation (blockScore stats_Correlation <$> blocks) in
             if err then 0%float else std).
Proof.
  intros Hpos Hblocks Htail. unfold AutoCorrelation.
  destruct (Z.ltb_spec blockSize 0); [lia|].
  rewrite (AutoCorrelation_loop_blocks stats_Correlation (Z.to_nat blockSize) blocks tail).
  - unfold mbind, outcome_bind, obind. rewrite app_nil_l.
    destruct (stats_StandardDeviation _) as [std []]; reflexivity.
  - lia.
  - eapply Forall_impl; [exact Hblocks|]. intros block Hb. simpl in Hb. lia.
  - lia.
  - lia.
Qed.

Lemma AutoCorrelation_scores_full_blocks_witness :
  AutoCorrelation stats_Correlation_model stats_StandardDeviation_model
    (concat [["a"; "b"]%byte; ["c"; "d"]%byte] ++ ["e"]%byte) 2
  = Returns (let '(std, err) :=
               stats_StandardDeviation_model
                 (blockScore stats_Correlation_model
                    <$> [["a"; "b"]%byte; ["c"; "d"]%byte]) in
             if err then 0%float else std).
Proof.
  apply (AutoCorrelation_scores_full_blocks stats_Correlation_model
           stats_StandardDeviation_model [["a"; "b"]%byte; ["c"; "d"]%byte] ["e"]%byte 2).
  - lia.
  - repeat constructor.
  - simpl. lia.
Defined.

(** ** The compression test with its tools at hand *)

Lemma approx_nonneg_finite (n : nat) (x : R) (f : float64) :
  approx n x f -> nonneg_finite f.
Proof.
  intros [[_ Hf]|[_ (m & e & Hf & _)]]; [left; exact Hf|right; by exists m, e].
Qed.

Lemma ratio_range (a b : Z) :
  0 < a <= int_max -> 0 < b <= int_max ->
  (bpow (-64) <= IZR a / IZR b <= bpow 64)%R.
Proof.
  unfold int_max. intros Ha Hb.
  assert (Ha1 : (1 <= IZR a)%R) by (apply IZR_le; lia).
  assert (Hb1 : (1 <= IZR b)%R) by (apply IZR_le; lia).
  assert (Ha2 : (IZR a <= bpow 64)%R).
  { rewrite (bpow_IZR 64) by lia. apply IZR_le. lia. }
  assert (Hb2 : (IZR b <= bpow 64)%R).
  { rewrite (bpow_IZR 64) by lia. apply IZR_le. lia. }
  assert (Hinv : (bpow (-64) * bpow 64 = 1)%R).
  { rewrite <- bpow_add. reflexivity. }
  pose proof (bpow_pos 64) as H64. pose proof (bpow_pos (-64)) as H64'.
  split.
  - apply (Rmult_le_reg_r (IZR b)); [lra|].
    replace (IZR a / IZR b * IZR b)%R with (IZR a) by (field; lra). nra.
  - apply (Rmult_le_reg_r (IZR b)); [lra|].
    replace (IZR a / IZR b * IZR b)%R with (IZR a) by (field; lra). nra.
Qed.

(** One ratio [fileSize / performCompression(...)] for a compressed size
    that is positive. *)
Lemma approx_ratio (size n : Z) :
  0 < size <= int_max -> 0 < n <= int_max ->
  approx 3 (IZR size / IZR n) (float64_of_Z size / float64_of_Z n)%float.
Proof.
  intros Hsize Hn. pose proof (ratio_range size n Hsize Hn) as [Hlo Hhi].
  apply (approx_div 1 1); [lia|apply approx_of_int; lia|apply approx_of_int; lia| |].
  - apply not_0_IZR. lia.
  - right. split.
    + eapply Rle_trans; [apply (bpow_le (-100) (-64)); lia|exact Hlo].
    + eapply Rle_trans; [exact Hhi|apply bpow_le; lia].
Qed.

(** The ratio for a compressed size of 0. *)
Lemma ratio_by_zero (size : Z) :
  0 < size <= int_max ->
  Prim2SF (float64_of_Z size / float64_of_Z 0)%float = S754_infinity false.
Proof.
  intros Hsize. destruct (float64_of_Z_pos size Hsize) as (m & e & Hm).
  rewrite div_spec, Hm. reflexivity.
Qed.

Lemma add_infinity_l (f g : float64) :
  Prim2SF f = S754_infinity false ->
  Prim2SF g = S754_infinity false \/ nonneg_finite g ->
  Prim2SF (f + g)%float = S754_infinity false.
Proof.
  intros Hf Hg. rewrite add_spec, Hf.
  destruct Hg as [->|[->|(m & e & ->)]]; reflexivity.
Qed.

Lemma add_infinity_r (f g : float64) :
  Prim2SF f = S754_infinity false \/ nonneg_finite f ->
  Prim2SF g = S754_infinity false ->
  Prim2SF (f + g)%float = S754_infinity false.
Proof.
  intros Hf Hg. rewrite add_spec, Hg.
  destruct Hf as [->|[->|(m & e & ->)]]; reflexivity.
Qed.

Lemma partial_sum_class (k : nat) (s : float64) :
  partial_sum k s -> Prim2SF s = S754_infinity false \/ nonneg_finite s.
Proof.
  intros [H|(x & H & _)]; [by left|right]. by apply approx_nonneg_finite in H.
Qed.

Lemma partial_sum_add (k : nat) (s t : float64) :
  (k <= 5)%nat -> partial_sum k s -> partial_sum 0 t ->
  partial_sum (S k) (s + t)%float /\
  (Prim2SF s = S754_infinity false \/ Prim2SF t = S754_infinity false ->
   Prim2SF (s + t)%float = S754_infinity false).
Proof.
  intros Hk Hs Ht. split.
  - destruct Hs as [Hs|(x & Hx & Hxb)].
    { left. apply add_infinity_l; [exact Hs|]. by apply partial_sum_class in Ht. }
    destruct Ht as [Ht|(y & Hy & Hyb)].
    { left. apply add_infinity_r; [|exact Ht]. right. by apply approx_nonneg_finite in Hx. }
    right. exists (x + y)%R.
    assert (Hsum : (x + y <= INR (S (S k)) * bpow 64)%R).
    { rewrite (S_INR (S k)). change (INR 1) with 1%R in Hyb. lra. }
    split; [|exact Hsum].
    apply (approx_add (3 + k)); [lia|exact Hx|apply (approx_mono (3 + 0)); [lia|exact Hy]|].
    eapply Rle_trans; [exact Hsum|].
    assert (HS : (INR (S (S k)) <= 8)%R).
    { replace 8%R with (INR 8) by (simpl; lra). apply le_INR. lia. }
    replace (bpow 100) with (bpow 36 * bpow 64)%R by (rewrite <- bpow_add; reflexivity).
    assert (H36 : (8 <= bpow 36)%R).
    { rewrite (bpow_IZR 36) by lia. apply IZR_le. lia. }
    pose proof (bpow_pos 64). nra.
  - intros [Hinf|Hinf].
    + apply add_infinity_l; [exact Hinf|]. by apply partial_sum_class in Ht.
    + apply add_infinity_r; [|exact Hinf]. by apply partial_sum_class in Hs.
Qed.

Lemma ratio_partial_sum (size n : Z) :
  0 < size <= int_max -> 0 <= n <= int_max ->
  partial_sum 0 (float64_of_Z size / float64_of_Z n)%float /\
  (n = 0 -> Prim2SF (float64_of_Z size / float64_of_Z n)%float = S754_infinity false).
Proof.
  intros Hsize Hn. destruct (decide (n = 0)) as [->|Hne].
  - split; [left|intros _]; by apply ratio_by_zero.
  - split; [|done]. right. exists (IZR size / IZR n)%R.
    split; [apply approx_ratio; lia|].
    change (INR 1) with 1%R. rewrite Rmult_1_l. apply ratio_range; lia.
Qed.

Ltac in_tools :=
  unfold compressionTools;
  repeat first [apply list_elem_of_here | apply list_elem_of_further].

Lemma CompressionTest_with_tools (env : compressionEnv) (fileName : string) (size : Z) :
  checkCompressionToolAvailability env = None ->
  fileSize env fileName = Some size ->
  CompressionTest env fileName
  = ((float64_of_Z size / performCompression env "pigz" fileName
      + float64_of_Z size / performCompression env "lz4" fileName
      + float64_of_Z size / performCompression env "lbzip2" fileName
      + float64_of_Z size / performCompression env "zstd" fileName
      + float64_of_Z size / performCompression env "pixz" fileName) / 5)%float.
Proof. intros Htools Hsize. unfold CompressionTest. by rewrite Htools, Hsize. Qed.

(** X17.  The value of [CompressionTest] when the five tools are installed
    and each of them writes a positive number of bytes: a number that is not
    NaN and not negative, the mean of the five ratios of the file size to the
    compressed size up to a relative error of 1e-8. *)
Theorem CompressionTest_mean_ratio (env : compressionEnv) (fileName : string)
    (size : Z) (compressed : string -> Z) :
  checkCompressionToolAvailability env = None ->
  fileSize env fileName = Some size ->
  0 < size <= int_max ->
  (forall tool, tool ∈ compressionTools ->
                0 < compressed tool <= int_max /\
                performCompression env tool fileName = float64_of_Z (compressed tool)) ->
  let mean := ((IZR size / IZR (compressed "pigz") + IZR size / IZR (compressed "lz4")
                + IZR size / IZR (compressed "lbzip2") + IZR size / IZR (compressed "zstd")
                + IZR size / IZR (compressed "pixz")) / 5)%R in
  is_nan (CompressionTest env fileName) = false /\
  fle 0%float (CompressionTest env fileName) = true /\
  (Rabs (fval (CompressionTest env fileName) - mean) <= delta * mean)%R.
Proof.
  intros Htools Hfile Hsize Hout mean.
  rewrite (CompressionTest_with_tools env fileName size Htools Hfile).
  assert (Hin : forall tool, tool ∈ compressionTools ->
                  approx 3 (IZR size / IZR (compressed tool))
                    (float64_of_Z size / performCompression env tool fileName)%float /\
                  (bpow (-64) <= IZR size / IZR (compressed tool) <= bpow 64)%R).
  { intros tool Htool. destruct (Hout tool Htool) as [Hc ->].
    split; [by apply approx_ratio|by apply ratio_range]. }
  destruct (Hin "pigz") as [H1 [L1 B1]]; [in_tools|].
  destruct (Hin "lz4") as [H2 [L2 B2]]; [in_tools|].
  destruct (Hin "lbzip2") as [H3 [L3 B3]]; [in_tools|].
  destruct (Hin "zstd") as [H4 [L4 B4]]; [in_tools|].
  destruct (Hin "pixz") as [H5 [L5 B5]]; [in_tools|].
  set (r1 := (IZR size / IZR (compressed "pigz"))%R) in *.
  set (r2 := (IZR size / IZR (compressed "lz4"))%R) in *.
  set (r3 := (IZR size / IZR (compressed "lbzip2"))%R) in *.
  set (r4 := (IZR size / IZR (compressed "zstd"))%R) in *.
  set (r5 := (IZR size / IZR (compressed "pixz"))%R) in *.
  assert (H100 : (8 * bpow 64 <= bpow 100)%R).
  { replace (bpow 100) with (bpow 36 * bpow 64)%R by (rewrite <- bpow_add; reflexivity).
    assert (H36 : (8 <= bpow 36)%R).
    { rewrite (bpow_IZR 36) by lia. apply IZR_le. lia. }
    pose proof (bpow_pos 64). nra. }
  pose proof (bpow_pos 64) as H64. pose proof (bpow_pos (-64)) as H64'.
  assert (S2 := approx_add 3 _ _ _ _ ltac:(lia) H1 H2 ltac:(lra)).
  assert (S3 := approx_add 4 _ _ _ _ ltac:(lia) S2 (approx_mono 3 4 _ _ ltac:(lia) H3)
                  ltac:(lra)).
  assert (S4 := approx_add 5 _ _ _ _ ltac:(lia) S3 (approx_mono 3 5 _ _ ltac:(lia) H4)
                  ltac:(lra)).
  assert (S5 := approx_add 6 _ _ _ _ ltac:(lia) S4 (approx_mono 3 6 _ _ ltac:(lia) H5)
                  ltac:(lra)).
  assert (Hfive : approx 1 5 5%float).
  { change 5%float with (float64_of_Z 5). apply (approx_of_int 5). vm_compute.
    split; discriminate. }
  assert (Hmean : approx (7 + 1 + 1) mean
                    ((float64_of_Z size / performCompression env "pigz" fileName
                      + float64_of_Z size / performCompression env "lz4" fileName
                      + float64_of_Z size / performCompression env "lbzip2" fileName
                      + float64_of_Z size / performCompression env "zstd" fileName
                      + float64_of_Z size / performCompression env "pixz" fileName) / 5)%float).
  { apply (approx_div 7 1); [lia|exact S5|exact Hfive|lra|].
    right. split.
    - apply Rle_trans with (bpow (-64)); [apply bpow_le; lia|]. lra.
    - lra. }
  pose proof (approx_nonneg_finite _ _ _ Hmean) as Hfin.
  split; [by apply nonneg_finite_not_nan|].
  split; [by apply nonneg_finite_ge_0|].
  destruct (approx_fval (7 + 1 + 1) _ _ ltac:(lia) Hmean) as (Hv0 & Hv1 & Hv2).
  fold mean in Hv1, Hv2.
  assert (Hmean0 : (0 <= mean)%R) by (unfold mean; lra).
  unfold eps in Hv1, Hv2. unfold delta.
  apply Rabs_le. split; nra.
Qed.

Lemma CompressionTest_mean_ratio_witness :
  let env := {| LookPath := fun _ => true;
                fileSize := fun _ => Some 1000;
                performCompression := fun _ _ => float64_of_Z 500 |} in
  is_nan (CompressionTest env "image.bin") = false /\
  fle 0%float (CompressionTest env "image.bin") = true /\
  (Rabs (fval (CompressionTest env "image.bin")
         - (IZR 1000 / IZR 500 + IZR 1000 / IZR 500 + IZR 1000 / IZR 500
            + IZR 1000 / IZR 500 + IZR 1000 / IZR 500) / 5)
   <= delta * ((IZR 1000 / IZR 500 + IZR 1000 / IZR 500 + IZR 1000 / IZR 500
                + IZR 1000 / IZR 500 + IZR 1000 / IZR 500) / 5))%R.
Proof.
  intros env.
  apply (CompressionTest_mean_ratio env "image.bin" 1000 (fun _ => 500)).
  - reflexivity.
  - reflexivity.
  - vm_compute. split; [reflexivity|discriminate].
  - intros tool _. split; [|reflexivity]. vm_compute. split; [reflexivity|discriminate].
Defined.

(** X18.  A compressor that writes nothing: when the tools are installed
    and one of the five pipelines reports 0 bytes for a file that is not
    empty, that ratio is a division by zero, [CompressionTest] returns +Inf
    whatever the other four report, and the flag the handler derives from it
    is false. *)
Theorem CompressionTest_infinite_when_a_tool_writes_nothing (env : compressionEnv)
    (fileName : string) (size : Z) (compressed : string -> Z) (tool : string) :
  checkCompressionToolAvailability env = None ->
  fileSize env fileName = Some size ->
  0 < size <= int_max ->
  (forall tool, tool ∈ compressionTools ->
                0 <= compressed tool <= int_max /\
                performCompression env tool fileName = float64_of_Z (compressed tool)) ->
  tool ∈ compressionTools -> compressed tool = 0 ->
  CompressionTest env fileName = infinity /\
  fle (CompressionTest env fileName) compressionThreshold = false.
Proof.
  intros Htools Hfile Hsize Hout Htool Hzero.
  assert (Hinf : CompressionTest env fileName = infinity).
  { rewrite (CompressionTest_with_tools env fileName size Htools Hfile).
    assert (Hin : forall t, t ∈ compressionTools ->
                    partial_sum 0 (float64_of_Z size / performCompression env t fileName)%float /\
                    (compressed t = 0 ->
                     Prim2SF (float64_of_Z size / performCompression env t fileName)%float
                     = S754_infinity false)).
    { intros t Ht. destruct (Hout t Ht) as [Hc ->]. by apply ratio_partial_sum. }
    destruct (Hin "pigz") as [P1 Z1]; [in_tools|].
    destruct (Hin "lz4") as [P2 Z2]; [in_tools|].
    destruct (Hin "lbzip2") as [P3 Z3]; [in_tools|].
    destruct (Hin "zstd") as [P4 Z4]; [in_tools|].
    destruct (Hin "pixz") as [P5 Z5]; [in_tools|].
    destruct (partial_sum_add 0 _ _ ltac:(lia) P1 P2) as [Q2 I2].
    destruct (partial_sum_add 1 _ _ ltac:(lia) Q2 P3) as [Q3 I3].
    destruct (partial_sum_add 2 _ _ ltac:(lia) Q3 P4) as [Q4 I4].
    destruct (partial_sum_add 3 _ _ ltac:(lia) Q4 P5) as [Q5 I5].
    assert (Hsum : Prim2SF (float64_of_Z size / performCompression env "pigz" fileName
                            + float64_of_Z size / performCompression env "lz4" fileName
                            + float64_of_Z size / performCompression env "lbzip2" fileName
                            + float64_of_Z size / performCompression env "zstd" fileName
                            + float64_of_Z size / performCompression env "pixz" fileName)%float
                   = S754_infinity false).
    { unfold compressionTools in Htool.
      repeat (apply elem_of_cons in Htool as [->|Htool]); [..|by apply elem_of_nil in Htool].
      - apply I5. left. apply I4. left. apply I3. left. apply I2. left. by apply Z1.
      - apply I5. left. apply I4. left. apply I3. left. apply I2. right. by apply Z2.
      - apply I5. left. apply I4. left. apply I3. right. by apply Z3.
      - apply I5. left. apply I4. right. by apply Z4.
      - apply I5. right. by apply Z5. }
    apply Prim2SF_inj. rewrite div_spec, Hsum. reflexivity. }
  split; [exact Hinf|]. rewrite Hinf. reflexivity.
Qed.

Lemma CompressionTest_infinite_when_a_tool_writes_nothing_witness :
  let env := {| LookPath := fun _ => true;
                fileSize := fun _ => Some 1000;
                performCompression :=
                  fun tool _ => if String.eqb tool "pixz" then float64_of_Z 0
                                else float64_of_Z 500 |} in
  CompressionTest env "image.bin" = infinity /\
  fle (CompressionTest env "image.bin") compressionThreshold = false.
Proof.
  intros env.
  apply (CompressionTest_infinite_when_a_tool_writes_nothing env "image.bin" 1000
           (fun tool => if String.eqb tool "pixz" then 0 else 500) "pixz").
  - reflexivity.
  - reflexivity.
  - vm_compute. split; [reflexivity|discriminate].
  - intros tool _. split.
    + destruct (String.eqb tool "pixz"); vm_compute; split; discriminate.
    + simpl. destruct (String.eqb tool "pixz"); reflexivity.
  - in_tools.
  - reflexivity.
Defined.

(** ** The file-system probe *)

Lemma strings_Split_free (s : string) (sep : ascii) :
  free_of sep s -> strings_Split s sep = [s].
Proof.
  induction s as [|c s IH]; [done|]. intros [Hc Hs]. cbn [strings_Split].
  rewrite bool_decide_eq_false_2 by exact Hc. by rewrite (IH Hs).
Qed.

Lemma strings_Split_append (s1 s2 : string) (sep : ascii) :
  free_of sep s1 ->
  strings_Split (s1 +:+ String sep s2) sep = s1 :: strings_Split s2 sep.
Proof.
  induction s1 as [|c s1 IH]; intros Hfree.
  - change ("" +:+ String sep s2) with (String sep s2). cbn [strings_Split].
    by rewrite bool_decide_eq_true_2.
  - destruct Hfree as [Hc Hs].
    change (String c s1 +:+ String sep s2) with (String c (s1 +:+ String sep s2)).
    cbn [strings_Split].
    rewrite bool_decide_eq_false_2 by exact Hc. by rewrite (IH Hs).
Qed.

(** Splitting what was joined gives the parts back. *)
Lemma strings_Split_Join (parts : list string) (sep : ascii) :
  parts <> [] -> Forall (free_of sep) parts ->
  strings_Split (strings_Join parts sep) sep = parts.
Proof.
  intros Hne Hfree. induction Hfree as [|part parts Hpart Hparts IH]; [done|].
  destruct parts as [|part' parts].
  - cbn. by apply strings_Split_free.
  - change (strings_Join (part :: part' :: parts) sep)
      with (part +:+ String sep (strings_Join (part' :: parts) sep)).
    rewrite strings_Split_append by exact Hpart. f_equal. by apply IH.
Qed.

Lemma free_of_append (sep : ascii) (s1 s2 : string) :
  free_of sep s1 -> free_of sep s2 -> free_of sep (s1 +:+ s2).
Proof.
  induction s1 as [|c s1 IH]; [done|]. intros [Hc Hs] H2.
  change (String c s1 +:+ s2) with (String c (s1 +:+ s2)). split; [done|by apply IH].
Qed.

Lemma free_of_Join (sep sep' : ascii) (parts : list string) :
  sep <> sep' -> Forall (free_of sep') parts -> free_of sep' (strings_Join parts sep).
Proof.
  intros Hsep Hfree. induction Hfree as [|part parts Hpart Hparts IH]; [done|].
  destruct parts as [|part' parts]; [done|].
  change (strings_Join (part :: part' :: parts) sep)
    with (part +:+ String sep (strings_Join (part' :: parts) sep)).
  apply free_of_append; [done|]. split; [done|exact IH].
Qed.

Lemma slice_index_app_last {A : Type} (l tail : list A) (x : A) :
  slice_index (l ++ x :: tail) (Z.of_nat (length (l ++ x :: tail))
                                 - Z.of_nat (S (length tail))) = Some x.
Proof.
  unfold slice_index. rewrite length_app. cbn [length].
  destruct (Z.ltb_spec (Z.of_nat (length l + S (length tail)) - Z.of_nat (S (length tail))) 0);
    [lia|].
  replace (Z.to_nat (Z.of_nat (length l + S (length tail)) - Z.of_nat (S (length tail))))
    with (length l) by lia.
  by rewrite list_lookup_middle.
Qed.

(** X19.  What [PartedCheck] reads from the output of [parted -m]: when
    the output ends in a line feed, has no "Error" in it, and its last line
    has at least three fields separated by colons, the result is the third
    field from the end of that last line, the file-system column of the last
    partition in the machine-readable listing. *)
Theorem PartedCheck_reads_last_line (earlier fields : list string) (a b c : string) :
  let line := strings_Join (fields ++ [a; b; c]) ":"%char in
  let text := strings_Join (earlier ++ [line; EmptyString]) "010"%char in
  Forall (free_of "010"%char) earlier ->
  Forall (free_of "010"%char) (fields ++ [a; b; c]) ->
  Forall (free_of ":"%char) (fields ++ [a; b; c]) ->
  strings_Contains text "Error" = false ->
  PartedCheck (Some text) = Some a.
Proof.
  intros line text Hearlier Hnl Hcolon Herror.
  unfold PartedCheck. simpl default. rewrite Herror.
  assert (Hline : free_of "010"%char line).
  { apply free_of_Join; [discriminate|exact Hnl]. }
  assert (Hlines : strings_Split text "010"%char = earlier ++ [line; EmptyString]).
  { apply strings_Split_Join; [by destruct earlier|].
    apply Forall_app. split; [exact Hearlier|]. repeat constructor. exact Hline. }
  rewrite Hlines.
  pose proof (slice_index_app_last earlier [EmptyString] line) as Hidx.
  cbn [length] in Hidx. change (Z.of_nat 2) with 2 in Hidx. rewrite Hidx.
  cbn [mbind option_bind].
  assert (Hfields : strings_Split line ":"%char = fields ++ [a; b; c]).
  { apply strings_Split_Join; [by destruct fields|exact Hcolon]. }
  rewrite Hfields.
  pose proof (slice_index_app_last fields [b; c] a) as Hidx'.
  cbn [length] in Hidx'. change (Z.of_nat 3) with 3 in Hidx'. exact Hidx'.
Qed.

Lemma PartedCheck_reads_last_line_witness :
  let line := strings_Join (["1"; "1049kB"; "500GB"; "500GB"] ++ ["ext4"; "primary"; "boot;"])
                ":"%char in
  let text := strings_Join (["BYT;"; "/dev/sda:500GB:scsi:512:512:gpt:ATA:;"]
                            ++ [line; EmptyString]) "010"%char in
  PartedCheck (Some text) = Some "ext4".
Proof.
  apply (PartedCheck_reads_last_line ["BYT;"; "/dev/sda:500GB:scsi:512:512:gpt:ATA:;"]
           ["1"; "1049kB"; "500GB"; "500GB"] "ext4" "primary" "boot;").
  - repeat constructor; vm_compute; repeat split; discriminate.
  - repeat constructor; vm_compute; repeat split; discriminate.
  - repeat constructor; vm_compute; repeat split; discriminate.
  - vm_compute. reflexivity.
Defined.

(** X20.  An output that [parted] wrote, with no "Error" in it and no
    line feed, makes [PartedCheck] panic: [strings.Split] returns a single
    line and the index [len(lines)-2] is -1. *)
Theorem PartedCheck_panics_without_line_feed (text : string) :
  free_of "010"%char text ->
  strings_Contains text "Error" = false ->
  PartedCheck (Some text) = None.
Proof.
  intros Hfree Herror. unfold PartedCheck. simpl default. rewrite Herror.
  rewrite strings_Split_free by exact Hfree. reflexivity.
Qed.

Lemma PartedCheck_panics_without_line_feed_witness :
  PartedCheck (Some "BYT;") = None.
Proof.
  apply (PartedCheck_panics_without_line_feed "BYT;").
  - vm_compute. repeat split; discriminate.
  - reflexivity.
Defined.

(** X21.  A last line with fewer than three fields makes [PartedCheck]
    panic: when the output has no "Error" in it and ends in a line feed, and
    the line before that line feed has one or two fields, the index
    [len(fsType)-3] is negative.  The output that consists of the line "BYT;"
    alone is such an output. *)
Theorem PartedCheck_panics_on_short_last_line (earlier fields : list string) :
  let line := strings_Join fields ":"%char in
  let text := strings_Join (earlier ++ [line; EmptyString]) "010"%char in
  fields <> [] -> (length fields < 3)%nat ->
  Forall (free_of "010"%char) earlier ->
  Forall (free_of "010"%char) fields ->
  Forall (free_of ":"%char) fields ->
  strings_Contains text "Error" = false ->
  PartedCheck (Some text) = None.
Proof.
  intros line text Hne Hshort Hearlier Hnl Hcolon Herror.
  unfold PartedCheck. simpl default. rewrite Herror.
  assert (Hline : free_of "010"%char line).
  { apply free_of_Join; [discriminate|exact Hnl]. }
  assert (Hlines : strings_Split text "010"%char = earlier ++ [line; EmptyString]).
  { apply strings_Split_Join; [by destruct earlier|].
    apply Forall_app. split; [exact Hearlier|]. repeat constructor. exact Hline. }
  rewrite Hlines.
  pose proof (slice_index_app_last earlier [EmptyString] line) as Hidx.
  cbn [length] in Hidx. change (Z.of_nat 2) with 2 in Hidx. rewrite Hidx.
  cbn [mbind option_bind].
  assert (Hfields : strings_Split line ":"%char = fields).
  { apply strings_Split_Join; [exact Hne|exact Hcolon]. }
  rewrite Hfields. unfold slice_index.
  destruct (Z.ltb_spec (Z.of_nat (length fields) - 3) 0); [reflexivity|lia].
Qed.

Lemma PartedCheck_panics_on_short_last_line_witness :
  let line := strings_Join ["BYT;"] ":"%char in
  let text := strings_Join ([] ++ [line; EmptyString]) "010"%char in
  PartedCheck (Some text) = None.
Proof.
  apply (PartedCheck_panics_on_short_last_line [] ["BYT;"]).
  - discriminate.
  - simpl. lia.
  - constructor.
  - repeat constructor; vm_compute; repeat split; discriminate.
  - repeat constructor; vm_compute; repeat split; discriminate.
  - vm_compute. reflexivity.
Defined.

(** ** A zero-byte input *)

Lemma AutoCorrelation_empty_file
    (stats_Correlation : list float64 -> list float64 -> float64 * bool)
    (stats_StandardDeviation : list float64 -> float64 * bool) (blockSize : Z) :
  0 <= blockSize ->
  exists autocorrResult,
    AutoCorrelation stats_Correlation stats_StandardDeviation [] blockSize
    = Returns autocorrResult.
Proof.
  intros Hbs. unfold AutoCorrelation. destruct (Z.ltb_spec blockSize 0); [lia|].
  cbn [length AutoCorrelation_loop file_Read]. rewrite take_nil. cbn [length Nat.eqb].
  unfold mbind, outcome_bind, obind.
  destruct (stats_StandardDeviation []) as [std []]; by eexists.
Qed.

Lemma CreateFileCounter_empty_file (Log2 : float64 -> float64) (blockSize : Z) :
  Log2 0%float = neg_infinity -> 0 < blockSize ->
  CreateFileCounter Log2 [] blockSize = Aborts Unspecified_Conversion.
Proof.
  intros Hlog Hbs. unfold CreateFileCounter. cbn [length].
  change (Z.of_nat 0) with 0.
  destruct (effectiveBlockSize_empty_file Log2 blockSize Hlog Hbs) as [-> _].
  reflexivity.
Qed.

Lemma EncToolDetection_empty_file (blockSize : Z) (order : list string) :
  0 < blockSize <= int_max ->
  EncToolDetection [] blockSize false order = Aborts Fatal_Seek \/
  EncToolDetection [] blockSize false order = Returns noEncToolResults.
Proof.
  intros Hbs. unfold EncToolDetection. destruct (Z.ltb_spec blockSize 0); [lia|].
  rewrite (detect_loop_empty_file blockSize order Hbs 0) by lia.
  rewrite noEncToolResults_init. fold foundSignaturesTotal_init.
  destruct (filter _ order) as [|name rest]; [by right|].
  destruct (decide (name = "FreeBSD GELI")); [by left|by right].
Qed.



